(** * tealc.py: the TEAL assembler, embedded and verified

    The development follows [tealc.py] top to bottom: the Python
    primitives the assembler calls ([str.strip], [str.split],
    [str.splitlines], [int], the [base64] decoders), the varuint codec,
    the byte-constant parser, the [Assembler] class with its handlers, the
    line driver, label resolution and [getBytes].

    Conventions.
    - A Python [str] is a [string]; each [ascii] is a code point below 256.
    - A Python [bytes] / [io.BytesIO] is a [list Z] of values in 0..255;
      [BytesIO.tell()] is the length, since the code only ever appends.
    - A Python [int] is a [Z].
    - A method of [Assembler] is a function [Assembler -> outcome A]: it
      returns normally with the mutated object, raises with the object as
      mutated so far, or never returns. *)

From Stdlib Require Import ZArith NArith String Ascii List Lia Bool.
From stdpp Require Import base option list gmap strings sorting.

Import ListNotations.
Local Open Scope string_scope.
Local Open Scope list_scope.
Local Open Scope Z_scope.

(** ** Exceptions *)

(** The payload of each [raise Exception(...)] of [tealc.py]; a constructor
    carries what the message is formatted from. *)
Inductive message : Type :=
| could_not_parse_byte_constant_args (args : list string)
| duplicate_label (label : string)
| cannot_have_more_than_256_int_constants
| invalid_negative_intc_const_index
| int_expects_1_arg
| intc_expects_1_arg
| cannot_have_more_than_256_byte_constants
| invalid_negative_bytec_const_index
| bytec_expects_1_arg
| addr_expects_1_arg
| byte_expects_an_args
| expects_1_arg_got (name : string) (args : list string)
| cannot_have_more_than_256_args
| invalid_negative_arg_index
| expects_one_argument (name : string)
| expects_two_arguments (name : string)
| unknown_arg (name arg : string)
| could_not_parse_line (rawline : string)
| unknown_opcode (name : string)
| reference_to_undefined_label (sourceLine : Z) (label : string)
| label_is_before_reference (sourceLine : Z) (label : string)
| label_is_too_far_away (sourceLine : Z) (label : string).

(** What the interpreter and the libraries raise as [ValueError]
    ([binascii.Error] is a subclass of it). *)
Inductive value_error : Type :=
| invalid_literal_for_int (base : Z) (s : string)
| byte_must_be_in_range_256
| string_should_contain_only_ASCII
| Incorrect_padding
| Non_base32_digit_found
| Non_base16_digit_found
| Odd_length_string
| Invalid_base64_length.

Inductive error : Type :=
| Exception (msg : message)
| IndexError
| TypeError
| KeyError (key : string)
| ValueError (why : value_error)
| AddressError.

(** A pure call: it returns or it raises. *)
Inductive result (A : Type) : Type :=
| Ok (a : A)
| Err (e : error).
Arguments Ok {A} a.
Arguments Err {A} e.

Definition rbind {A B} (r : result A) (k : A -> result B) : result B :=
  match r with
  | Ok a => k a
  | Err e => Err e
  end.

(** ** Python primitives *)

Module Py.

Definition ord (c : ascii) : Z := Z.of_N (N_of_ascii c).

Definition chars (s : string) : list ascii := list_ascii_of_string s.
Definition str (l : list ascii) : string := string_of_list_ascii l.

(** [str.isspace] on one code point below 256. *)
Definition isspace (c : ascii) : bool :=
  let n := ord c in
  ((9 <=? n) && (n <=? 13)) || ((28 <=? n) && (n <=? 32))
  || (n =? 133) || (n =? 160).

Fixpoint lstrip (l : list ascii) : list ascii :=
  match l with
  | c :: l' => if isspace c then lstrip l' else l
  | [] => []
  end.

(** [s.strip()] *)
Definition strip (s : string) : string :=
  str (rev (lstrip (rev (lstrip (chars s))))).

(** [s.split()]: maximal runs of non-whitespace; [cur] is the run being
    read, reversed. *)
Fixpoint split_from (cur : list ascii) (l : list ascii) : list string :=
  match l with
  | [] => match cur with [] => [] | _ => [str (rev cur)] end
  | c :: l' =>
      if isspace c
      then match cur with
           | [] => split_from [] l'
           | _ => str (rev cur) :: split_from [] l'
           end
      else split_from (c :: cur) l'
  end.

Definition split (s : string) : list string := split_from [] (chars s).

(** The line boundaries of [str.splitlines] below code point 256. *)
Definition is_linebreak (c : ascii) : bool :=
  let n := ord c in
  ((10 <=? n) && (n <=? 13)) || ((28 <=? n) && (n <=? 30)) || (n =? 133).

Fixpoint splitlines_from (cur : list ascii) (l : list ascii) : list string :=
  match l with
  | [] => match cur with [] => [] | _ => [str (rev cur)] end
  | c :: l' =>
      if is_linebreak c
      then str (rev cur) ::
           match l' with
           | c' :: l'' =>
               if (ord c =? 13) && (ord c' =? 10)
               then splitlines_from [] l''
               else splitlines_from [] l'
           | [] => splitlines_from [] l'
           end
      else splitlines_from (c :: cur) l'
  end.

(** [s.splitlines()] *)
Definition splitlines (s : string) : list string :=
  splitlines_from [] (chars s).

(** [s.startswith(p)], [s.endswith(p)] *)
Definition startswith (s p : string) : bool := String.prefix p s.

Definition endswith (s p : string) : bool :=
  String.prefix (str (rev (chars p))) (str (rev (chars s))).

(** [s[n:]] and [s[:n]] for [0 <= n] *)
Definition slice_from (n : nat) (s : string) : string := str (drop n (chars s)).
Definition slice_to (n : nat) (s : string) : string := str (take n (chars s)).

(** [s.upper()]: below code point 256 only [a-z] and three letters of
    Latin-1 change; of those, sharp s alone becomes ASCII ([SS]). *)
Definition upper_char (c : ascii) : list ascii :=
  let n := ord c in
  if (97 <=? n) && (n <=? 122) then [ascii_of_N (Z.to_N (n - 32))]
  else if n =? 223 then ["S"%char; "S"%char]
  else [c].

Definition upper (s : string) : string :=
  str (concat (map upper_char (chars s))).

(** *** [int(s, base)] for [base] 0 (prefix decides) and 10. *)

(** [_PyLong_DigitValue]: 37 marks a character that is no digit. *)
Definition digit_value (c : ascii) : Z :=
  let n := ord c in
  if (48 <=? n) && (n <=? 57) then n - 48
  else if (97 <=? n) && (n <=? 122) then n - 87
  else if (65 <=? n) && (n <=? 90) then n - 55
  else 37.

(** The digit scan of [PyLong_FromString]: digits below [base] and single
    underscores between them. Returns the number of digits, the value and
    what follows; [None] on a doubled or trailing underscore. *)
Fixpoint scan_digits (base : Z) (l : list ascii) (prev_us : bool)
         (n : nat) (acc : Z) : option (nat * Z * list ascii) :=
  match l with
  | c :: l' =>
      if (ord c =? 95)
      then if prev_us then None else scan_digits base l' true n acc
      else if digit_value c <? base
           then scan_digits base l' false (S n) (acc * base + digit_value c)
           else if prev_us then None else Some (n, acc, l)
  | [] => if prev_us then None else Some (n, acc, [])
  end.

Definition int_sign (l : list ascii) : Z * list ascii :=
  match l with
  | c :: l' =>
      if ord c =? 43 then (1, l')
      else if ord c =? 45 then (-1, l')
      else (1, l)
  | [] => (1, [])
  end.

(** For [base = 0]: the base a literal's prefix selects, whether the
    value must be zero (the old octal form), and the text after the prefix
    and the one underscore allowed there. *)
Definition int_prefix (base : Z) (l : list ascii) : Z * bool * list ascii :=
  let skip_us (r : list ascii) :=
    match r with
    | u :: r' => if ord u =? 95 then r' else r
    | [] => r
    end in
  if base =? 0 then
    match l with
    | z :: x :: r =>
        if ord z =? 48 then
          if (ord x =? 120) || (ord x =? 88) then (16, false, skip_us r)
          else if (ord x =? 111) || (ord x =? 79) then (8, false, skip_us r)
          else if (ord x =? 98) || (ord x =? 66) then (2, false, skip_us r)
          else (10, true, l)
        else (10, false, l)
    | [z] => (10, ord z =? 48, l)
    | [] => (10, false, l)
    end
  else (base, false, l).

Definition int (s : string) (base : Z) : result Z :=
  let bad := Err (ValueError (invalid_literal_for_int base s)) in
  let '(sign, l) := int_sign (chars (strip s)) in
  let '(b, zero_only, l) := int_prefix base l in
  match l with
  | c :: _ =>
      if ord c =? 95 then bad
      else match scan_digits b l false O 0 with
           | Some (S _, v, []) =>
               if zero_only && negb (v =? 0) then bad else Ok (sign * v)
           | _ => bad
           end
  | [] => bad
  end.

End Py.

(** ** The [base64] module of the Python library

    [b16decode], [b32decode] and [b64decode] as CPython defines them
    ([Lib/base64.py], [Modules/binascii.c]), called the way [tealc.py] calls
    them: one [str] argument, no [casefold], no [validate]. *)

Module Base64.

(** [_bytes_from_decode_data]: a [str] argument is encoded as ASCII. *)
Definition bytes_from_decode_data (s : string) : result (list ascii) :=
  if forallb (fun c => Py.ord c <? 128) (Py.chars s)
  then Ok (Py.chars s)
  else Err (ValueError string_should_contain_only_ASCII).

Definition hex_value (c : ascii) : option Z :=
  let n := Py.ord c in
  if (48 <=? n) && (n <=? 57) then Some (n - 48)
  else if (65 <=? n) && (n <=? 70) then Some (n - 55)
  else None.

(** [binascii.unhexlify] on text already known to be in [0-9A-F]. *)
Fixpoint unhexlify (l : list ascii) : result (list Z) :=
  match l with
  | [] => Ok []
  | [_] => Err (ValueError Odd_length_string)
  | h :: k :: l' =>
      match hex_value h, hex_value k with
      | Some x, Some y => rbind (unhexlify l') (fun r => Ok (16 * x + y :: r))
      | _, _ => Err (ValueError Non_base16_digit_found)
      end
  end.

Definition b16decode (s : string) : result (list Z) :=
  rbind (bytes_from_decode_data s) (fun l =>
  if forallb (fun c => bool_decide (is_Some (hex_value c))) l
  then unhexlify l
  else Err (ValueError Non_base16_digit_found)).

(** [_b32rev]: the alphabet [A-Z2-7]. *)
Definition b32_value (c : ascii) : option Z :=
  let n := Py.ord c in
  if (65 <=? n) && (n <=? 90) then Some (n - 65)
  else if (50 <=? n) && (n <=? 55) then Some (n - 24)
  else None.

(** [s.rstrip(b'=')] *)
Fixpoint lstrip_pad (l : list ascii) : list ascii :=
  match l with
  | c :: l' => if Py.ord c =? 61 then lstrip_pad l' else l
  | [] => []
  end.
Definition rstrip_pad (l : list ascii) : list ascii := rev (lstrip_pad (rev l)).

(** [range(0, len(s), 8)] and [s[i: i + 8]] *)
Fixpoint quanta_of (fuel : nat) (l : list ascii) : list (list ascii) :=
  match fuel, l with
  | S fuel', _ :: _ => take 8 l :: quanta_of fuel' (drop 8 l)
  | _, _ => []
  end.

(** [for c in quanta: acc = (acc << 5) + b32rev[c]] *)
Fixpoint quantum_acc (acc : Z) (q : list ascii) : result Z :=
  match q with
  | [] => Ok acc
  | c :: q' =>
      match b32_value c with
      | Some v => quantum_acc (Z.shiftl acc 5 + v) q'
      | None => Err (ValueError Non_base32_digit_found)
      end
  end.

(** [acc.to_bytes(5, 'big')] (every [acc] here is below [2^40]). *)
Definition to_bytes5 (acc : Z) : list Z :=
  map (fun k => Z.land (Z.shiftr acc k) 255) [32; 24; 16; 8; 0].

(** The loop over the quanta: the decoded bytes and the last [acc]. *)
Fixpoint decode_quanta (qs : list (list ascii)) (decoded : list Z) (acc : Z)
  : result (list Z * Z) :=
  match qs with
  | [] => Ok (decoded, acc)
  | q :: qs' =>
      rbind (quantum_acc 0 q) (fun acc' =>
      decode_quanta qs' (decoded ++ to_bytes5 acc') acc')
  end.

Definition b32decode (s : string) : result (list Z) :=
  rbind (bytes_from_decode_data s) (fun s =>
  if negb (Z.of_nat (length s) mod 8 =? 0)
  then Err (ValueError Incorrect_padding)
  else
    let l := length s in
    let s := rstrip_pad s in
    let padchars := Z.of_nat (l - length s) in
    rbind (decode_quanta (quanta_of (length s) s) [] 0) (fun '(decoded, acc) =>
    if negb (existsb (Z.eqb padchars) [0; 1; 3; 4; 6])
    then Err (ValueError Incorrect_padding)
    else
      if negb (padchars =? 0) && negb (bool_decide (decoded = []))
      then
        let acc := Z.shiftl acc (5 * padchars) in
        let last := to_bytes5 acc in
        let leftover := (43 - 5 * padchars) / 8 in
        Ok (take (length decoded - 5) decoded ++ take (Z.to_nat leftover) last)
      else Ok decoded)).

(** [table_a2b_base64]: [A-Z], [a-z], [0-9], [+], [/]. *)
Definition b64_value (c : ascii) : option Z :=
  let n := Py.ord c in
  if (65 <=? n) && (n <=? 90) then Some (n - 65)
  else if (97 <=? n) && (n <=? 122) then Some (n - 71)
  else if (48 <=? n) && (n <=? 57) then Some (n + 4)
  else if n =? 43 then Some 62
  else if n =? 47 then Some 63
  else None.

(** [binascii.a2b_base64] without strict mode: characters outside the
    alphabet are skipped, a completed pad sequence ends the input. *)
Fixpoint a2b_base64 (l : list ascii) (quad_pos leftchar pads : Z)
         (bin : list Z) : result (list Z) :=
  match l with
  | [] =>
      if quad_pos =? 0 then Ok bin
      else if quad_pos =? 1 then Err (ValueError Invalid_base64_length)
      else Err (ValueError Incorrect_padding)
  | c :: l' =>
      if Py.ord c =? 61 then
        if (2 <=? quad_pos) && (4 <=? quad_pos + (pads + 1)) then Ok bin
        else a2b_base64 l' quad_pos leftchar
                        (if 2 <=? quad_pos then pads + 1 else pads) bin
      else
        match b64_value c with
        | None => a2b_base64 l' quad_pos leftchar pads bin
        | Some v =>
            if quad_pos =? 0 then a2b_base64 l' 1 v 0 bin
            else if quad_pos =? 1 then
              a2b_base64 l' 2 (Z.land v 15) 0
                (bin ++ [Z.land (Z.lor (Z.shiftl leftchar 2) (Z.shiftr v 4)) 255])
            else if quad_pos =? 2 then
              a2b_base64 l' 3 (Z.land v 3) 0
                (bin ++ [Z.land (Z.lor (Z.shiftl leftchar 4) (Z.shiftr v 2)) 255])
            else
              a2b_base64 l' 0 0 0
                (bin ++ [Z.land (Z.lor (Z.shiftl leftchar 6) v) 255])
        end
  end.

Definition b64decode (s : string) : result (list Z) :=
  rbind (bytes_from_decode_data s) (fun l => a2b_base64 l 0 0 0 []).

End Base64.

(** ** [to_varuint] *)

(** The [while True] loop of [to_varuint], one iteration per unit of fuel.
    [None]: the loop is still running when the fuel is spent. *)
Fixpoint to_varuint_loop (fuel : nat) (x : Z) (out : list Z) : option (list Z) :=
  match fuel with
  | O => None
  | S fuel' =>
      let tb := Z.land x 0x7f in
      let x := Z.shiftr x 7 in
      let tb := if negb (x =? 0) then Z.lor tb 0x80 else tb in
      let out := out ++ [tb] in
      if x =? 0 then Some out else to_varuint_loop fuel' x out
  end.

(** [to_varuint(x)]. The fuel covers every non-negative [x]; on a negative
    [x] the loop never ends, whatever the fuel ([to_varuint_loop_negative]),
    and [None] stands for the call that does not return. *)
Definition to_varuint (x : Z) : option (list Z) :=
  to_varuint_loop (S (Z.to_nat (Z.log2 x))) x [].

(** ** [parseByteConstant] *)

(** The lazy group of [name\((.*?)\)]: the text up to the first [)], which
    [.] must be able to cross (no newline). *)
Fixpoint lazy_group (l : list ascii) (grp : list ascii) : option string :=
  match l with
  | [] => None
  | c :: l' =>
      if Py.ord c =? 41 then Some (Py.str (rev grp))
      else if Py.ord c =? 10 then None
      else lazy_group l' (c :: grp)
  end.

(** [re.compile(name + r'\((.*?)\)').match(s)], as [m.group(1)]. *)
Definition re_match (name : string) (s : string) : option string :=
  if Py.startswith s (name +:+ "(")
  then lazy_group (drop (S (String.length name)) (Py.chars s)) []
  else None.

Definition b32re := re_match "b32".
Definition base32re := re_match "base32".
Definition b64re := re_match "b64".
Definition base64re := re_match "base64".

(** [a or b] on match objects *)
Definition or_match (a b : option string) : option string :=
  match a with Some _ => a | None => b end.

Definition parseByteConstant (args : list string)
  : result (list Z * list string) :=
  match args with
  | [] => Err IndexError
  | a0 :: _ =>
      if String.eqb a0 "b32" || String.eqb a0 "base32" then
        match args !! 1%nat with
        | Some a1 => rbind (Base64.b32decode a1) (fun v => Ok (v, drop 2 args))
        | None => Err IndexError
        end
      else if String.eqb a0 "b64" || String.eqb a0 "base64" then
        match args !! 1%nat with
        | Some a1 => rbind (Base64.b64decode a1) (fun v => Ok (v, drop 2 args))
        | None => Err IndexError
        end
      else if Py.startswith a0 "0x" then
        rbind (Base64.b16decode (Py.upper (Py.slice_from 2 a0)))
              (fun v => Ok (v, drop 1 args))
      else
        match or_match (b32re a0) (base32re a0) with
        | Some g => rbind (Base64.b32decode g) (fun v => Ok (v, drop 1 args))
        | None =>
            match or_match (b64re a0) (base64re a0) with
            | Some g => rbind (Base64.b64decode g) (fun v => Ok (v, drop 1 args))
            | None => Err (Exception (could_not_parse_byte_constant_args args))
            end
        end
  end.

Definition _intc_ops : gmap Z (list Z) :=
  <[0 := [0x22]]> (<[1 := [0x23]]> (<[2 := [0x24]]> (<[3 := [0x25]]> ∅))).
Definition _bytec_ops : gmap Z (list Z) :=
  <[0 := [0x28]]> (<[1 := [0x29]]> (<[2 := [0x2a]]> (<[3 := [0x2b]]> ∅))).
Definition _arg_ops : gmap Z (list Z) :=
  <[0 := [0x2d]]> (<[1 := [0x2e]]> (<[2 := [0x2f]]> (<[3 := [0x30]]> ∅))).

(** [bytes([...])]: every item must be in [range(256)]. *)
Definition bytes_of (l : list Z) : result (list Z) :=
  if forallb (fun x => (0 <=? x) && (x <? 256)) l then Ok l
  else Err (ValueError byte_must_be_in_range_256).

(** One record of [langspec.json]'s [Ops] list. *)
Record OpSpec : Type := mkOp {
  Name : string;
  Opcode : Z;
  ArgEnum : option (list string)
}.

(** [ops_by_name]: a later record of the same name replaces an earlier one. *)
Definition ops_by_name (ops : list OpSpec) : gmap string OpSpec :=
  foldl (fun m x => <[Name x := x]> m) ∅ ops.

(** ** The [Assembler] object *)

Record Assembler : Type := mkAssembler {
  out : list Z;
  intc : list Z;
  intcWritten : bool;
  bytec : list (list Z);
  bytecWritten : bool;
  sourceName : string;
  sourceLine : Z;
  labels : gmap string Z;
  labelReferences : list (Z * Z * string);
  opByName : gmap string OpSpec;
  version : Z
}.

Definition set_out (v : list Z) (a : Assembler) : Assembler :=
  mkAssembler v (intc a) (intcWritten a) (bytec a) (bytecWritten a)
    (sourceName a) (sourceLine a) (labels a) (labelReferences a) (opByName a) (version a).
Definition set_intc (v : list Z) (a : Assembler) : Assembler :=
  mkAssembler (out a) v (intcWritten a) (bytec a) (bytecWritten a)
    (sourceName a) (sourceLine a) (labels a) (labelReferences a) (opByName a) (version a).
Definition set_intcWritten (v : bool) (a : Assembler) : Assembler :=
  mkAssembler (out a) (intc a) v (bytec a) (bytecWritten a)
    (sourceName a) (sourceLine a) (labels a) (labelReferences a) (opByName a) (version a).
Definition set_bytec (v : list (list Z)) (a : Assembler) : Assembler :=
  mkAssembler (out a) (intc a) (intcWritten a) v (bytecWritten a)
    (sourceName a) (sourceLine a) (labels a) (labelReferences a) (opByName a) (version a).
Definition set_bytecWritten (v : bool) (a : Assembler) : Assembler :=
  mkAssembler (out a) (intc a) (intcWritten a) (bytec a) v
    (sourceName a) (sourceLine a) (labels a) (labelReferences a) (opByName a) (version a).
Definition set_sourceLine (v : Z) (a : Assembler) : Assembler :=
  mkAssembler (out a) (intc a) (intcWritten a) (bytec a) (bytecWritten a)
    (sourceName a) v (labels a) (labelReferences a) (opByName a) (version a).
Definition set_labels (v : gmap string Z) (a : Assembler) : Assembler :=
  mkAssembler (out a) (intc a) (intcWritten a) (bytec a) (bytecWritten a)
    (sourceName a) (sourceLine a) v (labelReferences a) (opByName a) (version a).
Definition set_labelReferences (v : list (Z * Z * string)) (a : Assembler) : Assembler :=
  mkAssembler (out a) (intc a) (intcWritten a) (bytec a) (bytecWritten a)
    (sourceName a) (sourceLine a) (labels a) v (opByName a) (version a).

(** What a method call does: return a value, raise, or never return; the
    first two leave the object as mutated up to that point. *)
Inductive outcome (A : Type) : Type :=
| Returns (a : A) (self : Assembler)
| Raises (e : error) (self : Assembler)
| Hangs.
Arguments Returns {A} a self.
Arguments Raises {A} e self.
Arguments Hangs {A}.

Definition M (A : Type) : Type := Assembler -> outcome A.

Definition ret {A} (a : A) : M A := fun self => Returns a self.

Definition bind {A B} (m : M A) (k : A -> M B) : M B :=
  fun self =>
    match m self with
    | Returns a self' => k a self'
    | Raises e self' => Raises e self'
    | Hangs => Hangs
    end.

Definition raise {A} (e : error) : M A := fun self => Raises e self.
Definition get : M Assembler := fun self => Returns self self.
Definition modify (f : Assembler -> Assembler) : M unit :=
  fun self => Returns tt (f self).

(** A pure call made from a method. *)
Definition call {A} (r : result A) : M A :=
  match r with
  | Ok a => ret a
  | Err e => raise e
  end.

(** A call that returns or loops for ever. *)
Definition call_loop {A} (o : option A) : M A :=
  match o with
  | Some a => ret a
  | None => fun _ => Hangs
  end.

Declare Scope asm_scope.
Delimit Scope asm_scope with asm.
Notation "x <- m ;; k" := (bind m (fun x => k))
  (at level 100, m at next level, right associativity) : asm_scope.
Notation "m ;; k" := (bind m (fun _ => k))
  (at level 100, right associativity) : asm_scope.
Local Open Scope asm_scope.

(** [self.out.write(b)] and [self.out.tell()] *)
Definition out_write (b : list Z) : M unit :=
  modify (fun self => set_out (out self ++ b) self).
Definition out_tell : M Z :=
  self <- get ;; ret (Z.of_nat (length (out self))).

(** ** The methods of [Assembler] *)

Section Assembler.

(** [algosdk.encoding.decode_address], an external function. *)
Variable decode_address : string -> result (list Z).

(** [Assembler(sourceName, version)], for the [Ops] list [ops] that
    [load_langspec] reads from [langspec.json]. *)
Definition Assembler_init (ops : list OpSpec) (sourceName : string)
           (version : Z) : Assembler :=
  {| out := [];
     intc := [];
     intcWritten := false;
     bytec := [];
     bytecWritten := false;
     sourceName := sourceName;
     sourceLine := 0;
     labels := ∅;
     labelReferences := [];
     opByName := ops_by_name ops;
     version := 1 |}.

Definition setLabel (label : string) : M unit :=
  self <- get ;;
  match labels self !! label with
  | Some _ => raise (Exception (duplicate_label label))
  | None =>
      pc <- out_tell ;;
      modify (fun self => set_labels (<[label := pc]> (labels self)) self)
  end.

Definition referenceLabel (sourceLine pc : Z) (label : string) : M unit :=
  modify (fun self =>
    set_labelReferences (labelReferences self ++ [(sourceLine, pc, label)]) self).

(** [if optimizedOp:] holds for a non-empty [bytes]. *)
Definition truthy (o : option (list Z)) : option (list Z) :=
  match o with
  | Some (_ :: _) => o
  | _ => None
  end.

Definition write_intc (constIndex : Z) : M unit :=
  match truthy (_intc_ops !! constIndex) with
  | Some optimizedOp => out_write optimizedOp
  | None =>
      if 0xff <? constIndex
      then raise (Exception cannot_have_more_than_256_int_constants)
      else if constIndex <? 0
      then raise (Exception invalid_negative_intc_const_index)
      else b <- call (bytes_of [0x21; constIndex]) ;; out_write b
  end.

(** [for i, v in enumerate(pool): if v == val: constIndex = i; break] *)
Definition first_index {A} `{EqDecision A} (val : A) (pool : list A) : option Z :=
  (fun p => Z.of_nat (fst p)) <$> list_find (fun v => v = val) pool.

Definition assemble_int (op : option OpSpec) (args : list string) : M unit :=
  match args with
  | [a0] =>
      val <- call (Py.int a0 0) ;;
      self <- get ;;
      constIndex <-
        match first_index val (intc self) with
        | Some i => ret i
        | None =>
            modify (fun self => set_intc (intc self ++ [val]) self) ;;
            ret (Z.of_nat (length (intc self)))
        end ;;
      write_intc constIndex
  | _ => raise (Exception int_expects_1_arg)
  end.

Definition assemble_intc (op : option OpSpec) (args : list string) : M unit :=
  match args with
  | [a0] => val <- call (Py.int a0 0) ;; write_intc val
  | _ => raise (Exception intc_expects_1_arg)
  end.

(** [write_intcblock(out, intc)], on the buffer [out] it is given. *)
Fixpoint write_varuints (out : list Z) (xs : list Z) : option (list Z) :=
  match xs with
  | [] => Some out
  | x :: xs' =>
      match to_varuint x with
      | Some b => write_varuints (out ++ b) xs'
      | None => None
      end
  end.

Definition write_intcblock (out : list Z) (intc : list Z) : option (list Z) :=
  match to_varuint (Z.of_nat (length intc)) with
  | Some n => write_varuints (out ++ [0x20] ++ n) intc
  | None => None
  end.

(** [[int(x, base=0) for x in args]] *)
Fixpoint ints_of (args : list string) : result (list Z) :=
  match args with
  | [] => Ok []
  | x :: args' =>
      rbind (Py.int x 0) (fun v => rbind (ints_of args') (fun vs => Ok (v :: vs)))
  end.

Definition assemble_intcblock (op : option OpSpec) (args : list string) : M unit :=
  intc <- call (ints_of args) ;;
  self <- get ;;
  out' <- call_loop (write_intcblock (out self) intc) ;;
  modify (set_out out') ;;
  modify (set_intcWritten true) ;;
  modify (set_intc intc).

Definition write_bytec (constIndex : Z) : M unit :=
  match truthy (_bytec_ops !! constIndex) with
  | Some optimizedOp => out_write optimizedOp
  | None =>
      if 0xff <? constIndex
      then raise (Exception cannot_have_more_than_256_byte_constants)
      else if constIndex <? 0
      then raise (Exception invalid_negative_bytec_const_index)
      else b <- call (bytes_of [0x27; constIndex]) ;; out_write b
  end.

Definition assemble_bytec (op : option OpSpec) (args : list string) : M unit :=
  match args with
  | [a0] => val <- call (Py.int a0 10) ;; write_bytec val
  | _ => raise (Exception bytec_expects_1_arg)
  end.

Definition bytestring (val : list Z) : M unit :=
  self <- get ;;
  constIndex <-
    match first_index val (bytec self) with
    | Some i => ret i
    | None =>
        modify (fun self => set_bytec (bytec self ++ [val]) self) ;;
        ret (Z.of_nat (length (bytec self)))
    end ;;
  write_bytec constIndex.

Definition assemble_addr (op : option OpSpec) (args : list string) : M unit :=
  match args with
  | [a0] => addr <- call (decode_address a0) ;; bytestring addr
  | _ => raise (Exception addr_expects_1_arg)
  end.

Definition assemble_byte (op : option OpSpec) (args : list string) : M unit :=
  if (length args <? 1)%nat
  then raise (Exception byte_expects_an_args)
  else
    p <- call (parseByteConstant args) ;;
    bytestring (fst p).

(** [write_bytecblock(out, bytec)] *)
Fixpoint write_byte_consts (out : list Z) (xs : list (list Z)) : option (list Z) :=
  match xs with
  | [] => Some out
  | x :: xs' =>
      match to_varuint (Z.of_nat (length x)) with
      | Some n => write_byte_consts (out ++ n ++ x) xs'
      | None => None
      end
  end.

Definition write_bytecblock (out : list Z) (bytec : list (list Z)) : option (list Z) :=
  match to_varuint (Z.of_nat (length bytec)) with
  | Some n => write_byte_consts (out ++ [0x26] ++ n) bytec
  | None => None
  end.

(** [while args: val, args = parseByteConstant(args); bytec.append(val)],
    one iteration per unit of fuel; [None] when the fuel is spent with
    arguments left. *)
Fixpoint parse_byte_constants (fuel : nat) (args : list string)
         (bytec : list (list Z)) : option (result (list (list Z))) :=
  match args with
  | [] => Some (Ok bytec)
  | _ :: _ =>
      match fuel with
      | O => None
      | S fuel' =>
          match parseByteConstant args with
          | Ok (val, args') => parse_byte_constants fuel' args' (bytec ++ [val])
          | Err e => Some (Err e)
          end
      end
  end.

Definition assemble_bytecblock (op : option OpSpec) (args : list string) : M unit :=
  r <- call_loop (parse_byte_constants (length args) args []) ;;
  bytec <- call r ;;
  self <- get ;;
  out' <- call_loop (write_bytecblock (out self) bytec) ;;
  modify (set_out out') ;;
  modify (set_bytecWritten true) ;;
  modify (set_bytec bytec).

(** [op['Name']], [op['Opcode']], [op['ArgEnum']] on the value of
    [opByName.get(...)]: [None] is not subscriptable, and a record may
    lack [ArgEnum]. *)
Definition op_Name (op : option OpSpec) : M string :=
  match op with Some o => ret (Name o) | None => raise TypeError end.
Definition op_Opcode (op : option OpSpec) : M Z :=
  match op with Some o => ret (Opcode o) | None => raise TypeError end.
Definition op_ArgEnum (op : option OpSpec) : M (list string) :=
  match op with
  | Some o =>
      match ArgEnum o with
      | Some l => ret l
      | None => raise (KeyError "ArgEnum")
      end
  | None => raise TypeError
  end.

Definition assemble_arg (op : option OpSpec) (args : list string) : M unit :=
  match args with
  | [a0] =>
      constIndex <- call (Py.int a0 10) ;;
      match truthy (_arg_ops !! constIndex) with
      | Some optimizedOp => out_write optimizedOp
      | None =>
          if 0xff <? constIndex
          then raise (Exception cannot_have_more_than_256_args)
          else if constIndex <? 0
          then raise (Exception invalid_negative_arg_index)
          else b <- call (bytes_of [0x2c; constIndex]) ;; out_write b
      end
  | _ => name <- op_Name op ;; raise (Exception (expects_1_arg_got name args))
  end.

(** The loop shared by [assemble_txn] and [assemble_global]. *)
Definition enum_arg (op : option OpSpec) (arg : string) : M unit :=
  enum <- op_ArgEnum op ;;
  match list_find (fun name => name = arg) enum with
  | Some (i, _) =>
      opcode <- op_Opcode op ;;
      b <- call (bytes_of [opcode; Z.of_nat i]) ;;
      out_write b
  | None => name <- op_Name op ;; raise (Exception (unknown_arg name arg))
  end.

Definition assemble_txn (op : option OpSpec) (args : list string) : M unit :=
  match args with
  | [a0] => enum_arg op a0
  | _ => name <- op_Name op ;; raise (Exception (expects_one_argument name))
  end.

Definition assemble_gtxn (op : option OpSpec) (args : list string) : M unit :=
  match args with
  | [a0; a1] =>
      gtid <- call (Py.int a0 10) ;;
      enum <- op_ArgEnum op ;;
      match list_find (fun name => name = a1) enum with
      | Some (i, _) =>
          opcode <- op_Opcode op ;;
          b <- call (bytes_of [opcode; gtid; Z.of_nat i]) ;;
          out_write b
      | None => name <- op_Name op ;; raise (Exception (unknown_arg name a1))
      end
  | _ => name <- op_Name op ;; raise (Exception (expects_two_arguments name))
  end.

Definition assemble_global (op : option OpSpec) (args : list string) : M unit :=
  match args with
  | [a0] => enum_arg op a0
  | _ => name <- op_Name op ;; raise (Exception (expects_one_argument name))
  end.

Definition assemble_bnz (op : option OpSpec) (args : list string) : M unit :=
  self <- get ;;
  pc <- out_tell ;;
  match args with
  | label :: _ =>
      referenceLabel (sourceLine self) pc label ;;
      out_write [0x40; 0x00; 0x00]
  | [] => raise IndexError
  end.

Definition _load_store (op : option OpSpec) (args : list string) : M unit :=
  match args with
  | [a0] =>
      arg <- call (Py.int a0 10) ;;
      opcode <- op_Opcode op ;;
      b <- call (bytes_of [opcode; arg]) ;;
      out_write b
  | _ => name <- op_Name op ;; raise (Exception (expects_1_arg_got name args))
  end.

Definition assemble_load := _load_store.
Definition assemble_store := _load_store.

(** [getattr(self, 'assemble_' + name, None)] *)
Definition handler (name : string)
  : option (option OpSpec -> list string -> M unit) :=
  if String.eqb name "int" then Some assemble_int
  else if String.eqb name "intc" then Some assemble_intc
  else if String.eqb name "intcblock" then Some assemble_intcblock
  else if String.eqb name "bytec" then Some assemble_bytec
  else if String.eqb name "addr" then Some assemble_addr
  else if String.eqb name "byte" then Some assemble_byte
  else if String.eqb name "bytecblock" then Some assemble_bytecblock
  else if String.eqb name "arg" then Some assemble_arg
  else if String.eqb name "txn" then Some assemble_txn
  else if String.eqb name "gtxn" then Some assemble_gtxn
  else if String.eqb name "global" then Some assemble_global
  else if String.eqb name "bnz" then Some assemble_bnz
  else if String.eqb name "load" then Some assemble_load
  else if String.eqb name "store" then Some assemble_store
  else None.

(** The tokens of a line once the [//] comment is cut: [parts] after
    [if newparts: parts = newparts]. *)
Definition cut_comment (parts : list string) : list string :=
  match list_find (fun p => Py.startswith p "//" = true) parts with
  | Some (i, _) =>
      match take i parts with
      | [] => parts
      | newparts => newparts
      end
  | None => parts
  end.

(** The dispatch at the end of [assembleLine], on the tokens of the line.
    The [logging.debug] call changes nothing and is left out. *)
Definition assembleParts (parts : list string) : M unit :=
  match parts with
  | [] => raise IndexError
  | p0 :: args =>
      self <- get ;;
      let op := opByName self !! p0 in
      match handler p0 with
      | Some fn => fn op args
      | None =>
          match op with
          | Some o => b <- call (bytes_of [Opcode o]) ;; out_write b
          | None =>
              if Py.endswith p0 ":"
              then setLabel (Py.slice_to (String.length p0 - 1) p0)
              else raise (Exception (unknown_opcode p0))
          end
      end
  end.

Definition assembleLine (rawline : string) : M unit :=
  if String.eqb rawline "" then ret tt
  else
    let line := Py.strip rawline in
    if String.eqb line "" then ret tt
    else if Py.startswith line "//" then ret tt
    else
      match Py.split line with
      | [] => raise (Exception (could_not_parse_line rawline))
      | parts => assembleParts (cut_comment parts)
      end.

(** [for x in l: body(x)] *)
Fixpoint for_each {A} (body : A -> M unit) (l : list A) : M unit :=
  match l with
  | [] => ret tt
  | x :: l' => body x ;; for_each body l'
  end.

(** One turn of the loop of [assembleLineSource]. *)
Definition next_line (line : string) : M unit :=
  modify (fun self => set_sourceLine (sourceLine self + 1) self) ;;
  assembleLine line.

Definition assembleLineSource (lines : list string) : M unit :=
  for_each next_line lines.

(** [program[i] = v] on the [memoryview] of the output buffer. *)
Definition setitem (program : list Z) (i v : Z) : result (list Z) :=
  let n := Z.of_nat (length program) in
  let i := if i <? 0 then i + n else i in
  if (i <? 0) || (n <=? i) then Err IndexError
  else if (v <? 0) || (255 <? v) then Err (ValueError byte_must_be_in_range_256)
  else Ok (<[Z.to_nat i := v]> program).

(** The body of the loop of [resolveLabels]; [program] is a view of
    [self.out], so a patch is a write to [self.out]. *)
Definition resolve_reference (ref : Z * Z * string) : M unit :=
  let '(sourceLine, pc, label) := ref in
  self <- get ;;
  match labels self !! label with
  | None => raise (Exception (reference_to_undefined_label sourceLine label))
  | Some dest =>
      let nextPc := pc + 3 in
      if dest <? nextPc
      then raise (Exception (label_is_before_reference sourceLine label))
      else
        let jump := dest - nextPc in
        if 0x7fff <? jump
        then raise (Exception (label_is_too_far_away sourceLine label))
        else
          p <- call (setitem (out self) (pc + 1) (Z.shiftr jump 8)) ;;
          modify (set_out p) ;;
          p <- call (setitem p (pc + 2) (Z.land jump 0x0ff)) ;;
          modify (set_out p)
  end.

Definition resolveLabels : M (list Z) :=
  self <- get ;;
  match labelReferences self with
  | [] => ret (out self)
  | refs =>
      for_each resolve_reference refs ;;
      self <- get ;;
      ret (out self)
  end.

Definition nonempty {A} (l : list A) : bool :=
  match l with [] => false | _ => true end.

Definition getBytes : M (list Z) :=
  self <- get ;;
  prefix <- call_loop (to_varuint (version self)) ;;
  prefix <-
    (if nonempty (intc self) && negb (intcWritten self)
     then p <- call_loop (write_intcblock prefix (intc self)) ;;
          modify (set_intcWritten true) ;;
          ret p
     else ret prefix) ;;
  prefix <-
    (if nonempty (bytec self) && negb (bytecWritten self)
     then p <- call_loop (write_bytecblock prefix (bytec self)) ;;
          modify (set_bytecWritten true) ;;
          ret p
     else ret prefix) ;;
  program <- resolveLabels ;;
  ret (prefix ++ program).

(** What the caller of a function sees: its value, its exception, or
    nothing at all. *)
Inductive observed (A : Type) : Type :=
| Value (a : A)
| Throws (e : error)
| Never.
Arguments Value {A} a.
Arguments Throws {A} e.
Arguments Never {A}.

Definition observe {A} (o : outcome A) : observed A :=
  match o with
  | Returns a _ => Value a
  | Raises e _ => Throws e
  | Hangs => Never
  end.

(** An assembly job on a session [a]: [a.assembleLineSource(...)] then
    [a.getBytes()]. *)
Definition assemble_with (a : Assembler) (text : string) : outcome (list Z) :=
  (assembleLineSource (Py.splitlines text) ;; getBytes) a.

(** [AssembleString(text)], for the [Ops] list of [langspec.json]. *)
Definition AssembleString (ops : list OpSpec) (text : string) : observed (list Z) :=
  observe (assemble_with (Assembler_init ops "" 1) text).

End Assembler.

Arguments Value {A} a.
Arguments Throws {A} e.
Arguments Never {A}.

(** A small opcode table in the shape of the [Ops] list of
    [langspec.json], for the examples. *)
Definition sample_ops : list OpSpec :=
  [ mkOp "err" 0x00 None;
    mkOp "sha256" 0x01 None;
    mkOp "+" 0x08 None;
    mkOp "==" 0x12 None;
    mkOp "intcblock" 0x20 None;
    mkOp "intc" 0x21 None;
    mkOp "bytecblock" 0x26 None;
    mkOp "bytec" 0x27 None;
    mkOp "arg" 0x2c None;
    mkOp "txn" 0x31 (Some ["Sender"; "Fee"; "FirstValid"; "LastValid"; "Note"]);
    mkOp "global" 0x32 (Some ["MinTxnFee"; "MinBalance"; "MaxTxnLife"; "ZeroAddress"; "GroupSize"]);
    mkOp "gtxn" 0x33 (Some ["Sender"; "Fee"; "FirstValid"; "LastValid"; "Note"]);
    mkOp "load" 0x34 None;
    mkOp "store" 0x35 None;
    mkOp "bnz" 0x40 None;
    mkOp "pop" 0x48 None;
    mkOp "dup" 0x49 None ].

(** A stand-in for the address decoder in the examples: it rejects all. *)
Definition no_address (s : string) : result (list Z) := Err AddressError.

Definition LF : string := String (ascii_of_nat 10) "".

(** ** The vocabulary of the specification *)

(** The error kinds of the specification (its section 7). [tealc.py] raises
    plain [Exception]s, so the kind is read off the message. What Python
    raises by itself where [tealc.py] makes no check ([IndexError],
    [TypeError], [KeyError], a byte out of range) has no kind. *)
Inductive error_kind : Type :=
| SyntaxError
| ParseError
| DuplicateLabel
| UndefinedLabel
| BackwardJumpNotAllowed
| JumpTooFar
| ConstantPoolOverflow.

Definition kind_of (e : error) : option error_kind :=
  match e with
  | Exception msg =>
      Some match msg with
           | could_not_parse_byte_constant_args _ => ParseError
           | duplicate_label _ => DuplicateLabel
           | cannot_have_more_than_256_int_constants
           | invalid_negative_intc_const_index
           | cannot_have_more_than_256_byte_constants
           | invalid_negative_bytec_const_index
           | cannot_have_more_than_256_args
           | invalid_negative_arg_index => ConstantPoolOverflow
           | reference_to_undefined_label _ _ => UndefinedLabel
           | label_is_before_reference _ _ => BackwardJumpNotAllowed
           | label_is_too_far_away _ _ => JumpTooFar
           | _ => SyntaxError
           end
  | ValueError byte_must_be_in_range_256 => None
  | ValueError _ => Some ParseError
  | AddressError => Some ParseError
  | IndexError | TypeError | KeyError _ => None
  end.

(** The test data of the repository ([testdata/assemble_bytes_test.py]):
    [byteConstantVariations], here split by the base-32 padding, and
    [hexresult] decoded. *)
Definition unpadded_b32_variations : list string :=
  [ "byte b32 MFRGGZDFMY";
    "byte base32 MFRGGZDFMY";
    "byte base32(MFRGGZDFMY)";
    "byte b32(MFRGGZDFMY)" ].

Definition other_variations : list string :=
  [ "byte b32 MFRGGZDFMY======";
    "byte base32 MFRGGZDFMY======";
    "byte base32(MFRGGZDFMY======)";
    "byte b32(MFRGGZDFMY======)";
    "byte b64 YWJjZGVm";
    "byte base64 YWJjZGVm";
    "byte b64(YWJjZGVm)";
    "byte base64(YWJjZGVm)";
    "byte 0x616263646566" ].

Definition byteConstantVariations : list string :=
  unpadded_b32_variations ++ other_variations.

Definition hexresult : list Z :=
  [0x01; 0x26; 0x01; 0x06; 0x61; 0x62; 0x63; 0x64; 0x65; 0x66; 0x28].

(** ** Outcomes and what a method preserves *)

(** [post Q o]: the object left by [o], on return or on raise, satisfies
    [Q]. *)
Definition post {A} (Q : Assembler -> Prop) (o : outcome A) : Prop :=
  match o with
  | Returns _ a' => Q a'
  | Raises _ a' => Q a'
  | Hangs => True
  end.

(** What no handler of the line pass touches or undoes: the version, the
    line counter, the opcode table; the output only grows. *)
Record frame (a a' : Assembler) : Prop := mkFrame {
  frame_version : version a' = version a;
  frame_sourceLine : sourceLine a' = sourceLine a;
  frame_opByName : opByName a' = opByName a;
  frame_out : exists suffix, out a' = out a ++ suffix
}.

(** The same outcome with the object changed by [f]. *)
Definition map_state {A} (f : Assembler -> Assembler) (o : outcome A) : outcome A :=
  match o with
  | Returns x a => Returns x (f a)
  | Raises e a => Raises e (f a)
  | Hangs => Hangs
  end.

(** The session [a] under another source name. *)
Definition with_sourceName (name : string) (a : Assembler) : Assembler :=
  mkAssembler (out a) (intc a) (intcWritten a) (bytec a) (bytecWritten a)
    name (sourceLine a) (labels a) (labelReferences a) (opByName a) (version a).

(** ** [getBytes] in the words of the specification *)

(** A constant block is part of the binary only under its condition: the
    pool has entries and has not been block-emitted. *)
Definition block_if (cond : bool) (block : option (list Z)) : option (list Z) :=
  if cond then block else Some [].

Definition int_block_due (a : Assembler) : bool :=
  nonempty (intc a) && negb (intcWritten a).
Definition byte_block_due (a : Assembler) : bool :=
  nonempty (bytec a) && negb (bytecWritten a).

(** [getBytes] sets the written flag of each block it emits. *)
Definition mark_written (int_block byte_block : bool) (a : Assembler) : Assembler :=
  let a1 := if int_block then set_intcWritten true a else a in
  if byte_block then set_bytecWritten true a1 else a1.

(** The source of the integer scenario: three lines, each ended by a line
    feed. *)
Definition int_5_5_7 : string :=
  "int 5" +:+ LF +:+ "int 5" +:+ LF +:+ "int 7" +:+ LF.

(** ** The constant pools *)

(** No two entries of a pool are equal. *)
Definition pools_distinct (a : Assembler) : Prop :=
  NoDup (intc a) /\ NoDup (bytec a).

(** "After any sequence of assembler operations each pool contains no two
    equal entries", for the sessions [AssembleString] builds. *)
Definition pools_always_distinct (decode_address : string -> result (list Z))
           (ops : list OpSpec) : Prop :=
  forall (text : string) (a : Assembler),
    assembleLineSource decode_address (Py.splitlines text)
                       (Assembler_init ops "" 1) = Returns tt a ->
    pools_distinct a.

(** The tokens [assembleLine] dispatches on; none for a line it skips. *)
Definition line_parts (rawline : string) : list string :=
  if String.eqb rawline "" then []
  else
    let line := Py.strip rawline in
    if String.eqb line "" then []
    else if Py.startswith line "//" then []
    else cut_comment (Py.split line).

(** The values an [intcblock] or [bytecblock] instruction lists are
    pairwise distinct (any other instruction passes). *)
Definition parts_values_distinct (parts : list string) : bool :=
  match parts with
  | p0 :: args =>
      if String.eqb p0 "intcblock" then
        match ints_of args with
        | Ok vals => bool_decide (NoDup vals)
        | Err _ => true
        end
      else if String.eqb p0 "bytecblock" then
        match parse_byte_constants (length args) args [] with
        | Some (Ok vals) => bool_decide (NoDup vals)
        | _ => true
        end
      else true
  | [] => true
  end.

Definition block_values_distinct (rawline : string) : bool :=
  parts_values_distinct (line_parts rawline).


(** The reference [write_intc] emits for an index from 0 to 255. *)
Definition intc_ref (index : Z) : list Z :=
  if index <=? 3 then [0x22 + index] else [0x21; index].

(** ** Label references *)

(** A recorded reference [(sourceLine, pc, label)] lies in the output: the
    three bytes of the branch at [pc] have been written. *)
Definition reference_in_range (a : Assembler) (ref : Z * Z * string) : Prop :=
  0 <= snd (fst ref) /\ snd (fst ref) + 3 <= Z.of_nat (length (out a)).

Definition references_in_range (a : Assembler) : Prop :=
  Forall (reference_in_range a) (labelReferences a).

(** The session with the two offset bytes of the branch at [pc] set. *)
Definition patched (pc hi lo : Z) (a : Assembler) : Assembler :=
  set_out (<[Z.to_nat (pc + 2) := lo]> (<[Z.to_nat (pc + 1) := hi]> (out a))) a.

(** ** Line numbers and errors *)

(** "The number of the offending line is attached to the surfaced error":
    the line number can be read off the error that a failing line pass
    raises, whatever the source. ([sourceLine] of the session left by the
    failure is that number: the loop counts every line it takes.) *)
Definition line_number_attached (decode_address : string -> result (list Z))
           (ops : list OpSpec) : Prop :=
  exists line_of : error -> Z,
    forall (text : string) (e : error) (a' : Assembler),
      assembleLineSource decode_address (Py.splitlines text)
                         (Assembler_init ops "" 1) = Raises e a' ->
      line_of e = sourceLine a'.

(** ** The varuint format *)

(** The integer a byte sequence stands for as a varuint: seven bits per
    byte, least significant group first. *)
Fixpoint varuint_value (bs : list Z) : Z :=
  match bs with
  | [] => 0
  | b :: bs' => Z.land b 0x7f + 128 * varuint_value bs'
  end.

(** The shape of one varuint: the continuation bit is set on every byte but
    the last, where it is clear; a last byte that is not the only one is not
    zero. *)
Fixpoint varuint_tail (bs : list Z) : Prop :=
  match bs with
  | [] => False
  | [b] => 1 <= b < 128
  | b :: bs' => 128 <= b < 256 /\ varuint_tail bs'
  end.

Definition varuint_shape (bs : list Z) : Prop :=
  match bs with
  | [] => False
  | [b] => 0 <= b < 128
  | b :: bs' => 128 <= b < 256 /\ varuint_tail bs'
  end.

(** ** Instructions that never return *)

(** The tokens of an [intcblock] instruction, well-formed, that lists a
    negative value. *)
Definition negative_intcblock (parts : list string) : Prop :=
  exists args vals,
    parts = "intcblock" :: args
    /\ ints_of args = Ok vals
    /\ Exists (fun x => x < 0) vals.

(** ** What a session accumulates *)

(** From [a] to [a']: the output is extended, labels and references are
    added, no label changes its offset, no written flag is cleared, and the
    version and the opcode table stay. *)
Record grows (a a' : Assembler) : Prop := mkGrows {
  grows_out : exists suffix, out a' = out a ++ suffix;
  grows_labels : labels a ⊆ labels a';
  grows_references : exists more, labelReferences a' = labelReferences a ++ more;
  grows_intcWritten : intcWritten a = true -> intcWritten a' = true;
  grows_bytecWritten : bytecWritten a = true -> bytecWritten a' = true;
  grows_version : version a' = version a;
  grows_opByName : opByName a' = opByName a
}.

(** Every label offset is a position of the output, its end included. *)
Definition labels_in_range (a : Assembler) : Prop :=
  map_Forall (fun _ offset => 0 <= offset <= Z.of_nat (length (out a))) (labels a).

(** Two references whose branches do not overlap, the first before the
    second. *)
Definition spaced (r1 r2 : Z * Z * string) : Prop :=
  snd (fst r1) + 3 <= snd (fst r2).

(** The labels and references of a session fit its output: label offsets
    are positions of the output, each reference is at a [0x40] opcode byte
    with its two offset bytes written, and the references are in the order
    of their positions, three bytes apart at least. *)
Record session_wf (a : Assembler) : Prop := mkWf {
  wf_labels : labels_in_range a;
  wf_references : references_in_range a;
  wf_spaced : StronglySorted spaced (labelReferences a);
  wf_branch :
    Forall (fun ref => out a !! Z.to_nat (snd (fst ref)) = Some 0x40)
           (labelReferences a)
}.

(** A reference that [resolveLabels] can resolve: its label is defined, at
    or after the end of the branch, and no further than [0x7fff] from it. *)
Definition resolvable (a : Assembler) (ref : Z * Z * string) : Prop :=
  exists dest,
    labels a !! snd ref = Some dest
    /\ snd (fst ref) + 3 <= dest
    /\ dest - (snd (fst ref) + 3) <= 0x7fff.

(** The error [resolveLabels] raises for a reference it cannot resolve. *)
Definition resolve_error (a : Assembler) (ref : Z * Z * string) (e : error) : Prop :=
  let '(sourceLine, pc, label) := ref in
  match labels a !! label with
  | None => e = Exception (reference_to_undefined_label sourceLine label)
  | Some dest =>
      (dest < pc + 3 /\ e = Exception (label_is_before_reference sourceLine label))
      \/ (pc + 3 <= dest /\ 0x7fff < dest - (pc + 3)
          /\ e = Exception (label_is_too_far_away sourceLine label))
  end.

(** ** Hexadecimal text *)

(** The digit of a value below 16, in upper or in lower case. *)
Definition hex_digit (upper : bool) (n : Z) : ascii :=
  ascii_of_N (Z.to_N (if n <? 10 then 48 + n
                      else if upper then 55 + n else 87 + n)).

(** Bytes written in hexadecimal, two digits a byte. *)
Definition hex_chars (upper : bool) (bs : list Z) : list ascii :=
  concat (map (fun b => [hex_digit upper (b / 16); hex_digit upper (b mod 16)]) bs).

Definition hex_text (upper : bool) (bs : list Z) : string :=
  Py.str (hex_chars upper bs).

(** ** The lines behind the references *)

(** A reference recorded with line number [n] comes from line [n] of
    [lines], counted from 1, and that line is a [bnz] naming its label. *)
Definition reference_from_line (lines : list string) (ref : Z * Z * string) : Prop :=
  1 <= fst (fst ref)
  /\ exists line rest,
       lines !! Z.to_nat (fst (fst ref) - 1) = Some line
       /\ line_parts line = "bnz" :: snd ref :: rest.

(** ** Lines that install a pool *)

(** The line is an instruction [block ...]; [block] is [intcblock] or
    [bytecblock], the two instructions that replace a pool. *)
Definition is_block_line (block : string) (rawline : string) : bool :=
  match line_parts rawline with
  | p0 :: _ => String.eqb p0 block
  | [] => false
  end.

Definition no_block_line (block : string) (lines : list string) : Prop :=
  Forall (fun line => is_block_line block line = false) lines.

(** The reference [write_bytec] emits for an index from 0 to 255. *)
Definition bytec_ref (index : Z) : list Z :=
  if index <=? 3 then [0x28 + index] else [0x27; index].

(** From [a] to [a']: the integer pool has kept its entries at their
    indices, new ones coming after them, and its written flag is as it
    was. *)
Record int_pool_kept (a a' : Assembler) : Prop := mkIntKept {
  kept_intcWritten : intcWritten a' = intcWritten a;
  kept_intc : exists more, intc a' = intc a ++ more
}.

(** The same for the byte pool. *)
Record byte_pool_kept (a a' : Assembler) : Prop := mkByteKept {
  kept_bytecWritten : bytecWritten a' = bytecWritten a;
  kept_bytec : exists more, bytec a' = bytec a ++ more
}.

(** ** The entries of a constant block *)

(** The bytes that stand for one value in an integer block, and in a byte
    block (the length, then the bytes). *)
Definition int_entry (x : Z) (entry : list Z) : Prop :=
  to_varuint x = Some entry.

Definition byte_entry (x : list Z) (entry : list Z) : Prop :=
  exists n, to_varuint (Z.of_nat (length x)) = Some n /\ entry = n ++ x.

(** [block] is the constant block of [pool]: the tag, the number of
    values, and one entry for each value, in the order of the pool, no two
    entries being equal. *)
Definition lists_once {A} (tag : Z) (entry : A -> list Z -> Prop)
           (pool : list A) (block : list Z) : Prop :=
  exists count entries,
    to_varuint (Z.of_nat (length pool)) = Some count
    /\ Forall2 entry pool entries
    /\ NoDup entries
    /\ block = [tag] ++ count ++ concat entries.

(** ** Where later references lie *)


(** * Properties *)

(** ** The primitives and the assembler on small inputs *)

Example int_dec : Py.int "5" 0 = Ok 5. Proof. reflexivity. Qed.
Example int_hex : Py.int "-0x_1f" 0 = Ok (-31). Proof. reflexivity. Qed.
Example int_oct_old : Py.int "010" 0 = Err (ValueError (invalid_literal_for_int 0 "010")).
Proof. reflexivity. Qed.
Example int_zeros : Py.int "0_0" 0 = Ok 0. Proof. reflexivity. Qed.
Example int_base10 : Py.int "010" 10 = Ok 10. Proof. reflexivity. Qed.
Example int_us : Py.int "1__0" 0 = Err (ValueError (invalid_literal_for_int 0 "1__0")).
Proof. reflexivity. Qed.
Example split_ex : Py.split "  int   5 // c " = ["int"; "5"; "//"; "c"].
Proof. reflexivity. Qed.
Example splitlines_ex :
  Py.splitlines (String "a" (String (ascii_of_nat 13) (String (ascii_of_nat 10)
                 (String (ascii_of_nat 10) "b")))) = ["a"; ""; "b"].
Proof. reflexivity. Qed.
Example b16_abcdef : Base64.b16decode "616263646566" = Ok [97; 98; 99; 100; 101; 102].
Proof. reflexivity. Qed.
Example b32_padded : Base64.b32decode "MFRGGZDFMY======" = Ok [97; 98; 99; 100; 101; 102].
Proof. reflexivity. Qed.
Example b32_unpadded : Base64.b32decode "MFRGGZDFMY" = Err (ValueError Incorrect_padding).
Proof. reflexivity. Qed.
Example b32_abcde : Base64.b32decode "MFRGGZDF" = Ok [97; 98; 99; 100; 101].
Proof. reflexivity. Qed.
Example b32_a : Base64.b32decode "ME======" = Ok [97].
Proof. reflexivity. Qed.
Example b64_abcdef : Base64.b64decode "YWJjZGVm" = Ok [97; 98; 99; 100; 101; 102].
Proof. reflexivity. Qed.
Example b64_a : Base64.b64decode "YQ==" = Ok [97].
Proof. reflexivity. Qed.
Example b64_short : Base64.b64decode "YQ" = Err (ValueError Incorrect_padding).
Proof. reflexivity. Qed.
Example ex_int557 :
  AssembleString no_address sample_ops ("int 5" +:+ LF +:+ "int 5" +:+ LF +:+ "int 7" +:+ LF)
  = Value [1; 0x20; 2; 5; 7; 0x22; 0x22; 0x23].
Proof. vm_compute. reflexivity. Qed.
Example ex_byte_hex :
  AssembleString no_address sample_ops "byte 0x616263646566"
  = Value [0x01; 0x26; 0x01; 0x06; 0x61; 0x62; 0x63; 0x64; 0x65; 0x66; 0x28].
Proof. vm_compute. reflexivity. Qed.
Example ex_byte_b32 :
  AssembleString no_address sample_ops "byte b32 MFRGGZDFMY"
  = Throws (ValueError Incorrect_padding).
Proof. vm_compute. reflexivity. Qed.
Example ex_bnz :
  AssembleString no_address sample_ops
    ("bnz done" +:+ LF +:+ "pop" +:+ LF +:+ "dup" +:+ LF +:+ "done:" +:+ LF +:+ "err")
  = Value [1; 0x40; 0; 2; 0x48; 0x49; 0].
Proof. vm_compute. reflexivity. Qed.


(** ** The varuint loop *)

Lemma to_varuint_loop_negative (fuel : nat) (x : Z) (out : list Z) :
  x < 0 -> to_varuint_loop fuel x out = None.
Proof.
  revert x out. induction fuel as [|fuel IH]; intros x out Hx; [reflexivity|].
  cbn [to_varuint_loop].
  assert (Hs : Z.shiftr x 7 < 0) by (apply Z.shiftr_neg; exact Hx).
  destruct (Z.eqb_spec (Z.shiftr x 7) 0) as [E|_]; [lia|].
  apply IH. exact Hs.
Qed.

Lemma to_varuint_loop_returns (fuel : nat) (x : Z) (out : list Z) :
  0 <= x -> x < 2 ^ (7 * Z.of_nat (S fuel)) ->
  is_Some (to_varuint_loop (S fuel) x out).
Proof.
  revert x out. induction fuel as [|fuel IH]; intros x out Hx Hlt.
  - cbn [to_varuint_loop].
    assert (E : Z.shiftr x 7 = 0).
    { rewrite Z.shiftr_div_pow2 by lia. apply Z.div_small. cbn in Hlt. lia. }
    rewrite E. cbn. eexists; reflexivity.
  - remember (S fuel) as f eqn:Ef. cbn [to_varuint_loop].
    destruct (Z.eqb_spec (Z.shiftr x 7) 0) as [E|NE]; [eexists; reflexivity|].
    subst f. apply IH.
    + apply Z.shiftr_nonneg. exact Hx.
    + rewrite Z.shiftr_div_pow2 by lia.
      apply Z.div_lt_upper_bound; [lia|].
      rewrite <- Z.pow_add_r by lia.
      replace (7 + 7 * Z.of_nat (S fuel)) with (7 * Z.of_nat (S (S fuel))) by lia.
      exact Hlt.
Qed.

(** [to_varuint] returns on every non-negative integer... *)
Lemma to_varuint_returns (x : Z) : 0 <= x -> is_Some (to_varuint x).
Proof.
  intros Hx. unfold to_varuint. apply to_varuint_loop_returns; [exact Hx|].
  destruct (Z.eq_dec x 0) as [->|NZ]; [cbn; lia|].
  assert (Hl := Z.log2_spec x ltac:(lia)).
  assert (0 <= Z.log2 x) by apply Z.log2_nonneg.
  eapply Z.lt_le_trans; [apply Hl|].
  apply Z.pow_le_mono_r; lia.
Qed.

(** ... and on no negative one. *)
Lemma to_varuint_negative (x : Z) : x < 0 -> to_varuint x = None.
Proof. intros Hx. apply to_varuint_loop_negative. exact Hx. Qed.

(** ** The byte-constant test data *)

Section ByteConstants.

Variable decode_address : string -> result (list Z).
Variable ops : list OpSpec.

(** C1. On the variations of the repository's test data, [AssembleString]
    gives the expected [0126010661626364656628] for the hexadecimal, the
    base-64 and the padded base-32 forms, and fails with [Incorrect padding]
    on each of the four base-32 forms written without [=]: the padding is
    not optional in the code, although the test expects it to be. *)
Theorem byteConstantVariations_results :
  Forall (fun text => AssembleString decode_address ops text = Value hexresult)
         other_variations
  /\ Forall (fun text => AssembleString decode_address ops text
                         = Throws (ValueError Incorrect_padding))
            unpadded_b32_variations.
Proof.
  split; repeat constructor; vm_compute; reflexivity.
Qed.

End ByteConstants.

(** ** What the line pass preserves *)

Lemma frame_refl a : frame a a.
Proof. split; try reflexivity. exists []. symmetry. apply app_nil_r. Qed.

Lemma frame_trans a b c : frame a b -> frame b c -> frame a c.
Proof.
  intros [V1 L1 O1 [s1 E1]] [V2 L2 O2 [s2 E2]].
  split; try congruence.
  exists (s1 ++ s2). rewrite E2, E1. symmetry. apply app_assoc.
Qed.

Lemma write_varuints_app (out : list Z) (xs : list Z) (out' : list Z) :
  write_varuints out xs = Some out' -> exists suffix, out' = out ++ suffix.
Proof.
  revert out. induction xs as [|x xs IH]; intros out H; cbn [write_varuints] in H.
  - simplify_eq. exists []. symmetry. apply app_nil_r.
  - destruct (to_varuint x) as [b|]; [|discriminate].
    apply IH in H as [s ->]. exists (b ++ s). symmetry. apply app_assoc.
Qed.

Lemma write_intcblock_app (out : list Z) (xs : list Z) (out' : list Z) :
  write_intcblock out xs = Some out' -> exists suffix, out' = out ++ suffix.
Proof.
  unfold write_intcblock. destruct (to_varuint _) as [n|]; [|discriminate].
  intros H. apply write_varuints_app in H as [s ->].
  exists (([0x20] ++ n) ++ s). symmetry. apply app_assoc.
Qed.

Lemma write_byte_consts_app (out : list Z) (xs : list (list Z)) (out' : list Z) :
  write_byte_consts out xs = Some out' -> exists suffix, out' = out ++ suffix.
Proof.
  revert out. induction xs as [|x xs IH]; intros out H; cbn [write_byte_consts] in H.
  - simplify_eq. exists []. symmetry. apply app_nil_r.
  - destruct (to_varuint _) as [b|]; [|discriminate].
    apply IH in H as [s ->]. exists ((b ++ x) ++ s). symmetry. apply app_assoc.
Qed.

Lemma write_bytecblock_app (out : list Z) (xs : list (list Z)) (out' : list Z) :
  write_bytecblock out xs = Some out' -> exists suffix, out' = out ++ suffix.
Proof.
  unfold write_bytecblock. destruct (to_varuint _) as [n|]; [|discriminate].
  intros H. apply write_byte_consts_app in H as [s ->].
  exists (([0x26] ++ n) ++ s). symmetry. apply app_assoc.
Qed.

Ltac unfold_monad :=
  unfold call, call_loop, out_write, out_tell in *;
  unfold bind, ret, raise, get, modify in *.

Ltac unfold_handlers :=
  unfold assemble_load, assemble_store, _load_store, assemble_bnz,
    assemble_global, assemble_gtxn, assemble_txn, enum_arg, assemble_arg,
    assemble_bytecblock, assemble_byte, assemble_addr, bytestring,
    assemble_bytec, write_bytec, assemble_intcblock, assemble_intc,
    assemble_int, write_intc, referenceLabel, setLabel,
    op_Name, op_Opcode, op_ArgEnum in *.

(** Case analysis on an innermost [match] of the goal. *)
Ltac destruct_inner :=
  match goal with
  | |- context [match ?x with _ => _ end] =>
      lazymatch x with
      | context [match _ with _ => _ end] => fail
      | _ => destruct x eqn:?
      end
  end.

Ltac run_method :=
  unfold_handlers; unfold_monad; cbv beta;
  repeat (destruct_inner; simplify_eq; cbn beta iota).

Ltac frame_done :=
  first
    [ apply frame_refl
    | split; cbn; try reflexivity; eexists; reflexivity
    | split; cbn; try reflexivity; exists []; symmetry; apply app_nil_r
    | split; cbn; try reflexivity;
      match goal with
      | H : write_intcblock _ _ = Some _ |- _ => apply write_intcblock_app in H; exact H
      | H : write_bytecblock _ _ = Some _ |- _ => apply write_bytecblock_app in H; exact H
      end ].

Section Frames.

Variable decode_address : string -> result (list Z).

Lemma handler_frame name fn op args a :
  handler decode_address name = Some fn -> post (frame a) (fn op args a).
Proof.
  unfold handler. intros H.
  repeat case_match; simplify_eq; unfold post; run_method; try exact I; frame_done.
Qed.


Lemma assembleParts_frame parts a :
  post (frame a) (assembleParts decode_address parts a).
Proof.
  unfold assembleParts. destruct parts as [|p0 args].
  - apply frame_refl.
  - unfold bind at 1, get.
    destruct (handler decode_address p0) as [fn|] eqn:Hfn.
    + eapply handler_frame; exact Hfn.
    + unfold post. run_method; try exact I; frame_done.
Qed.

Lemma assembleLine_frame rawline a :
  post (frame a) (assembleLine decode_address rawline a).
Proof.
  unfold assembleLine.
  repeat (destruct_inner; try apply frame_refl).
  apply assembleParts_frame.
Qed.

(** [for_each] stops at the first element whose body raises. *)
Lemma for_each_app {A} (body : A -> M unit) (l1 l2 : list A) (a : Assembler) :
  for_each body (l1 ++ l2) a = (for_each body l1 ;; for_each body l2) a.
Proof.
  revert a. induction l1 as [|x l1 IH]; intros a; [reflexivity|].
  cbn [for_each app]. unfold bind.
  destruct (body x a) as [[] a1|e a1|]; try reflexivity.
  rewrite IH. reflexivity.
Qed.

Lemma for_each_raises {A} (body : A -> M unit) (l : list A) (a a' : Assembler) e :
  for_each body l a = Raises e a' ->
  exists pre x post a1,
    l = pre ++ x :: post
    /\ for_each body pre a = Returns tt a1
    /\ body x a1 = Raises e a'.
Proof.
  revert a. induction l as [|x l IH]; intros a H; [discriminate|].
  cbn [for_each] in H. unfold bind in H.
  destruct (body x a) as [[] a1|e1 a1|] eqn:Hx; [|simplify_eq|discriminate].
  - apply IH in H as (pre & y & post & a2 & -> & Hpre & Hy).
    exists (x :: pre), y, post, a2. split; [reflexivity|]. split; [|exact Hy].
    cbn [for_each]. unfold bind. rewrite Hx. exact Hpre.
  - exists [], x, l, a. split; [reflexivity|]. split; [reflexivity|exact Hx].
Qed.

(** What the line pass keeps: the version and the opcode table; the line
    counter counts the lines taken and the output only grows. *)
Lemma next_line_frame line a :
  post (fun a' => version a' = version a
                  /\ sourceLine a' = sourceLine a + 1
                  /\ opByName a' = opByName a)
       (next_line decode_address line a).
Proof.
  unfold next_line, bind, modify.
  pose proof (assembleLine_frame line (set_sourceLine (sourceLine a + 1) a)) as H.
  destruct (assembleLine _ _ _) as [[] a1|e a1|]; cbn in *; [| |exact I];
    destruct H as [V L O _]; cbn in *; auto.
Qed.

Lemma assembleLineSource_returns lines a a' :
  assembleLineSource decode_address lines a = Returns tt a' ->
  version a' = version a
  /\ sourceLine a' = sourceLine a + Z.of_nat (length lines)
  /\ opByName a' = opByName a.
Proof.
  unfold assembleLineSource.
  revert a. induction lines as [|line lines IH]; intros a H.
  - cbn [for_each] in H. unfold ret in H. simplify_eq.
    cbn [length]. repeat split; lia.
  - cbn [for_each] in H. unfold bind in H.
    pose proof (next_line_frame line a) as Hn.
    destruct (next_line decode_address line a) as [[] a1|e a1|]; [|discriminate..].
    cbn in Hn. destruct Hn as (V & L & O).
    apply IH in H as (V' & L' & O').
    rewrite V', L', O', V, L, O. cbn [length]. repeat split; lia.
Qed.

End Frames.

(** ** References to the constant pools *)

Lemma fast_ops_none (ops : gmap Z (list Z)) (o0 o1 o2 o3 : list Z) (index : Z) :
  ops = <[0 := o0]> (<[1 := o1]> (<[2 := o2]> (<[3 := o3]> ∅))) ->
  index < 0 \/ 3 < index -> ops !! index = None.
Proof.
  intros -> H.
  rewrite !lookup_insert_ne by lia. apply lookup_empty.
Qed.

Lemma bytes_of_pair (x y : Z) :
  0 <= x < 256 -> 0 <= y < 256 -> bytes_of [x; y] = Ok [x; y].
Proof.
  intros Hx Hy. unfold bytes_of. cbn [forallb].
  replace (0 <=? x) with true by (symmetry; apply Z.leb_le; lia).
  replace (x <? 256) with true by (symmetry; apply Z.ltb_lt; lia).
  replace (0 <=? y) with true by (symmetry; apply Z.leb_le; lia).
  replace (y <? 256) with true by (symmetry; apply Z.ltb_lt; lia).
  reflexivity.
Qed.

Lemma write_intc_fast (a : Assembler) (index : Z) :
  0 <= index <= 3 ->
  write_intc index a = Returns tt (set_out (out a ++ [0x22 + index]) a).
Proof.
  intros H.
  assert (index = 0 \/ index = 1 \/ index = 2 \/ index = 3) as [->|[->|[->| ->]]]
    by lia; reflexivity.
Qed.

Lemma write_bytec_fast (a : Assembler) (index : Z) :
  0 <= index <= 3 ->
  write_bytec index a = Returns tt (set_out (out a ++ [0x28 + index]) a).
Proof.
  intros H.
  assert (index = 0 \/ index = 1 \/ index = 2 \/ index = 3) as [->|[->|[->| ->]]]
    by lia; reflexivity.
Qed.

Lemma write_intc_generic (a : Assembler) (index : Z) :
  4 <= index <= 255 ->
  write_intc index a = Returns tt (set_out (out a ++ [0x21; index]) a).
Proof.
  intros H. unfold write_intc.
  rewrite (fast_ops_none _intc_ops _ _ _ _ index eq_refl) by lia. cbn [truthy].
  replace (255 <? index) with false by (symmetry; apply Z.ltb_ge; lia).
  replace (index <? 0) with false by (symmetry; apply Z.ltb_ge; lia).
  rewrite bytes_of_pair by lia. reflexivity.
Qed.

Lemma write_bytec_generic (a : Assembler) (index : Z) :
  4 <= index <= 255 ->
  write_bytec index a = Returns tt (set_out (out a ++ [0x27; index]) a).
Proof.
  intros H. unfold write_bytec.
  rewrite (fast_ops_none _bytec_ops _ _ _ _ index eq_refl) by lia. cbn [truthy].
  replace (255 <? index) with false by (symmetry; apply Z.ltb_ge; lia).
  replace (index <? 0) with false by (symmetry; apply Z.ltb_ge; lia).
  rewrite bytes_of_pair by lia. reflexivity.
Qed.

Lemma write_intc_overflow (a : Assembler) (index : Z) :
  255 < index ->
  write_intc index a = Raises (Exception cannot_have_more_than_256_int_constants) a.
Proof.
  intros H. unfold write_intc.
  rewrite (fast_ops_none _intc_ops _ _ _ _ index eq_refl) by lia. cbn [truthy].
  replace (255 <? index) with true by (symmetry; apply Z.ltb_lt; lia).
  reflexivity.
Qed.

Lemma write_intc_negative (a : Assembler) (index : Z) :
  index < 0 ->
  write_intc index a = Raises (Exception invalid_negative_intc_const_index) a.
Proof.
  intros H. unfold write_intc.
  rewrite (fast_ops_none _intc_ops _ _ _ _ index eq_refl) by lia. cbn [truthy].
  replace (255 <? index) with false by (symmetry; apply Z.ltb_ge; lia).
  replace (index <? 0) with true by (symmetry; apply Z.ltb_lt; lia).
  reflexivity.
Qed.

Lemma write_bytec_overflow (a : Assembler) (index : Z) :
  255 < index ->
  write_bytec index a = Raises (Exception cannot_have_more_than_256_byte_constants) a.
Proof.
  intros H. unfold write_bytec.
  rewrite (fast_ops_none _bytec_ops _ _ _ _ index eq_refl) by lia. cbn [truthy].
  replace (255 <? index) with true by (symmetry; apply Z.ltb_lt; lia).
  reflexivity.
Qed.

Lemma write_bytec_negative (a : Assembler) (index : Z) :
  index < 0 ->
  write_bytec index a = Raises (Exception invalid_negative_bytec_const_index) a.
Proof.
  intros H. unfold write_bytec.
  rewrite (fast_ops_none _bytec_ops _ _ _ _ index eq_refl) by lia. cbn [truthy].
  replace (255 <? index) with false by (symmetry; apply Z.ltb_ge; lia).
  replace (index <? 0) with true by (symmetry; apply Z.ltb_lt; lia).
  reflexivity.
Qed.

(** C3. A reference to pool index 0, 1, 2 or 3 appends the one fast opcode
    of that index ([0x22..0x25] for integers, [0x28..0x2b] for bytes); a
    reference to an index from 4 to 255 appends the generic opcode ([0x21],
    [0x27]) and the index byte; an index above 255 or below 0 raises an
    error of the kind [ConstantPoolOverflow] and leaves the session, its
    output included, as it was. *)
Theorem write_const_ref (a : Assembler) (index : Z) :
  (0 <= index <= 3 ->
     write_intc index a = Returns tt (set_out (out a ++ [0x22 + index]) a)
     /\ write_bytec index a = Returns tt (set_out (out a ++ [0x28 + index]) a))
  /\ (4 <= index <= 255 ->
     write_intc index a = Returns tt (set_out (out a ++ [0x21; index]) a)
     /\ write_bytec index a = Returns tt (set_out (out a ++ [0x27; index]) a))
  /\ (255 < index \/ index < 0 ->
     exists e1 e2,
       write_intc index a = Raises e1 a
       /\ write_bytec index a = Raises e2 a
       /\ kind_of e1 = Some ConstantPoolOverflow
       /\ kind_of e2 = Some ConstantPoolOverflow).
Proof.
  split; [|split].
  - intros H. split; [apply write_intc_fast | apply write_bytec_fast]; exact H.
  - intros H. split; [apply write_intc_generic | apply write_bytec_generic]; exact H.
  - intros [H|H].
    + eexists _, _. split; [apply write_intc_overflow; exact H|].
      split; [apply write_bytec_overflow; exact H|]. split; reflexivity.
    + eexists _, _. split; [apply write_intc_negative; exact H|].
      split; [apply write_bytec_negative; exact H|]. split; reflexivity.
Qed.

(** The three cases at indices 2, 200 and 256 of a fresh session. *)
Lemma write_const_ref_witness :
  let a := Assembler_init [] "" 1 in
  (write_intc 2 a = Returns tt (set_out [0x24] a)
   /\ write_bytec 2 a = Returns tt (set_out [0x2a] a))
  /\ (write_intc 200 a = Returns tt (set_out [0x21; 200] a)
      /\ write_bytec 200 a = Returns tt (set_out [0x27; 200] a))
  /\ (exists e1 e2,
       write_intc 256 a = Raises e1 a
       /\ write_bytec 256 a = Raises e2 a
       /\ kind_of e1 = Some ConstantPoolOverflow
       /\ kind_of e2 = Some ConstantPoolOverflow).
Proof.
  intros a.
  destruct (write_const_ref a 2) as (H2 & _ & _).
  destruct (write_const_ref a 200) as (_ & H200 & _).
  destruct (write_const_ref a 256) as (_ & _ & H256).
  split; [apply H2; lia|]. split; [apply H200; lia|]. apply H256. left. lia.
Defined.

(** ** [getBytes] *)

Lemma write_varuints_prefix (prefix : list Z) (xs : list Z) :
  write_varuints prefix xs = (fun b => prefix ++ b) <$> write_varuints [] xs.
Proof.
  revert prefix. induction xs as [|x xs IH]; intros prefix; cbn [write_varuints].
  - cbn. rewrite app_nil_r. reflexivity.
  - destruct (to_varuint x) as [b|]; [|reflexivity].
    rewrite (IH (prefix ++ b)), (IH ([] ++ b)).
    destruct (write_varuints [] xs) as [r|]; cbn; [|reflexivity].
    rewrite app_assoc. reflexivity.
Qed.

Lemma write_intcblock_prefix (prefix : list Z) (xs : list Z) :
  write_intcblock prefix xs = (fun b => prefix ++ b) <$> write_intcblock [] xs.
Proof.
  unfold write_intcblock. destruct (to_varuint _) as [n|]; [|reflexivity].
  rewrite (write_varuints_prefix (prefix ++ _)), (write_varuints_prefix ([] ++ _)).
  destruct (write_varuints [] xs) as [r|]; cbn; [|reflexivity].
  rewrite <- app_assoc. reflexivity.
Qed.

Lemma write_byte_consts_prefix (prefix : list Z) (xs : list (list Z)) :
  write_byte_consts prefix xs = (fun b => prefix ++ b) <$> write_byte_consts [] xs.
Proof.
  revert prefix. induction xs as [|x xs IH]; intros prefix; cbn [write_byte_consts].
  - cbn. rewrite app_nil_r. reflexivity.
  - destruct (to_varuint _) as [b|]; [|reflexivity].
    rewrite (IH (prefix ++ b ++ x)), (IH ([] ++ b ++ x)).
    destruct (write_byte_consts [] xs) as [r|]; cbn; [|reflexivity].
    rewrite <- !app_assoc. reflexivity.
Qed.

Lemma write_bytecblock_prefix (prefix : list Z) (xs : list (list Z)) :
  write_bytecblock prefix xs = (fun b => prefix ++ b) <$> write_bytecblock [] xs.
Proof.
  unfold write_bytecblock. destruct (to_varuint _) as [n|]; [|reflexivity].
  rewrite (write_byte_consts_prefix (prefix ++ _)), (write_byte_consts_prefix ([] ++ _)).
  destruct (write_byte_consts [] xs) as [r|]; cbn; [|reflexivity].
  rewrite <- app_assoc. reflexivity.
Qed.

(** Label resolution reads and writes neither written flag. *)
Lemma resolve_reference_flags (f : Assembler -> Assembler) ref a :
  (forall a, out (f a) = out a /\ labels (f a) = labels a) ->
  (forall o a, f (set_out o a) = set_out o (f a)) ->
  resolve_reference ref (f a) = map_state f (resolve_reference ref a).
Proof.
  intros Hf Hset. destruct ref as [[sourceLine pc] label].
  unfold resolve_reference. unfold_monad. cbv beta.
  destruct (Hf a) as [-> ->].
  repeat (destruct_inner; simplify_eq; cbn beta iota); cbn [map_state];
    rewrite ?Hset; reflexivity.
Qed.

Lemma for_each_resolve_flags (f : Assembler -> Assembler) refs a :
  (forall a, out (f a) = out a /\ labels (f a) = labels a) ->
  (forall o a, f (set_out o a) = set_out o (f a)) ->
  for_each resolve_reference refs (f a)
  = map_state f (for_each resolve_reference refs a).
Proof.
  intros Hf Hset. revert a. induction refs as [|ref refs IH]; intros a; [reflexivity|].
  cbn [for_each]. unfold bind.
  rewrite resolve_reference_flags by assumption.
  destruct (resolve_reference ref a) as [[] a1|e a1|]; cbn [map_state]; auto.
Qed.

Lemma resolveLabels_flags (f : Assembler -> Assembler) a :
  (forall a, out (f a) = out a /\ labels (f a) = labels a
             /\ labelReferences (f a) = labelReferences a) ->
  (forall o a, f (set_out o a) = set_out o (f a)) ->
  resolveLabels (f a) = map_state f (resolveLabels a).
Proof.
  intros Hf Hset.
  assert (Hf' : forall a, out (f a) = out a /\ labels (f a) = labels a).
  { intros x. destruct (Hf x) as (? & ? & _). auto. }
  unfold resolveLabels, bind, get. cbv beta.
  destruct (Hf a) as (Ho & _ & ->).
  destruct (labelReferences a) as [|ref refs]; [cbn; rewrite Ho; reflexivity|].
  fold (@bind unit unit). 
  change (resolve_reference ref ;; for_each resolve_reference refs)
    with (for_each resolve_reference (ref :: refs)).
  rewrite for_each_resolve_flags by assumption.
  destruct (for_each resolve_reference (ref :: refs) a) as [[] a1|e a1|];
    cbn [map_state]; try reflexivity.
  unfold ret. destruct (Hf a1) as (-> & _). reflexivity.
Qed.

Lemma resolveLabels_mark_written (ci cb : bool) a :
  resolveLabels (mark_written ci cb a) = map_state (mark_written ci cb) (resolveLabels a).
Proof.
  apply resolveLabels_flags.
  - intros x. destruct ci, cb; cbn; auto.
  - intros o x. destruct ci, cb; reflexivity.
Qed.

Local Opaque resolveLabels.

Lemma getBytes_unfold a :
  getBytes a =
    match to_varuint (version a),
          block_if (int_block_due a) (write_intcblock [] (intc a)),
          block_if (byte_block_due a) (write_bytecblock [] (bytec a)) with
    | Some v, Some ib, Some bb =>
        match resolveLabels a with
        | Returns program a' =>
            Returns (v ++ ib ++ bb ++ program)
                    (mark_written (int_block_due a) (byte_block_due a) a')
        | Raises e a' =>
            Raises e (mark_written (int_block_due a) (byte_block_due a) a')
        | Hangs => Hangs
        end
    | _, _, _ => Hangs
    end.
Proof.
  unfold getBytes, int_block_due, byte_block_due, block_if.
  unfold_monad. cbv beta.
  destruct (to_varuint (version a)) as [v|]; [|reflexivity]. cbn beta iota.
  destruct (nonempty (intc a) && negb (intcWritten a)) eqn:Ci; cbn beta iota.
  - rewrite write_intcblock_prefix.
    destruct (write_intcblock [] (intc a)) as [ib|]; cbn; [|reflexivity].
    destruct (nonempty (bytec a) && negb (bytecWritten a)) eqn:Cb; cbn beta iota.
    + rewrite write_bytecblock_prefix.
      destruct (write_bytecblock [] (bytec a)) as [bb|]; cbn; [|reflexivity].
      rewrite (resolveLabels_mark_written true true a
                : resolveLabels (set_bytecWritten true (set_intcWritten true a)) = _).
      destruct (resolveLabels a); cbn; rewrite <- ?app_assoc; reflexivity.
    + rewrite (resolveLabels_mark_written true false a
              : resolveLabels (set_intcWritten true a) = _).
      destruct (resolveLabels a); cbn; rewrite <- ?app_assoc; reflexivity.
  - destruct (nonempty (bytec a) && negb (bytecWritten a)) eqn:Cb; cbn beta iota.
    + rewrite write_bytecblock_prefix.
      destruct (write_bytecblock [] (bytec a)) as [bb|]; cbn; [|reflexivity].
      rewrite (resolveLabels_mark_written false true a
                : resolveLabels (set_bytecWritten true a) = _).
      destruct (resolveLabels a); cbn; rewrite <- ?app_assoc; reflexivity.
    + destruct (resolveLabels a); cbn; rewrite <- ?app_assoc; reflexivity.
Qed.

Local Transparent resolveLabels.

Section Finalize.

Variable decode_address : string -> result (list Z).
Variable ops : list OpSpec.

(** C2. [getBytes] returns the varuint of the version, then the integer
    block if the pool has entries and was never block-emitted, then the byte
    block under the same condition, then the instruction stream with its
    labels resolved. On ["int 5\nint 5\nint 7\n"] the line pass interns 5
    and 7 in that order and writes the fast references [0x22], [0x22],
    [0x23] (indices 0, 0, 1); the binary is the version 1, the block
    [0x20 2 5 7], and these three bytes. *)
Theorem getBytes_layout :
  (forall (a a' : Assembler) (v ib bb program : list Z),
     to_varuint (version a) = Some v ->
     block_if (int_block_due a) (write_intcblock [] (intc a)) = Some ib ->
     block_if (byte_block_due a) (write_bytecblock [] (bytec a)) = Some bb ->
     resolveLabels a = Returns program a' ->
     getBytes a
     = Returns (v ++ ib ++ bb ++ program)
               (mark_written (int_block_due a) (byte_block_due a) a'))
  /\ (exists s s',
        assembleLineSource decode_address (Py.splitlines int_5_5_7)
                           (Assembler_init ops "" 1) = Returns tt s
        /\ intc s = [5; 7]
        /\ out s = [0x22; 0x22; 0x23]
        /\ to_varuint (version s) = Some [1]
        /\ write_intcblock [] (intc s) = Some [0x20; 2; 5; 7]
        /\ getBytes s = Returns ([1] ++ [0x20; 2; 5; 7] ++ [0x22; 0x22; 0x23]) s'
        /\ AssembleString decode_address ops int_5_5_7
           = Value [1; 0x20; 2; 5; 7; 0x22; 0x22; 0x23]).
Proof.
  split.
  - intros a a' v ib bb program Hv Hib Hbb Hres.
    rewrite getBytes_unfold, Hv, Hib, Hbb, Hres. reflexivity.
  - eexists (mkAssembler [0x22; 0x22; 0x23] [5; 7] false [] false "" 3 ∅ []
                         (ops_by_name ops) 1), _.
    split; [vm_compute; reflexivity|].
    split; [reflexivity|]. split; [reflexivity|]. split; [reflexivity|].
    split; [reflexivity|].
    split; [vm_compute; reflexivity|].
    vm_compute; reflexivity.
Qed.

End Finalize.

(** The general part at the session the scenario leaves. *)
Lemma getBytes_layout_witness :
  let a := mkAssembler [0x22; 0x22; 0x23] [5; 7] false [] false "" 3 ∅ [] ∅ 1 in
  getBytes a
  = Returns ([1] ++ [0x20; 2; 5; 7] ++ [] ++ [0x22; 0x22; 0x23])
            (mark_written (int_block_due a) (byte_block_due a) a).
Proof.
  intros a.
  apply (proj1 (getBytes_layout no_address sample_ops) a a [1] [0x20; 2; 5; 7] [] [0x22; 0x22; 0x23]);
    reflexivity.
Defined.

(** ** Failing lines, and the version *)

Section Driver.

Variable decode_address : string -> result (list Z).
Variable ops : list OpSpec.

Lemma next_line_raises line a e a' :
  next_line decode_address line a = Raises e a' ->
  sourceLine a' = sourceLine a + 1.
Proof.
  intros H. pose proof (next_line_frame decode_address line a) as Hn.
  rewrite H in Hn. cbn in Hn. tauto.
Qed.

(** C7, as the code has it. When the assembling of a line fails, with the
    lines before it assembled, the whole job aborts there: the line pass
    raises the error of that line and leaves the session as the failing
    line left it, so no later line is taken; [getBytes] is not reached, the
    job raises that same error and there is no binary. The session's
    [sourceLine] is then the 1-based number of the failing line. The error
    is the one the line raised, with no line number put into it. *)
Theorem failing_line_aborts (a a1 a' : Assembler) (text : string)
        (pre post : list string) (line : string) (e : error) :
  Py.splitlines text = pre ++ line :: post ->
  assembleLineSource decode_address pre a = Returns tt a1 ->
  assembleLine decode_address line (set_sourceLine (sourceLine a1 + 1) a1)
  = Raises e a' ->
  assembleLineSource decode_address (Py.splitlines text) a = Raises e a'
  /\ assemble_with decode_address a text = Raises e a'
  /\ observe (assemble_with decode_address a text) = Throws e
  /\ sourceLine a' = sourceLine a + Z.of_nat (length pre) + 1.
Proof.
  intros Hsplit Hpre Hline.
  assert (Hnext : next_line decode_address line a1 = Raises e a').
  { unfold next_line, bind, modify. exact Hline. }
  assert (Hpass : assembleLineSource decode_address (Py.splitlines text) a
                  = Raises e a').
  { rewrite Hsplit. unfold assembleLineSource in *.
    rewrite for_each_app. unfold bind at 1. rewrite Hpre.
    cbn [for_each]. unfold bind. rewrite Hnext. reflexivity. }
  assert (Hjob : assemble_with decode_address a text = Raises e a').
  { unfold assemble_with, bind. rewrite Hpass. reflexivity. }
  split; [exact Hpass|]. split; [exact Hjob|].
  split; [rewrite Hjob; reflexivity|].
  apply assembleLineSource_returns in Hpre as (_ & L & _).
  apply next_line_raises in Hnext. lia.
Qed.

(** C9. The constructor sets [version] to 1 whatever it is given, no line
    changes it, and the binary of every job that returns starts with the
    varuint of 1, the byte [01]. *)
Theorem version_argument_ignored (sourceName : string) (version0 : Z) :
  version (Assembler_init ops sourceName version0) = 1
  /\ Assembler_init ops sourceName version0 = Assembler_init ops sourceName 1
  /\ to_varuint 1 = Some [1]
  /\ forall (text : string) (binary : list Z) (a' : Assembler),
       assemble_with decode_address (Assembler_init ops sourceName version0) text
       = Returns binary a' ->
       exists rest, binary = [1] ++ rest.
Proof.
  split; [reflexivity|]. split; [reflexivity|]. split; [reflexivity|].
  intros text binary a'. unfold assemble_with, bind.
  destruct (assembleLineSource _ _ _) as [[] a1|e a1|] eqn:Hpass; [|discriminate..].
  apply assembleLineSource_returns in Hpass as (V & _ & _). cbn in V.
  rewrite getBytes_unfold, V.
  change (to_varuint 1) with (Some [1]). cbn iota.
  destruct (block_if (int_block_due a1) _) as [ib|]; [|discriminate].
  destruct (block_if (byte_block_due a1) _) as [bb|]; [|discriminate].
  destruct (resolveLabels a1) as [program a2|e a2|]; [|discriminate..].
  intros [= <- _]. eexists. reflexivity.
Qed.

End Driver.

(** A job whose second line fails. *)
Lemma failing_line_aborts_witness :
  observe (assemble_with no_address (Assembler_init sample_ops "" 1)
                         ("int 5" +:+ LF +:+ "nope" +:+ LF +:+ "int 7"))
  = Throws (Exception (unknown_opcode "nope")).
Proof.
  refine (proj1 (proj2 (proj2
            (failing_line_aborts no_address (Assembler_init sample_ops "" 1) _ _
               ("int 5" +:+ LF +:+ "nope" +:+ LF +:+ "int 7")
               ["int 5"] ["int 7"] "nope" _ _ _ _)))).
  - vm_compute. reflexivity.
  - vm_compute. reflexivity.
  - vm_compute. reflexivity.
Defined.

(** C7, as stated, fails: the same error, with nothing in it that tells the
    line, surfaces from a failure on line 1 and from one on line 2. *)
Lemma line_number_not_attached : ~ line_number_attached no_address sample_ops.
Proof.
  intros [line_of H].
  pose proof (H "nope" (Exception (unknown_opcode "nope")) _ eq_refl) as H1.
  pose proof (H (LF +:+ "nope") (Exception (unknown_opcode "nope")) _ eq_refl) as H2.
  cbn in H1, H2. rewrite H1 in H2. discriminate.
Qed.

(** A session constructed with version 7 assembles [int 5] to a binary
    that starts with [01]. *)
Lemma version_argument_ignored_witness :
  exists rest, [1; 0x20; 1; 5; 0x22] = [1] ++ rest.
Proof.
  destruct (version_argument_ignored no_address sample_ops "" 7) as (_ & _ & _ & H).
  apply (H "int 5" _ (mkAssembler [0x22] [5] true [] false "" 1 ∅ []
                                  (ops_by_name sample_ops) 1)).
  vm_compute. reflexivity.
Defined.

(** ** Independence of the source name *)

Ltac fields :=
  cbn [out intc intcWritten bytec bytecWritten sourceName sourceLine labels
       labelReferences opByName version set_out set_intc set_intcWritten
       set_bytec set_bytecWritten set_sourceLine set_labels
       set_labelReferences with_sourceName map_state] in *.

Section SourceName.

Variable decode_address : string -> result (list Z).
Variable name : string.

Lemma handler_sourceName hname fn op args a :
  handler decode_address hname = Some fn ->
  fn op args (with_sourceName name a)
  = map_state (with_sourceName name) (fn op args a).
Proof.
  unfold handler. intros H. destruct a.
  repeat case_match; simplify_eq; unfold_handlers; unfold_monad; cbv beta; fields;
    repeat (destruct_inner; simplify_eq; cbn beta iota; fields); reflexivity.
Qed.

Lemma assembleParts_sourceName parts a :
  assembleParts decode_address parts (with_sourceName name a)
  = map_state (with_sourceName name) (assembleParts decode_address parts a).
Proof.
  unfold assembleParts. destruct parts as [|p0 args]; [reflexivity|].
  unfold bind at 1 3, get. fields.
  destruct (handler decode_address p0) as [fn|] eqn:Hfn.
  - eapply handler_sourceName; exact Hfn.
  - destruct a. unfold_handlers; unfold_monad; cbv beta; fields.
    repeat (destruct_inner; simplify_eq; cbn beta iota; fields); reflexivity.
Qed.

Lemma assembleLine_sourceName rawline a :
  assembleLine decode_address rawline (with_sourceName name a)
  = map_state (with_sourceName name) (assembleLine decode_address rawline a).
Proof.
  unfold assembleLine.
  repeat (destruct_inner; try reflexivity).
  apply assembleParts_sourceName.
Qed.

Lemma next_line_sourceName line a :
  next_line decode_address line (with_sourceName name a)
  = map_state (with_sourceName name) (next_line decode_address line a).
Proof.
  unfold next_line, bind, modify.
  change (set_sourceLine (sourceLine (with_sourceName name a) + 1) (with_sourceName name a))
    with (with_sourceName name (set_sourceLine (sourceLine a + 1) a)).
  rewrite assembleLine_sourceName.
  destruct (assembleLine _ _ _) as [[] a1|e a1|]; reflexivity.
Qed.

Lemma assembleLineSource_sourceName lines a :
  assembleLineSource decode_address lines (with_sourceName name a)
  = map_state (with_sourceName name) (assembleLineSource decode_address lines a).
Proof.
  unfold assembleLineSource. revert a.
  induction lines as [|line lines IH]; intros a; [reflexivity|].
  cbn [for_each]. unfold bind. rewrite next_line_sourceName.
  destruct (next_line _ _ _) as [[] a1|e a1|]; cbn [map_state]; auto.
Qed.

Lemma getBytes_sourceName a :
  getBytes (with_sourceName name a) = map_state (with_sourceName name) (getBytes a).
Proof.
  rewrite !getBytes_unfold.
  change (version (with_sourceName name a)) with (version a).
  change (intc (with_sourceName name a)) with (intc a).
  change (bytec (with_sourceName name a)) with (bytec a).
  change (int_block_due (with_sourceName name a)) with (int_block_due a).
  change (byte_block_due (with_sourceName name a)) with (byte_block_due a).
  rewrite (resolveLabels_flags (with_sourceName name)) by (intros; auto).
  destruct (to_varuint (version a)); [|reflexivity].
  destruct (block_if (int_block_due a) _); [|reflexivity].
  destruct (block_if (byte_block_due a) _); [|reflexivity].
  destruct (resolveLabels a) as [p a1|e a1|]; cbn [map_state]; try reflexivity;
    destruct (int_block_due a), (byte_block_due a); reflexivity.
Qed.

Lemma assemble_with_sourceName a text :
  assemble_with decode_address (with_sourceName name a) text
  = map_state (with_sourceName name) (assemble_with decode_address a text).
Proof.
  unfold assemble_with, bind. rewrite assembleLineSource_sourceName.
  destruct (assembleLineSource _ _ _) as [[] a1|e a1|]; cbn [map_state];
    try reflexivity.
  apply getBytes_sourceName.
Qed.

End SourceName.

Lemma observe_map_state {A} (f : Assembler -> Assembler) (o : outcome A) :
  observe (map_state f o) = observe o.
Proof. destruct o; reflexivity. Qed.

Section Determinism.

Variable decode_address : string -> result (list Z).
Variable ops : list OpSpec.

(** C8. Two jobs on the same source, each on a session of its own, end the
    same way, with the same bytes when they return: what a fresh session is
    constructed with (source name, version) has no part in the result, so
    the text decides it (for the opcode table and the address decoder of
    the installation). [AssembleString] is such a job. *)
Theorem fresh_sessions_agree (text : string) (name1 name2 : string)
        (version1 version2 : Z) :
  observe (assemble_with decode_address (Assembler_init ops name1 version1) text)
  = observe (assemble_with decode_address (Assembler_init ops name2 version2) text)
  /\ AssembleString decode_address ops text
     = observe (assemble_with decode_address (Assembler_init ops name1 version1) text).
Proof.
  assert (E : forall n v,
    observe (assemble_with decode_address (Assembler_init ops n v) text)
    = AssembleString decode_address ops text).
  { intros n v. unfold AssembleString.
    change (Assembler_init ops n v)
      with (with_sourceName n (Assembler_init ops "" 1)).
    rewrite assemble_with_sourceName. apply observe_map_state. }
  split; [rewrite !E; reflexivity | symmetry; apply E].
Qed.

End Determinism.

(** ** Argument counts *)

Section ArgumentCounts.

Variable decode_address : string -> result (list Z).
Variable ops : list OpSpec.

(** C6, on the code. [assemble_bnz] makes no check of its argument count:
    with no argument it fails on [args[0]] with Python's [IndexError], which
    is none of the assembler's own messages; with more than one it takes the
    first and drops the rest; [bnz a b] assembles. [assemble_byte] checks
    only for no argument at all: a lone [b32] fails on [args[1]] with
    [IndexError] and tokens after a complete literal are dropped. The
    handlers of [int], [intc], [bytec] and [addr] do report a wrong count in
    words. *)
Theorem bnz_byte_argument_count (op : option OpSpec) (a : Assembler) :
  assemble_bnz op [] a = Raises IndexError a
  /\ kind_of IndexError = None
  /\ (forall label surplus,
        assemble_bnz op (label :: surplus) a = assemble_bnz op [label] a)
  /\ AssembleString decode_address ops "bnz" = Throws IndexError
  /\ AssembleString decode_address sample_ops ("bnz a b" +:+ LF +:+ "a:")
     = Value [1; 0x40; 0; 0]
  /\ assemble_byte op ["b32"] a = Raises IndexError a
  /\ (forall surplus,
        assemble_byte op ("0x61" :: surplus) a = assemble_byte op ["0x61"] a)
  /\ (forall x y rest,
        assemble_int op [] a = Raises (Exception int_expects_1_arg) a
        /\ assemble_int op (x :: y :: rest) a = Raises (Exception int_expects_1_arg) a
        /\ assemble_intc op (x :: y :: rest) a = Raises (Exception intc_expects_1_arg) a
        /\ assemble_bytec op (x :: y :: rest) a = Raises (Exception bytec_expects_1_arg) a
        /\ assemble_addr decode_address op (x :: y :: rest) a
           = Raises (Exception addr_expects_1_arg) a).
Proof.
  split; [reflexivity|]. split; [reflexivity|]. split; [reflexivity|].
  split; [vm_compute; reflexivity|]. split; [vm_compute; reflexivity|].
  split; [reflexivity|]. split; [reflexivity|].
  intros x y rest. repeat split; reflexivity.
Qed.

End ArgumentCounts.

(** ** Label resolution *)

Lemma references_in_range_grow a a' :
  references_in_range a ->
  labelReferences a' = labelReferences a ->
  (exists suffix, out a' = out a ++ suffix) ->
  references_in_range a'.
Proof.
  unfold references_in_range, reference_in_range.
  intros H -> [s Hs]. eapply Forall_impl; [exact H|].
  intros ref [H0 H3]. cbn beta. rewrite Hs, length_app. lia.
Qed.

Lemma references_in_range_bnz a sourceLine label :
  references_in_range a ->
  references_in_range
    (set_out (out a ++ [0x40; 0x00; 0x00])
       (set_labelReferences
          (labelReferences a ++ [(sourceLine, Z.of_nat (length (out a)), label)]) a)).
Proof.
  unfold references_in_range, reference_in_range. intros H. cbn.
  apply Forall_app. split.
  - eapply Forall_impl; [exact H|]. intros ref [H0 H3].
    rewrite length_app. cbn. lia.
  - constructor; [|constructor]. cbn. rewrite length_app. cbn. lia.
Qed.

Ltac in_range_done :=
  first
    [ assumption
    | match goal with
      | H : references_in_range ?a |- _ => exact (references_in_range_bnz a _ _ H)
      end
    | eapply references_in_range_grow;
      [ eassumption
      | reflexivity
      | first
          [ eexists; reflexivity
          | exists []; symmetry; apply app_nil_r
          | match goal with
            | H : write_intcblock _ _ = Some _ |- _ =>
                apply write_intcblock_app in H; exact H
            | H : write_bytecblock _ _ = Some _ |- _ =>
                apply write_bytecblock_app in H; exact H
            end ] ] ].

Section References.

Variable decode_address : string -> result (list Z).

Lemma handler_in_range name fn op args a :
  handler decode_address name = Some fn ->
  references_in_range a -> post references_in_range (fn op args a).
Proof.
  unfold handler. intros H Ha.
  repeat case_match; simplify_eq; unfold post; run_method; try exact I;
    in_range_done.
Qed.

Lemma assembleParts_in_range parts a :
  references_in_range a ->
  post references_in_range (assembleParts decode_address parts a).
Proof.
  intros Ha. unfold assembleParts. destruct parts as [|p0 args]; [exact Ha|].
  unfold bind at 1, get.
  destruct (handler decode_address p0) as [fn|] eqn:Hfn.
  - eapply handler_in_range; [exact Hfn|exact Ha].
  - unfold post. run_method; try exact I; in_range_done.
Qed.

Lemma next_line_in_range line a :
  references_in_range a ->
  post references_in_range (next_line decode_address line a).
Proof.
  intros Ha. unfold next_line, bind, modify.
  assert (Ha' : references_in_range (set_sourceLine (sourceLine a + 1) a)) by exact Ha.
  revert Ha'. generalize (set_sourceLine (sourceLine a + 1) a). intros b Hb.
  unfold assembleLine.
  repeat (destruct_inner; try exact Hb).
  apply assembleParts_in_range. exact Hb.
Qed.

(** Every reference the line pass records lies in the output it leaves. *)
Lemma line_pass_references_in_range lines a :
  references_in_range a ->
  post references_in_range (assembleLineSource decode_address lines a).
Proof.
  unfold assembleLineSource. revert a.
  induction lines as [|line lines IH]; intros a Ha; [exact Ha|].
  cbn [for_each]. unfold bind.
  pose proof (next_line_in_range line a Ha) as Hn.
  destruct (next_line decode_address line a) as [[] a1|e a1|]; cbn in Hn |- *;
    [apply IH; exact Hn | exact Hn | exact I].
Qed.

End References.

Lemma fresh_references_in_range ops name version0 :
  references_in_range (Assembler_init ops name version0).
Proof. constructor. Qed.

Lemma setitem_in_range (program : list Z) (i v : Z) :
  0 <= i < Z.of_nat (length program) -> 0 <= v <= 255 ->
  setitem program i v = Ok (<[Z.to_nat i := v]> program).
Proof.
  intros Hi Hv. unfold setitem.
  replace (i <? 0) with false by (symmetry; apply Z.ltb_ge; lia). cbn zeta.
  replace (i <? 0) with false by (symmetry; apply Z.ltb_ge; lia).
  replace (Z.of_nat (length program) <=? i) with false
    by (symmetry; apply Z.leb_gt; lia).
  replace (v <? 0) with false by (symmetry; apply Z.ltb_ge; lia).
  replace (255 <? v) with false by (symmetry; apply Z.ltb_ge; lia).
  reflexivity.
Qed.

(** The two bytes of a jump: the high one, then the low one. *)
Lemma jump_bytes (jump : Z) :
  0 <= jump <= 0x7fff ->
  0 <= Z.shiftr jump 8 <= 127
  /\ 0 <= Z.land jump 0x0ff <= 255
  /\ 256 * Z.shiftr jump 8 + Z.land jump 0x0ff = jump.
Proof.
  intros H.
  rewrite Z.shiftr_div_pow2 by lia.
  rewrite (Z.land_ones jump 8 ltac:(lia) : Z.land jump 0x0ff = _).
  change (2 ^ 8) with 256.
  pose proof (Z.div_mod jump 256 ltac:(lia)).
  pose proof (Z.mod_pos_bound jump 256 ltac:(lia)).
  assert (0 <= jump / 256) by (apply Z.div_pos; lia).
  assert (jump / 256 < 128) by (apply Z.div_lt_upper_bound; lia).
  lia.
Qed.

Lemma resolve_reference_patches a sourceLine pc label labelOffset :
  0 <= pc -> pc + 3 <= Z.of_nat (length (out a)) ->
  labels a !! label = Some labelOffset ->
  pc + 3 <= labelOffset -> labelOffset - (pc + 3) <= 0x7fff ->
  resolve_reference (sourceLine, pc, label) a
  = Returns tt (patched pc (Z.shiftr (labelOffset - (pc + 3)) 8)
                           (Z.land (labelOffset - (pc + 3)) 0x0ff) a).
Proof.
  intros H0 H3 Hl Hfw Hfar.
  destruct (jump_bytes (labelOffset - (pc + 3)) ltac:(lia)) as (Hhi & Hlo & _).
  unfold resolve_reference. unfold_monad. cbv beta. rewrite Hl.
  replace (labelOffset <? pc + 3) with false by (symmetry; apply Z.ltb_ge; lia).
  replace (32767 <? labelOffset - (pc + 3)) with false
    by (symmetry; apply Z.ltb_ge; lia).
  rewrite setitem_in_range by lia. cbn beta iota.
  rewrite setitem_in_range by (rewrite ?length_insert; lia).
  reflexivity.
Qed.

Example ex_bnz_forward_10 :
  AssembleString no_address sample_ops
    ("bnz done" +:+ LF +:+ "pop" +:+ LF +:+ "pop" +:+ LF +:+ "pop" +:+ LF
     +:+ "pop" +:+ LF +:+ "pop" +:+ LF +:+ "pop" +:+ LF +:+ "pop" +:+ LF
     +:+ "done:")
  = Value [1; 0x40; 0; 7; 0x48; 0x48; 0x48; 0x48; 0x48; 0x48; 0x48].
Proof. vm_compute. reflexivity. Qed.

Example ex_bnz_backward :
  AssembleString no_address sample_ops ("done:" +:+ LF +:+ "bnz done")
  = Throws (Exception (label_is_before_reference 2 "done")).
Proof. vm_compute. reflexivity. Qed.

Example ex_bnz_undefined :
  AssembleString no_address sample_ops "bnz nowhere"
  = Throws (Exception (reference_to_undefined_label 1 "nowhere")).
Proof. vm_compute. reflexivity. Qed.

(** ** The loop of [assemble_bytecblock] *)

Lemma parseByteConstant_consumes args val rest :
  parseByteConstant args = Ok (val, rest) ->
  (length rest < length args)%nat.
Proof.
  unfold parseByteConstant. destruct args as [|a0 args']; [discriminate|].
  assert (H1 : (length (drop 1 (a0 :: args')) < length (a0 :: args'))%nat)
    by (rewrite length_drop; cbn; lia).
  assert (H2 : (length (drop 2 (a0 :: args')) < length (a0 :: args'))%nat)
    by (rewrite length_drop; cbn; lia).
  unfold rbind.
  repeat (destruct_inner; simplify_eq; cbn beta iota);
    intros; simplify_eq; assumption.
Qed.

(** With one unit of fuel per argument the loop ends: [assemble_bytecblock]
    never hangs in its parsing. *)
Lemma parse_byte_constants_ends fuel args bytec :
  (length args <= fuel)%nat ->
  parse_byte_constants fuel args bytec <> None.
Proof.
  revert args bytec. induction fuel as [|fuel IH]; intros args bytec Hlen.
  - destruct args; [discriminate | cbn in Hlen; lia].
  - destruct args as [|a0 args']; [discriminate|].
    cbn [parse_byte_constants].
    destruct (parseByteConstant (a0 :: args')) as [[val rest]|e] eqn:Hp;
      [|discriminate].
    apply IH. apply parseByteConstant_consumes in Hp. cbn in Hlen, Hp. lia.
Qed.

(** ** The constant pools *)

Lemma first_index_None {A} `{EqDecision A} (val : A) (pool : list A) :
  first_index val pool = None -> val ∉ pool.
Proof.
  unfold first_index. intros H.
  destruct (list_find (fun v => v = val) pool) as [[i x]|] eqn:E; [discriminate|].
  apply list_find_None in E. rewrite Forall_forall in E.
  intros Hin. exact (E val Hin eq_refl).
Qed.

Lemma first_index_Some {A} `{EqDecision A} (val : A) (pool : list A) (i : Z) :
  first_index val pool = Some i ->
  0 <= i /\ pool !! Z.to_nat i = Some val.
Proof.
  unfold first_index. intros H.
  destruct (list_find (fun v => v = val) pool) as [[j x]|] eqn:E; [|discriminate].
  cbn in H. simplify_eq. apply list_find_Some in E as (Hj & -> & _).
  split; [lia|]. rewrite Nat2Z.id. exact Hj.
Qed.

Lemma first_index_fresh {A} `{EqDecision A} (val : A) (pool : list A) :
  first_index val pool = None ->
  first_index val (pool ++ [val]) = Some (Z.of_nat (length pool)).
Proof.
  unfold first_index. intros H.
  destruct (list_find (fun v => v = val) pool) as [[i x]|] eqn:E; [discriminate|].
  assert (E' : list_find (fun v => v = val) (pool ++ [val]) = Some (length pool, val)).
  { apply list_find_app_Some. right. split; [lia|]. split; [exact E|].
    rewrite Nat.sub_diag. cbn. rewrite decide_True by reflexivity. reflexivity. }
  rewrite E'. reflexivity.
Qed.

Lemma NoDup_intern {A} `{EqDecision A} (val : A) (pool : list A) :
  NoDup pool -> first_index val pool = None -> NoDup (pool ++ [val]).
Proof.
  intros Hn Hf. apply NoDup_app. split; [exact Hn|]. split.
  - intros x Hx Hx'. apply list_elem_of_singleton in Hx'. subst x.
    exact (first_index_None _ _ Hf Hx).
  - apply NoDup_singleton.
Qed.

Ltac pools_done :=
  first
    [ assumption
    | match goal with
      | H : pools_distinct _ |- pools_distinct _ =>
          destruct H as [? ?]; split; fields;
          first [ assumption | apply NoDup_intern; assumption ]
      end ].

Section Pools.

Variable decode_address : string -> result (list Z).

Lemma handler_pools name fn op args a :
  handler decode_address name = Some fn ->
  String.eqb name "intcblock" = false ->
  String.eqb name "bytecblock" = false ->
  pools_distinct a -> post pools_distinct (fn op args a).
Proof.
  unfold handler. intros H Hi Hb Ha.
  repeat case_match; simplify_eq; unfold post; run_method; try exact I;
    pools_done.
Qed.

Lemma assemble_intcblock_pools op args a :
  pools_distinct a ->
  (forall vals, ints_of args = Ok vals -> NoDup vals) ->
  post pools_distinct (assemble_intcblock op args a).
Proof.
  intros [Hi Hb] Hvals. unfold post. run_method; try exact I;
    try (split; assumption).
  split; fields; [apply Hvals; reflexivity | assumption].
Qed.

Lemma assemble_bytecblock_pools op args a :
  pools_distinct a ->
  (forall vals, parse_byte_constants (length args) args [] = Some (Ok vals) ->
                NoDup vals) ->
  post pools_distinct (assemble_bytecblock op args a).
Proof.
  intros [Hi Hb] Hvals. unfold post. run_method; try exact I;
    try (split; assumption).
  split; fields; [assumption | apply Hvals; reflexivity].
Qed.

Lemma handler_block name :
  String.eqb name "intcblock" = true ->
  handler decode_address name = Some assemble_intcblock.
Proof. intros H. apply String.eqb_eq in H. subst name. reflexivity. Qed.

Lemma handler_byteblock name :
  String.eqb name "bytecblock" = true ->
  handler decode_address name = Some assemble_bytecblock.
Proof. intros H. apply String.eqb_eq in H. subst name. reflexivity. Qed.

Lemma assembleParts_pools parts a :
  pools_distinct a -> parts_values_distinct parts = true ->
  post pools_distinct (assembleParts decode_address parts a).
Proof.
  intros Ha Hd. unfold assembleParts. destruct parts as [|p0 args]; [exact Ha|].
  unfold bind at 1, get. cbn [parts_values_distinct] in Hd.
  destruct (String.eqb p0 "intcblock") eqn:Ei.
  { rewrite (handler_block _ Ei). apply assemble_intcblock_pools; [exact Ha|].
    intros vals Hv. rewrite Hv in Hd. apply bool_decide_eq_true in Hd. exact Hd. }
  destruct (String.eqb p0 "bytecblock") eqn:Eb.
  { rewrite (handler_byteblock _ Eb). apply assemble_bytecblock_pools; [exact Ha|].
    intros vals Hv. rewrite Hv in Hd. apply bool_decide_eq_true in Hd. exact Hd. }
  destruct (handler decode_address p0) as [fn|] eqn:Hfn.
  - eapply handler_pools; eassumption.
  - unfold post. run_method; try exact I; pools_done.
Qed.

Lemma assembleLine_pools rawline a :
  pools_distinct a -> block_values_distinct rawline = true ->
  post pools_distinct (assembleLine decode_address rawline a).
Proof.
  intros Ha. unfold block_values_distinct, line_parts, assembleLine.
  destruct (String.eqb rawline ""); [intros _; exact Ha|].
  destruct (String.eqb (Py.strip rawline) ""); [intros _; exact Ha|].
  destruct (Py.startswith (Py.strip rawline) "//"); [intros _; exact Ha|].
  destruct (Py.split (Py.strip rawline)) as [|p ps] eqn:Es; [intros _; exact Ha|].
  intros Hd. apply assembleParts_pools; [exact Ha|exact Hd].
Qed.

Lemma next_line_pools line a :
  pools_distinct a -> block_values_distinct line = true ->
  post pools_distinct (next_line decode_address line a).
Proof.
  intros Ha Hd. unfold next_line, bind, modify.
  apply (assembleLine_pools line (set_sourceLine (sourceLine a + 1) a) Ha) in Hd.
  destruct (assembleLine _ _ _) as [[] a1|e a1|]; exact Hd.
Qed.

Lemma assembleLineSource_pools lines a :
  pools_distinct a -> forallb block_values_distinct lines = true ->
  post pools_distinct (assembleLineSource decode_address lines a).
Proof.
  unfold assembleLineSource. revert a.
  induction lines as [|line lines IH]; intros a Ha Hd; [exact Ha|].
  cbn [forallb] in Hd. apply andb_true_iff in Hd as [Hl Hd].
  cbn [for_each]. unfold bind.
  pose proof (next_line_pools line a Ha Hl) as Hn.
  destruct (next_line decode_address line a) as [[] a1|e a1|]; cbn in Hn |- *;
    [apply IH; assumption | exact Hn | exact I].
Qed.

Lemma write_intc_returns index a a1 :
  write_intc index a = Returns tt a1 ->
  exists ref, a1 = set_out (out a ++ ref) a.
Proof.
  unfold write_intc. unfold_monad. cbv beta.
  repeat (destruct_inner; simplify_eq; cbn beta iota); intros; simplify_eq;
    eexists; reflexivity.
Qed.

Lemma write_bytec_returns index a a1 :
  write_bytec index a = Returns tt a1 ->
  exists ref, a1 = set_out (out a ++ ref) a.
Proof.
  unfold write_bytec. unfold_monad. cbv beta.
  repeat (destruct_inner; simplify_eq; cbn beta iota); intros; simplify_eq;
    eexists; reflexivity.
Qed.

(** Interning an integer a second time finds the index of the first time. *)
Lemma assemble_int_twice op s val a a1 :
  Py.int s 0 = Ok val ->
  assemble_int op [s] a = Returns tt a1 ->
  exists i,
    intc a1 !! Z.to_nat i = Some val
    /\ assemble_int op [s] a = write_intc i (set_intc (intc a1) a)
    /\ assemble_int op [s] a1 = write_intc i a1.
Proof.
  intros Hs. unfold assemble_int. rewrite Hs. unfold_monad. cbv beta iota.
  destruct (first_index val (intc a)) as [i|] eqn:Ef; cbn beta iota.
  - intros H. destruct (write_intc_returns _ _ _ H) as [ref ->].
    fields. rewrite Ef. exists i. split; [apply first_index_Some; exact Ef|].
    split; [destruct a; reflexivity | reflexivity].
  - intros H. destruct (write_intc_returns _ _ _ H) as [ref ->].
    fields. rewrite (first_index_fresh _ _ Ef). cbn beta iota.
    exists (Z.of_nat (length (intc a))). split; [|split; reflexivity].
    rewrite Nat2Z.id. apply list_lookup_middle. reflexivity.
Qed.

(** The same for a byte string ([byte] and [addr] go through [bytestring]). *)
Lemma bytestring_twice val a a1 :
  bytestring val a = Returns tt a1 ->
  exists i,
    bytec a1 !! Z.to_nat i = Some val
    /\ bytestring val a = write_bytec i (set_bytec (bytec a1) a)
    /\ bytestring val a1 = write_bytec i a1.
Proof.
  unfold bytestring. unfold_monad. cbv beta iota.
  destruct (first_index val (bytec a)) as [i|] eqn:Ef; cbn beta iota.
  - intros H. destruct (write_bytec_returns _ _ _ H) as [ref ->].
    fields. rewrite Ef. exists i. split; [apply first_index_Some; exact Ef|].
    split; [destruct a; reflexivity | reflexivity].
  - intros H. destruct (write_bytec_returns _ _ _ H) as [ref ->].
    fields. rewrite (first_index_fresh _ _ Ef). cbn beta iota.
    exists (Z.of_nat (length (bytec a))). split; [|split; reflexivity].
    rewrite Nat2Z.id. apply list_lookup_middle. reflexivity.
Qed.

End Pools.

(** C5, as stated, fails: [intcblock 5 5] leaves the pool [5, 5]. *)
Lemma intcblock_keeps_duplicates : ~ pools_always_distinct no_address sample_ops.
Proof.
  intros H.
  destruct (H "intcblock 5 5"
              (mkAssembler [0x20; 2; 5; 5] [5; 5] true [] false "" 1 ∅ []
                           (ops_by_name sample_ops) 1)) as [Hi _].
  { vm_compute. reflexivity. }
  cbn in Hi. apply NoDup_cons in Hi as [Hi _]. apply Hi. left.
Qed.

(** ** A new integer after an explicit block *)


Lemma write_intc_ref (a : Assembler) (index : Z) :
  0 <= index <= 255 ->
  write_intc index a = Returns tt (set_out (out a ++ intc_ref index) a).
Proof.
  intros H. unfold intc_ref. destruct (Z.leb_spec index 3).
  - apply write_intc_fast. lia.
  - apply write_intc_generic. lia.
Qed.

Lemma assemble_intcblock_returns op args a a1 :
  assemble_intcblock op args a = Returns tt a1 ->
  ints_of args = Ok (intc a1)
  /\ intcWritten a1 = true
  /\ write_intcblock (out a) (intc a1) = Some (out a1).
Proof.
  unfold assemble_intcblock. unfold_monad. cbv beta.
  destruct (ints_of args) as [vals|e]; cbn beta iota; [|discriminate].
  destruct (write_intcblock (out a) vals) as [out'|] eqn:Hw; cbn beta iota;
    [|discriminate].
  intros [= <-]. fields. auto.
Qed.


(** * Further properties of the code *)

(** ** The varuint codec *)

(** X1. [to_varuint] returns exactly on the non-negative integers: on a
    negative one its loop never reaches [x == 0], however many turns it is
    given. *)
Theorem to_varuint_returns_iff (x : Z) :
  (is_Some (to_varuint x) <-> 0 <= x)
  /\ (x < 0 -> forall fuel out, to_varuint_loop fuel x out = None).
Proof.
  split; [split|].
  - intros [bs H]. destruct (Z.lt_ge_cases x 0) as [Hneg|Hpos]; [|exact Hpos].
    rewrite (to_varuint_negative x Hneg) in H. discriminate.
  - apply to_varuint_returns.
  - intros Hneg fuel out. apply to_varuint_loop_negative. exact Hneg.
Qed.

(** The integers 300 and -1. *)
Lemma to_varuint_returns_iff_witness :
  is_Some (to_varuint 300) /\ to_varuint_loop 1000 (-1) [] = None.
Proof.
  split.
  - apply (proj1 (to_varuint_returns_iff 300)). lia.
  - apply (proj2 (to_varuint_returns_iff (-1))). lia.
Defined.

Lemma lor_continuation (t : Z) : 0 <= t < 128 -> Z.lor t 0x80 = t + 128.
Proof.
  intros H.
  assert (Hall : forallb (fun t => Z.lor t 0x80 =? t + 128) (seqZ 0 128) = true)
    by (vm_compute; reflexivity).
  rewrite forallb_forall in Hall.
  apply Z.eqb_eq. apply Hall. apply list_elem_of_In, elem_of_seqZ. lia.
Qed.

Lemma land_low7 (t : Z) : Z.land t 0x7f = t mod 128.
Proof. exact (Z.land_ones t 7 ltac:(lia)). Qed.

Lemma land_low7_continuation (t : Z) :
  0 <= t < 128 -> Z.land (t + 128) 0x7f = t.
Proof.
  intros H. rewrite land_low7.
  rewrite <- (Z.mul_1_l 128) at 1. rewrite Z.mod_add by lia.
  apply Z.mod_small. exact H.
Qed.

(** The bytes the loop appends to [out], for [x >= 1] when it is not the
    first turn. *)
Lemma to_varuint_loop_tail (fuel : nat) (x : Z) (out res : list Z) :
  1 <= x ->
  to_varuint_loop fuel x out = Some res ->
  exists bs, res = out ++ bs /\ varuint_tail bs /\ varuint_value bs = x.
Proof.
  revert x out. induction fuel as [|fuel IH]; intros x out Hx H; [discriminate|].
  cbn [to_varuint_loop] in H.
  pose proof (Z.mod_pos_bound x 128 ltac:(lia)) as Hm.
  pose proof (Z.div_mod x 128 ltac:(lia)) as Hd.
  rewrite Z.shiftr_div_pow2 in H by lia. change (2 ^ 7) with 128 in H.
  rewrite land_low7 in H.
  destruct (Z.eqb_spec (x / 128) 0) as [E|NE]; cbn [negb] in H.
  - injection H as <-. exists [x mod 128]. split; [reflexivity|].
    cbn [varuint_tail varuint_value]. rewrite land_low7, Z.mod_mod by lia.
    split; lia.
  - assert (Hq : 1 <= x / 128).
    { assert (0 <= x / 128) by (apply Z.div_pos; lia). lia. }
    apply IH in H as (bs & -> & Ht & Hv); [|exact Hq].
    exists (Z.lor (x mod 128) 0x80 :: bs). split; [rewrite <- app_assoc; reflexivity|].
    rewrite lor_continuation by lia.
    split.
    + destruct bs as [|b bs']; [destruct Ht|]. cbn [varuint_tail].
      split; [lia | exact Ht].
    + cbn [varuint_value]. rewrite land_low7_continuation by lia. lia.
Qed.

(** The bytes of [to_varuint x]: their shape and their value. *)
Lemma to_varuint_shape_value (x : Z) (bs : list Z) :
  to_varuint x = Some bs ->
  varuint_shape bs /\ varuint_value bs = x.
Proof.
  intros H.
  assert (Hx : 0 <= x).
  { destruct (Z.lt_ge_cases x 0) as [Hneg|Hpos]; [|exact Hpos].
    rewrite (to_varuint_negative x Hneg) in H. discriminate. }
  unfold to_varuint in H. cbn [to_varuint_loop] in H.
  pose proof (Z.mod_pos_bound x 128 ltac:(lia)) as Hm.
  pose proof (Z.div_mod x 128 ltac:(lia)) as Hd.
  rewrite Z.shiftr_div_pow2 in H by lia. change (2 ^ 7) with 128 in H.
  rewrite land_low7 in H.
  destruct (Z.eqb_spec (x / 128) 0) as [E|NE]; cbn [negb] in H.
  - injection H as <-. cbn [varuint_shape varuint_value app].
    rewrite land_low7, Z.mod_mod by lia. split; lia.
  - assert (Hq : 1 <= x / 128).
    { assert (0 <= x / 128) by (apply Z.div_pos; lia). lia. }
    apply to_varuint_loop_tail in H as (bs' & -> & Ht & Hv); [|exact Hq].
    rewrite lor_continuation by lia. cbn [app].
    split.
    + destruct bs' as [|b bs'']; [destruct Ht|]. cbn [varuint_shape].
      split; [lia | exact Ht].
    + cbn [varuint_value]. rewrite land_low7_continuation by lia. lia.
Qed.

(** X2. The bytes [to_varuint x] returns are [x] in the varuint format:
    they have the shape of one varuint (continuation bit on all bytes but
    the last, no zero byte at the end of a longer sequence, every byte
    below 256) and their value is [x]; so two integers with the same bytes
    are equal. *)
Theorem to_varuint_encodes (x : Z) (bs : list Z) :
  to_varuint x = Some bs ->
  varuint_shape bs /\ varuint_value bs = x
  /\ forall y, to_varuint y = Some bs -> y = x.
Proof.
  intros H. destruct (to_varuint_shape_value x bs H) as [Hs Hv].
  split; [exact Hs|]. split; [exact Hv|].
  intros y Hy. apply to_varuint_shape_value in Hy as [_ <-]. exact Hv.
Qed.

(** The integer 300. *)
Lemma to_varuint_encodes_witness :
  varuint_shape [0xac; 0x02] /\ varuint_value [0xac; 0x02] = 300
  /\ forall y, to_varuint y = Some [0xac; 0x02] -> y = 300.
Proof.
  apply (to_varuint_encodes 300). reflexivity.
Defined.

Lemma pow128_succ (n : nat) : 128 ^ Z.of_nat (S n) = 128 * 128 ^ Z.of_nat n.
Proof. rewrite Nat2Z.inj_succ. apply Z.pow_succ_r. lia. Qed.

Lemma varuint_tail_bounds (bs : list Z) :
  varuint_tail bs ->
  128 ^ (Z.of_nat (length bs) - 1) <= varuint_value bs < 128 ^ Z.of_nat (length bs).
Proof.
  induction bs as [|b bs IH]; [intros []|].
  destruct bs as [|b' bs'].
  - cbn [varuint_tail varuint_value length]. intros Hb.
    rewrite land_low7, Z.mod_small by lia. cbn. lia.
  - intros [Hb Ht]. specialize (IH Ht).
    change (varuint_value (b :: b' :: bs'))
      with (Z.land b 0x7f + 128 * varuint_value (b' :: bs')).
    remember (varuint_value (b' :: bs')) as v eqn:Ev. clear Ev.
    remember (b' :: bs') as tl eqn:Etl.
    assert (Hlen : (1 <= length tl)%nat) by (subst tl; cbn; lia).
    cbn [length]. rewrite pow128_succ.
    replace (Z.of_nat (S (length tl)) - 1) with (Z.of_nat (length tl)) by lia.
    destruct (length tl) as [|n]; [lia|].
    rewrite pow128_succ in *.
    replace (Z.of_nat (S n) - 1) with (Z.of_nat n) in IH by lia.
    pose proof (Z.mod_pos_bound b 128 ltac:(lia)) as Hm.
    rewrite land_low7.
    assert (0 < 128 ^ Z.of_nat n) by (apply Z.pow_pos_nonneg; lia).
    nia.
Qed.

(** X3. The size of a varuint: [to_varuint x] has the least number of
    bytes, at least one, whose seven-bit groups hold [x]; an integer below
    128 takes one byte. *)
Theorem to_varuint_size (x : Z) (bs : list Z) :
  to_varuint x = Some bs ->
  (1 <= length bs)%nat
  /\ x < 128 ^ Z.of_nat (length bs)
  /\ (length bs = 1%nat \/ 128 ^ (Z.of_nat (length bs) - 1) <= x)
  /\ (x < 128 -> bs = [x]).
Proof.
  intros H. pose proof (to_varuint_shape_value x bs H) as [Hs Hv].
  destruct bs as [|b bs']; [destruct Hs|].
  destruct bs' as [|b' bs''].
  - cbn [varuint_shape] in Hs. cbn [varuint_value] in Hv.
    rewrite Z.mul_0_r, Z.add_0_r, land_low7, Z.mod_small in Hv by lia. subst b.
    cbn [length]. split; [lia|]. split; [cbn; lia|]. split; [left; reflexivity|].
    reflexivity.
  - destruct Hs as [Hb Ht].
    pose proof (varuint_tail_bounds _ Ht) as Hbound.
    change (varuint_value (b :: b' :: bs''))
      with (Z.land b 0x7f + 128 * varuint_value (b' :: bs'')) in Hv.
    remember (varuint_value (b' :: bs'')) as v eqn:Ev. clear Ev.
    remember (b' :: bs'') as tl eqn:Etl.
    assert (Hlen : (1 <= length tl)%nat) by (subst tl; cbn; lia).
    pose proof (Z.mod_pos_bound b 128 ltac:(lia)) as Hm.
    rewrite land_low7 in Hv.
    cbn [length]. rewrite pow128_succ.
    replace (Z.of_nat (S (length tl)) - 1) with (Z.of_nat (length tl)) by lia.
    assert (Hpos : 1 <= 128 ^ (Z.of_nat (length tl) - 1)).
    { assert (0 < 128 ^ (Z.of_nat (length tl) - 1))
        by (apply Z.pow_pos_nonneg; lia). lia. }
    assert (Hstep : 128 ^ Z.of_nat (length tl)
                    = 128 * 128 ^ (Z.of_nat (length tl) - 1)).
    { rewrite <- Z.pow_succ_r by lia. f_equal. lia. }
    split; [lia|]. split; [nia|]. split; [right; nia|].
    intros Hsmall. exfalso. nia.
Qed.

(** The integers 5 and 300. *)
Lemma to_varuint_size_witness :
  ((1 <= 1)%nat /\ 5 < 128 ^ 1 /\ (1%nat = 1%nat \/ 128 ^ (1 - 1) <= 5)
   /\ (5 < 128 -> [5] = [5]))
  /\ ((1 <= 2)%nat /\ 300 < 128 ^ 2 /\ (2%nat = 1%nat \/ 128 ^ (2 - 1) <= 300)
      /\ (300 < 128 -> [0xac; 0x02] = [300])).
Proof.
  split; [apply (to_varuint_size 5 [5]) | apply (to_varuint_size 300 [0xac; 0x02])];
    reflexivity.
Defined.

(** ** Jobs that never return *)

Lemma write_varuints_hangs (out : list Z) (xs : list Z) :
  write_varuints out xs = None <-> Exists (fun x => x < 0) xs.
Proof.
  revert out. induction xs as [|x xs IH]; intros out; cbn [write_varuints].
  - split; [discriminate | intros H; inversion H].
  - rewrite Exists_cons. destruct (to_varuint x) as [b|] eqn:Hx.
    + rewrite IH. split; [auto|]. intros [Hneg|H]; [|exact H].
      rewrite (to_varuint_negative x Hneg) in Hx. discriminate.
    + split; [intros _|reflexivity]. left.
      destruct (Z.lt_ge_cases x 0) as [Hneg|Hpos]; [exact Hneg|].
      apply to_varuint_returns in Hpos as [b Hb]. congruence.
Qed.

Lemma to_varuint_length {A} (l : list A) : is_Some (to_varuint (Z.of_nat (length l))).
Proof. apply to_varuint_returns. lia. Qed.

(** Writing an integer block never returns exactly when one of its values
    is negative. *)
Lemma write_intcblock_hangs_iff (out : list Z) (intc : list Z) :
  write_intcblock out intc = None <-> Exists (fun x => x < 0) intc.
Proof.
  unfold write_intcblock.
  destruct (to_varuint_length intc) as [n ->].
  apply write_varuints_hangs.
Qed.

Lemma write_byte_consts_returns (out : list Z) (xs : list (list Z)) :
  is_Some (write_byte_consts out xs).
Proof.
  revert out. induction xs as [|x xs IH]; intros out; cbn [write_byte_consts].
  - eexists; reflexivity.
  - destruct (to_varuint_length x) as [n ->]. apply IH.
Qed.

Lemma write_bytecblock_returns (out : list Z) (bytec : list (list Z)) :
  is_Some (write_bytecblock out bytec).
Proof.
  unfold write_bytecblock. destruct (to_varuint_length bytec) as [n ->].
  apply write_byte_consts_returns.
Qed.

Lemma resolve_reference_ends ref a : resolve_reference ref a <> Hangs.
Proof.
  destruct ref as [[sourceLine pc] label].
  unfold resolve_reference. unfold_monad. cbv beta.
  repeat (destruct_inner; simplify_eq; cbn beta iota); discriminate.
Qed.

Lemma for_each_resolve_ends refs a :
  for_each resolve_reference refs a <> Hangs.
Proof.
  revert a. induction refs as [|ref refs IH]; intros a; [discriminate|].
  cbn [for_each]. unfold bind.
  pose proof (resolve_reference_ends ref a) as Hr.
  destruct (resolve_reference ref a) as [[] a1|e a1|]; [apply IH|discriminate|].
  contradiction.
Qed.

Lemma resolveLabels_ends a : resolveLabels a <> Hangs.
Proof.
  unfold resolveLabels, bind, get.
  destruct (labelReferences a) as [|ref refs]; [discriminate|].
  pose proof (for_each_resolve_ends (ref :: refs) a) as Hr.
  change (resolve_reference ref ;; for_each resolve_reference refs)
    with (for_each resolve_reference (ref :: refs)).
  destruct (for_each resolve_reference (ref :: refs) a) as [[] a1|e a1|];
    [discriminate|discriminate|contradiction].
Qed.

(** X4. [getBytes] never returns exactly when the version is negative, or
    the integer pool is due for its block and holds a negative value (as
    after the line [int -1]); otherwise it returns or raises. *)
Theorem getBytes_hangs_iff (a : Assembler) :
  getBytes a = Hangs
  <-> version a < 0
      \/ (int_block_due a = true /\ Exists (fun x => x < 0) (intc a)).
Proof.
  rewrite getBytes_unfold.
  destruct (to_varuint (version a)) as [v|] eqn:Hv.
  - assert (Hver : 0 <= version a).
    { destruct (Z.lt_ge_cases (version a) 0) as [Hneg|Hpos]; [|exact Hpos].
      rewrite (to_varuint_negative _ Hneg) in Hv. discriminate. }
    unfold block_if.
    destruct (write_bytecblock_returns [] (bytec a)) as [bb Hbb].
    assert (Hb : exists bb', (if byte_block_due a
                              then write_bytecblock [] (bytec a) else Some [])
                             = Some bb').
    { destruct (byte_block_due a); eauto. }
    destruct Hb as [bb' ->].
    pose proof (resolveLabels_ends a) as Hr.
    destruct (int_block_due a).
    + destruct (write_intcblock [] (intc a)) as [ib|] eqn:Hib.
      * split.
        -- destruct (resolveLabels a); [discriminate|discriminate|contradiction].
        -- intros [H|[_ H]]; [lia|].
           apply write_intcblock_hangs_iff with (out := []) in H. congruence.
      * split; [intros _|reflexivity]. right. split; [reflexivity|].
        apply (write_intcblock_hangs_iff []). exact Hib.
    + split.
      * destruct (resolveLabels a); [discriminate|discriminate|contradiction].
      * intros [H|[H _]]; [lia|discriminate].
  - split; [intros _|reflexivity]. left.
    destruct (Z.lt_ge_cases (version a) 0) as [Hneg|Hpos]; [exact Hneg|].
    apply to_varuint_returns in Hpos as [b Hb]. congruence.
Qed.

Example ex_int_negative_hangs :
  AssembleString no_address sample_ops "int -1" = Never.
Proof. vm_compute. reflexivity. Qed.

Example ex_intcblock_negative_hangs :
  AssembleString no_address sample_ops "intcblock 1 -2" = Never.
Proof. vm_compute. reflexivity. Qed.

Ltac ends_done :=
  first
    [ discriminate
    | exfalso;
      match goal with
      | H : parse_byte_constants _ _ _ = None |- _ =>
          exact (parse_byte_constants_ends _ _ _ (Nat.le_refl _) H)
      | H : write_bytecblock ?o ?b = None |- _ =>
          destruct (write_bytecblock_returns o b) as [? ?]; congruence
      end ].

Section Hangs.

Variable decode_address : string -> result (list Z).

Lemma handler_ends name fn op args a :
  handler decode_address name = Some fn ->
  String.eqb name "intcblock" = false ->
  fn op args a <> Hangs.
Proof.
  unfold handler. intros H Hi.
  repeat case_match; simplify_eq; run_method; ends_done.
Qed.

Lemma assemble_intcblock_hangs_iff op args a :
  assemble_intcblock op args a = Hangs
  <-> exists vals, ints_of args = Ok vals /\ Exists (fun x => x < 0) vals.
Proof.
  unfold assemble_intcblock. unfold_monad. cbv beta.
  destruct (ints_of args) as [vals|e]; cbn beta iota.
  - destruct (write_intcblock (out a) vals) as [o|] eqn:Hw; cbn beta iota.
    + split; [discriminate|]. intros (vals' & [= <-] & Hneg).
      apply (write_intcblock_hangs_iff (out a)) in Hneg. congruence.
    + split; [intros _|reflexivity]. exists vals. split; [reflexivity|].
      apply (write_intcblock_hangs_iff (out a)). exact Hw.
  - split; [discriminate|]. intros (vals & [=] & _).
Qed.

Lemma assembleParts_hangs_iff parts a :
  assembleParts decode_address parts a = Hangs <-> negative_intcblock parts.
Proof.
  unfold negative_intcblock. destruct parts as [|p0 args].
  - split; [discriminate|]. intros (? & ? & [=] & _).
  - unfold assembleParts. unfold bind at 1, get.
    destruct (String.eqb p0 "intcblock") eqn:Ei.
    + rewrite (handler_block decode_address _ Ei).
      rewrite assemble_intcblock_hangs_iff.
      apply String.eqb_eq in Ei. subst p0.
      split.
      * intros (vals & Hv & Hn). exists args, vals. auto.
      * intros (args' & vals & [= <-] & Hv & Hn). exists vals. auto.
    + split.
      * intros H. exfalso. revert H.
        destruct (handler decode_address p0) as [fn|] eqn:Hfn.
        -- eapply handler_ends; eassumption.
        -- run_method; ends_done.
      * intros (args' & vals & [= -> _] & _). discriminate.
Qed.

Lemma assembleLine_hangs_iff rawline a :
  assembleLine decode_address rawline a = Hangs
  <-> negative_intcblock (line_parts rawline).
Proof.
  assert (Hno : ~ negative_intcblock []) by (intros (? & ? & [=] & _)).
  unfold line_parts, assembleLine.
  destruct (String.eqb rawline ""); [split; [discriminate|contradiction]|].
  destruct (String.eqb (Py.strip rawline) ""); [split; [discriminate|contradiction]|].
  destruct (Py.startswith (Py.strip rawline) "//");
    [split; [discriminate|contradiction]|].
  destruct (Py.split (Py.strip rawline)) as [|p ps] eqn:Es.
  - split; [discriminate|]. cbn. contradiction.
  - apply assembleParts_hangs_iff.
Qed.

(** X5. A source line never returns exactly when it is an [intcblock]
    instruction whose arguments are all integers for [int] and one of them
    is negative; every other line returns or raises. So a line pass that
    never returns holds such a line. *)
Theorem line_hangs_iff :
  (forall rawline a,
     assembleLine decode_address rawline a = Hangs
     <-> negative_intcblock (line_parts rawline))
  /\ (forall lines a,
        assembleLineSource decode_address lines a = Hangs ->
        Exists (fun line => negative_intcblock (line_parts line)) lines).
Proof.
  split; [exact assembleLine_hangs_iff|].
  unfold assembleLineSource. intros lines.
  induction lines as [|line lines IH]; intros a H; [discriminate|].
  cbn [for_each] in H. unfold bind in H.
  destruct (next_line decode_address line a) as [[] a1|e a1|] eqn:Hn.
  - right. eapply IH. exact H.
  - discriminate.
  - left. unfold next_line, bind, modify in Hn.
    destruct (assembleLine decode_address line _) as [[] a2|e a2|] eqn:Hl;
      try discriminate.
    apply assembleLine_hangs_iff in Hl. exact Hl.
Qed.

End Hangs.

(** A pass over [pop] and [intcblock 1 -2]. *)
Lemma line_hangs_iff_witness :
  Exists (fun line => negative_intcblock (line_parts line))
         ["pop"; "intcblock 1 -2"].
Proof.
  apply (proj2 (line_hangs_iff no_address) _ (Assembler_init sample_ops "" 1)).
  vm_compute. reflexivity.
Defined.

(** ** What a session accumulates *)

Lemma grows_refl a : grows a a.
Proof.
  split; try reflexivity; try (exists []; symmetry; apply app_nil_r); auto.
Qed.

Lemma grows_trans a b c : grows a b -> grows b c -> grows a c.
Proof.
  intros [[s1 O1] L1 [r1 R1] I1 B1 V1 T1] [[s2 O2] L2 [r2 R2] I2 B2 V2 T2].
  split; try congruence; auto.
  - exists (s1 ++ s2). rewrite O2, O1. symmetry. apply app_assoc.
  - etransitivity; eassumption.
  - exists (r1 ++ r2). rewrite R2, R1. symmetry. apply app_assoc.
Qed.

Ltac grows_out_done :=
  first
    [ eexists; reflexivity
    | exists []; symmetry; apply app_nil_r
    | match goal with
      | H : write_intcblock _ _ = Some _ |- _ =>
          apply write_intcblock_app in H; exact H
      | H : write_bytecblock _ _ = Some _ |- _ =>
          apply write_bytecblock_app in H; exact H
      end ].

Ltac grows_done :=
  first
    [ apply grows_refl
    | split; fields;
      [ grows_out_done
      | first [ reflexivity | apply insert_subseteq; assumption ]
      | first [ eexists; reflexivity | exists []; symmetry; apply app_nil_r ]
      | auto
      | auto
      | reflexivity
      | reflexivity ] ].

Section Grows.

Variable decode_address : string -> result (list Z).

Lemma handler_grows name fn op args a :
  handler decode_address name = Some fn -> post (grows a) (fn op args a).
Proof.
  unfold handler. intros H.
  repeat case_match; simplify_eq; unfold post; run_method; try exact I;
    grows_done.
Qed.

Lemma assembleParts_grows parts a :
  post (grows a) (assembleParts decode_address parts a).
Proof.
  unfold assembleParts. destruct parts as [|p0 args]; [apply grows_refl|].
  unfold bind at 1, get.
  destruct (handler decode_address p0) as [fn|] eqn:Hfn.
  - eapply handler_grows; exact Hfn.
  - unfold post. run_method; try exact I; grows_done.
Qed.

Lemma assembleLine_grows rawline a :
  post (grows a) (assembleLine decode_address rawline a).
Proof.
  unfold assembleLine.
  repeat (destruct_inner; try apply grows_refl).
  apply assembleParts_grows.
Qed.

Lemma next_line_grows line a :
  post (grows a) (next_line decode_address line a).
Proof.
  unfold next_line, bind, modify.
  pose proof (assembleLine_grows line (set_sourceLine (sourceLine a + 1) a)) as H.
  destruct (assembleLine _ _ _) as [[] a1|e a1|]; cbn in *; [| |exact I];
    (eapply grows_trans; [|exact H]); split; fields;
    try reflexivity; auto; exists []; symmetry; apply app_nil_r.
Qed.

Lemma assembleLineSource_grows lines a :
  post (grows a) (assembleLineSource decode_address lines a).
Proof.
  unfold assembleLineSource. revert a.
  induction lines as [|line lines IH]; intros a; [apply grows_refl|].
  cbn [for_each]. unfold bind.
  pose proof (next_line_grows line a) as Hn.
  destruct (next_line decode_address line a) as [[] a1|e a1|]; cbn in Hn |- *;
    [|exact Hn|exact I].
  specialize (IH a1).
  destruct (for_each _ lines a1) as [[] a2|e a2|]; cbn in IH |- *;
    [| |exact I]; eapply grows_trans; eassumption.
Qed.

(** X6. Whatever the lines, and whether the pass returns or raises, the
    session it leaves extends the one it started from: the output is the
    old output with bytes appended (nothing emitted is rewritten or
    withdrawn), every label keeps the offset it was declared with, the
    references recorded stay in their order, a written flag that was set is
    still set, and the version and the opcode table are the same. *)
Theorem line_pass_grows (lines : list string) (a a' : Assembler) :
  assembleLineSource decode_address lines a = Returns tt a'
  \/ (exists e, assembleLineSource decode_address lines a = Raises e a') ->
  (exists suffix, out a' = out a ++ suffix)
  /\ (forall label offset,
        labels a !! label = Some offset -> labels a' !! label = Some offset)
  /\ (exists more, labelReferences a' = labelReferences a ++ more)
  /\ (intcWritten a = true -> intcWritten a' = true)
  /\ (bytecWritten a = true -> bytecWritten a' = true)
  /\ version a' = version a
  /\ opByName a' = opByName a.
Proof.
  intros H. pose proof (assembleLineSource_grows lines a) as Hg.
  assert (G : grows a a') by (destruct H as [H|[e H]]; rewrite H in Hg; exact Hg).
  destruct G as [O L R I B V T].
  repeat split; try assumption.
  intros label offset Hl. eapply lookup_weaken; eassumption.
Qed.

End Grows.

(** A label, a branch to a later label and an integer, on a session that
    holds a byte and a label already. *)
Lemma line_pass_grows_witness :
  let a := mkAssembler [0x48] [] false [] false "" 1 (<["top" := 0]> ∅) [] ∅ 1 in
  let a' := mkAssembler [0x48; 0x40; 0; 0; 0x22] [7] false [] false "" 4
              (<["mid" := 1]> (<["top" := 0]> ∅)) [(3, 1, "end")] ∅ 1 in
  (exists suffix, out a' = out a ++ suffix)
  /\ (forall label offset,
        labels a !! label = Some offset -> labels a' !! label = Some offset)
  /\ (exists more, labelReferences a' = labelReferences a ++ more)
  /\ (intcWritten a = true -> intcWritten a' = true)
  /\ (bytecWritten a = true -> bytecWritten a' = true)
  /\ version a' = version a
  /\ opByName a' = opByName a.
Proof.
  intros a a'.
  apply (line_pass_grows no_address ["mid:"; "bnz end"; "int 7"] a a').
  left. vm_compute. reflexivity.
Defined.

(** ** Labels and references fit the output *)

Lemma session_wf_grow a a' :
  session_wf a ->
  labels a' = labels a ->
  labelReferences a' = labelReferences a ->
  (exists suffix, out a' = out a ++ suffix) ->
  session_wf a'.
Proof.
  intros [L R S B] Hl Hr [s Hs]. split.
  - unfold labels_in_range in *. rewrite Hl, Hs, length_app.
    eapply map_Forall_impl; [exact L|]. cbn beta. intros; lia.
  - eapply references_in_range_grow; [exact R|exact Hr|eexists; exact Hs].
  - rewrite Hr. exact S.
  - rewrite Hr, Hs.
    unfold references_in_range, reference_in_range in R.
    rewrite Forall_forall in R, B. apply Forall_forall. intros ref Hin.
    rewrite lookup_app_l; [apply B; exact Hin|].
    specialize (R ref Hin). lia.
Qed.

Lemma session_wf_setLabel a label :
  session_wf a ->
  session_wf (set_labels (<[label := Z.of_nat (length (out a))]> (labels a)) a).
Proof.
  intros [L R S B]. split; try assumption.
  unfold labels_in_range in *. cbn [labels out set_labels].
  apply map_Forall_insert_2; [lia | exact L].
Qed.

Lemma session_wf_bnz a sourceLine label :
  session_wf a ->
  session_wf
    (set_out (out a ++ [0x40; 0x00; 0x00])
       (set_labelReferences
          (labelReferences a ++ [(sourceLine, Z.of_nat (length (out a)), label)]) a)).
Proof.
  intros [L R S B]. split.
  - unfold labels_in_range in *. cbn [labels out set_out set_labelReferences].
    rewrite length_app. eapply map_Forall_impl; [exact L|]. cbn beta. intros; lia.
  - apply references_in_range_bnz. exact R.
  - cbn [labelReferences set_out set_labelReferences].
    apply StronglySorted_app. split; [|split; [exact S|repeat constructor]].
    intros r1 r2 H1 H2. apply list_elem_of_singleton in H2. subst r2.
    unfold references_in_range, reference_in_range in R.
    rewrite Forall_forall in R. specialize (R r1 H1).
    unfold spaced. cbn. lia.
  - cbn [labelReferences out set_out set_labelReferences].
    apply Forall_app. split.
    + unfold references_in_range, reference_in_range in R.
      rewrite Forall_forall in R, B. apply Forall_forall. intros ref Hin.
      rewrite lookup_app_l; [apply B; exact Hin|].
      specialize (R ref Hin). lia.
    + constructor; [|constructor]. cbn [fst snd].
      rewrite Nat2Z.id. rewrite lookup_app_r by lia.
      rewrite Nat.sub_diag. reflexivity.
Qed.

Ltac wf_done :=
  first
    [ assumption
    | match goal with
      | H : session_wf ?a |- _ => exact (session_wf_bnz a _ _ H)
      end
    | match goal with
      | H : session_wf ?a |- _ => exact (session_wf_setLabel a _ H)
      end
    | eapply session_wf_grow;
      [ eassumption | reflexivity | reflexivity | grows_out_done ] ].

Section WellFormed.

Variable decode_address : string -> result (list Z).

Lemma handler_wf name fn op args a :
  handler decode_address name = Some fn ->
  session_wf a -> post session_wf (fn op args a).
Proof.
  unfold handler. intros H Ha.
  repeat case_match; simplify_eq; unfold post; run_method; try exact I; wf_done.
Qed.

Lemma assembleParts_wf parts a :
  session_wf a -> post session_wf (assembleParts decode_address parts a).
Proof.
  intros Ha. unfold assembleParts. destruct parts as [|p0 args]; [exact Ha|].
  unfold bind at 1, get.
  destruct (handler decode_address p0) as [fn|] eqn:Hfn.
  - eapply handler_wf; [exact Hfn|exact Ha].
  - unfold post. run_method; try exact I; wf_done.
Qed.

Lemma next_line_wf line a :
  session_wf a -> post session_wf (next_line decode_address line a).
Proof.
  intros Ha. unfold next_line, bind, modify.
  assert (Hb : session_wf (set_sourceLine (sourceLine a + 1) a)).
  { destruct Ha as [L R S B]. split; assumption. }
  revert Hb. generalize (set_sourceLine (sourceLine a + 1) a). intros b Hb.
  unfold assembleLine.
  repeat (destruct_inner; try exact Hb).
  apply assembleParts_wf. exact Hb.
Qed.

Lemma assembleLineSource_wf lines a :
  session_wf a -> post session_wf (assembleLineSource decode_address lines a).
Proof.
  unfold assembleLineSource. revert a.
  induction lines as [|line lines IH]; intros a Ha; [exact Ha|].
  cbn [for_each]. unfold bind.
  pose proof (next_line_wf line a Ha) as Hn.
  destruct (next_line decode_address line a) as [[] a1|e a1|]; cbn in Hn |- *;
    [apply IH; exact Hn | exact Hn | exact I].
Qed.

(** X7. The labels and references of a session always fit its output. For
    a fresh session and after any lines, returned or raised: each label
    offset is between 0 and the length of the output; each recorded
    reference is at a position that holds the branch opcode [0x40] and has
    its two offset bytes inside the output; and the references are in the
    order of their positions, at least three bytes apart. *)
Theorem line_pass_well_formed (ops : list OpSpec) (name : string) (version0 : Z)
        (lines : list string) (a' : Assembler) :
  assembleLineSource decode_address lines (Assembler_init ops name version0)
  = Returns tt a'
  \/ (exists e, assembleLineSource decode_address lines
                  (Assembler_init ops name version0) = Raises e a') ->
  (forall label offset,
     labels a' !! label = Some offset ->
     0 <= offset <= Z.of_nat (length (out a')))
  /\ (forall sourceLine pc label,
        (sourceLine, pc, label) ∈ labelReferences a' ->
        0 <= pc /\ pc + 3 <= Z.of_nat (length (out a'))
        /\ out a' !! Z.to_nat pc = Some 0x40)
  /\ StronglySorted spaced (labelReferences a').
Proof.
  intros H.
  assert (W0 : session_wf (Assembler_init ops name version0)).
  { split; [apply map_Forall_empty| | |]; constructor. }
  pose proof (assembleLineSource_wf lines _ W0) as Hw.
  assert (W : session_wf a') by (destruct H as [H|[e H]]; rewrite H in Hw; exact Hw).
  destruct W as [L R S B]. split; [|split; [|exact S]].
  - intros label offset Hl. exact (L label offset Hl).
  - intros sourceLine pc label Hin.
    unfold references_in_range in R. rewrite Forall_forall in R, B.
    destruct (R _ Hin) as [H0 H3]. specialize (B _ Hin). cbn in *. auto.
Qed.

End WellFormed.

(** Two branches and two labels. *)
Lemma line_pass_well_formed_witness :
  let a' := mkAssembler [0x40; 0; 0; 0x40; 0; 0; 0x48] [] false [] false "" 5
              (<["b" := 7]> (<["a" := 6]> ∅)) [(1, 0, "a"); (2, 3, "b")]
              (ops_by_name sample_ops) 1 in
  (forall label offset,
     labels a' !! label = Some offset ->
     0 <= offset <= Z.of_nat (length (out a')))
  /\ (forall sourceLine pc label,
        (sourceLine, pc, label) ∈ labelReferences a' ->
        0 <= pc /\ pc + 3 <= Z.of_nat (length (out a'))
        /\ out a' !! Z.to_nat pc = Some 0x40)
  /\ StronglySorted spaced (labelReferences a').
Proof.
  intros a'.
  apply (line_pass_well_formed no_address sample_ops "" 1
           ["bnz a"; "bnz b"; "a:"; "pop"; "b:"] a').
  left. vm_compute. reflexivity.
Defined.

(** ** [resolveLabels] on the session of a line pass *)

Lemma resolve_reference_returns a a1 sourceLine pc label :
  0 <= pc -> pc + 3 <= Z.of_nat (length (out a)) ->
  resolve_reference (sourceLine, pc, label) a = Returns tt a1 ->
  exists dest,
    labels a !! label = Some dest
    /\ pc + 3 <= dest /\ dest - (pc + 3) <= 0x7fff
    /\ a1 = patched pc (Z.shiftr (dest - (pc + 3)) 8)
                      (Z.land (dest - (pc + 3)) 0x0ff) a.
Proof.
  intros H0 H3 H.
  destruct (labels a !! label) as [dest|] eqn:Hl.
  - destruct (Z.lt_ge_cases dest (pc + 3)) as [Hb|Hf].
    + exfalso. revert H. unfold resolve_reference. unfold_monad. cbv beta.
      rewrite Hl.
      replace (dest <? pc + 3) with true by (symmetry; apply Z.ltb_lt; lia).
      discriminate.
    + destruct (Z.lt_ge_cases 0x7fff (dest - (pc + 3))) as [Hfar|Hnear].
      * exfalso. revert H. unfold resolve_reference. unfold_monad. cbv beta.
        rewrite Hl.
        replace (dest <? pc + 3) with false by (symmetry; apply Z.ltb_ge; lia).
        replace (32767 <? dest - (pc + 3)) with true
          by (symmetry; apply Z.ltb_lt; lia).
        discriminate.
      * rewrite (resolve_reference_patches a sourceLine pc label dest) in H
          by (try assumption; lia).
        injection H as <-. exists dest. repeat split; try assumption; lia.
  - exfalso. revert H. unfold resolve_reference. unfold_monad. cbv beta.
    rewrite Hl. discriminate.
Qed.

Lemma resolve_reference_raises a a1 e ref :
  reference_in_range a ref ->
  resolve_reference ref a = Raises e a1 ->
  a1 = a /\ resolve_error a ref e.
Proof.
  destruct ref as [[sourceLine pc] label]. intros [H0 H3]. cbn [fst snd] in *.
  unfold resolve_error.
  destruct (labels a !! label) as [dest|] eqn:Hl.
  - destruct (Z.lt_ge_cases dest (pc + 3)) as [Hb|Hf].
    + unfold resolve_reference. unfold_monad. cbv beta. rewrite Hl.
      replace (dest <? pc + 3) with true by (symmetry; apply Z.ltb_lt; lia).
      intros [= <- <-]. split; [reflexivity|]. left. auto.
    + destruct (Z.lt_ge_cases 0x7fff (dest - (pc + 3))) as [Hfar|Hnear].
      * unfold resolve_reference. unfold_monad. cbv beta. rewrite Hl.
        replace (dest <? pc + 3) with false by (symmetry; apply Z.ltb_ge; lia).
        replace (32767 <? dest - (pc + 3)) with true
          by (symmetry; apply Z.ltb_lt; lia).
        intros [= <- <-]. split; [reflexivity|]. right. auto.
      * rewrite (resolve_reference_patches a sourceLine pc label dest)
          by (try assumption; lia).
        discriminate.
  - unfold resolve_reference. unfold_monad. cbv beta. rewrite Hl.
    intros [= <- <-]. auto.
Qed.

Lemma patched_in_range pc hi lo a refs :
  Forall (reference_in_range a) refs ->
  Forall (reference_in_range (patched pc hi lo a)) refs.
Proof.
  intros H. eapply Forall_impl; [exact H|].
  intros r [Hr0 Hr3]. unfold reference_in_range, patched. cbn [out set_out].
  rewrite !length_insert. auto.
Qed.

(** What the loop of [resolveLabels] leaves when it returns. *)
Lemma for_each_resolve_returns refs a a' :
  Forall (reference_in_range a) refs ->
  StronglySorted spaced refs ->
  for_each resolve_reference refs a = Returns tt a' ->
  a' = set_out (out a') a
  /\ length (out a') = length (out a)
  /\ (forall sourceLine pc label,
        (sourceLine, pc, label) ∈ refs ->
        exists dest,
          labels a !! label = Some dest
          /\ pc + 3 <= dest /\ dest - (pc + 3) <= 0x7fff
          /\ out a' !! Z.to_nat (pc + 1) = Some (Z.shiftr (dest - (pc + 3)) 8)
          /\ out a' !! Z.to_nat (pc + 2) = Some (Z.land (dest - (pc + 3)) 0x0ff))
  /\ (forall i,
        (forall r, r ∈ refs ->
                   i <> Z.to_nat (snd (fst r) + 1) /\ i <> Z.to_nat (snd (fst r) + 2)) ->
        out a' !! i = out a !! i).
Proof.
  revert a. induction refs as [|[[sourceLine pc] label] refs IH]; intros a Hr Hs H.
  - cbn in H. unfold ret in H. injection H as <-.
    split; [destruct a; reflexivity|]. split; [reflexivity|].
    split; [intros ? ? ? Hin; inversion Hin | reflexivity].
  - cbn [for_each] in H. unfold bind in H.
    apply Forall_cons in Hr as [[H0 H3] Hr]. cbn [fst snd] in H0, H3.
    apply StronglySorted_cons in Hs as [Hhd Hs].
    destruct (resolve_reference (sourceLine, pc, label) a) as [[] a1|e a1|] eqn:H1;
      [|discriminate..].
    apply resolve_reference_returns in H1 as (dest & Hl & Hf & Hn & ->);
      [|assumption..].
    set (hi := Z.shiftr (dest - (pc + 3)) 8) in *.
    set (lo := Z.land (dest - (pc + 3)) 0x0ff) in *.
    specialize (IH (patched pc hi lo a) (patched_in_range _ _ _ _ _ Hr) Hs H).
    destruct IH as (Ha' & Hlen & Hrefs & Hrest).
    assert (Hout : out (patched pc hi lo a)
                   = <[Z.to_nat (pc + 2) := lo]> (<[Z.to_nat (pc + 1) := hi]> (out a)))
      by reflexivity.
    split; [rewrite Ha'; destruct a; reflexivity|].
    split; [rewrite Hlen, Hout, !length_insert; reflexivity|].
    split.
    + intros sl p lb Hin. apply elem_of_cons in Hin as [[= -> -> ->]|Hin].
      * exists dest. split; [exact Hl|]. split; [exact Hf|]. split; [exact Hn|].
        assert (Hfar : forall r, r ∈ refs ->
                  forall k, (k = Z.to_nat (pc + 1) \/ k = Z.to_nat (pc + 2)) ->
                  k <> Z.to_nat (snd (fst r) + 1) /\ k <> Z.to_nat (snd (fst r) + 2)).
        { intros r Hr' k Hk. rewrite Forall_forall in Hhd.
          specialize (Hhd r Hr'). unfold spaced in Hhd. cbn [fst snd] in Hhd. lia. }
        split.
        -- rewrite Hrest by (intros r Hr'; apply Hfar; auto).
           rewrite Hout. rewrite list_lookup_insert_ne by lia.
           apply list_lookup_insert_eq. lia.
        -- rewrite Hrest by (intros r Hr'; apply Hfar; auto).
           rewrite Hout. apply list_lookup_insert_eq. rewrite length_insert. lia.
      * destruct (Hrefs sl p lb Hin) as (d & Hd & ?). exists d. split; [exact Hd|].
        assumption.
    + intros i Hi. rewrite Hrest by (intros r Hr'; apply Hi; right; exact Hr').
      destruct (Hi (sourceLine, pc, label) ltac:(left)) as [Hi1 Hi2].
      cbn [fst snd] in Hi1, Hi2.
      rewrite Hout, !list_lookup_insert_ne by auto. reflexivity.
Qed.

Lemma spaced_apart refs (r1 r2 : Z * Z * string) :
  StronglySorted spaced refs -> r1 ∈ refs -> r2 ∈ refs ->
  r1 = r2 \/ spaced r1 r2 \/ spaced r2 r1.
Proof.
  induction refs as [|r refs IH]; intros Hs H1 H2; [inversion H1|].
  apply StronglySorted_cons in Hs as [Hhd Hs]. rewrite Forall_forall in Hhd.
  apply elem_of_cons in H1 as [->|H1]; apply elem_of_cons in H2 as [->|H2]; auto.
Qed.

(** The stream [resolveLabels] returns, byte by byte. *)
Lemma resolveLabels_patches (a a' : Assembler) (program : list Z) :
  session_wf a ->
  resolveLabels a = Returns program a' ->
  program = out a'
  /\ length program = length (out a)
  /\ (forall sourceLine pc label,
        (sourceLine, pc, label) ∈ labelReferences a ->
        exists dest,
          labels a !! label = Some dest
          /\ pc + 3 <= dest /\ dest - (pc + 3) <= 0x7fff
          /\ program !! Z.to_nat pc = Some 0x40
          /\ program !! Z.to_nat (pc + 1) = Some (Z.shiftr (dest - (pc + 3)) 8)
          /\ program !! Z.to_nat (pc + 2) = Some (Z.land (dest - (pc + 3)) 0x0ff))
  /\ (forall i,
        (forall r, r ∈ labelReferences a ->
                   i <> Z.to_nat (snd (fst r) + 1) /\ i <> Z.to_nat (snd (fst r) + 2)) ->
        program !! i = out a !! i).
Proof.
  intros [L R S B] H. unfold resolveLabels, bind, get in H.
  destruct (labelReferences a) as [|ref refs] eqn:Hrefs.
  - unfold ret in H. injection H as <- <-.
    split; [reflexivity|]. split; [reflexivity|].
    split; [intros ? ? ? Hin; inversion Hin | reflexivity].
  - change (resolve_reference ref ;; for_each resolve_reference refs)
      with (for_each resolve_reference (ref :: refs)) in H.
    destruct (for_each resolve_reference (ref :: refs) a) as [[] a1|e a1|] eqn:Hf;
      [|discriminate..].
    unfold ret in H. injection H as <- <-.
    unfold references_in_range in R. rewrite Hrefs in R.
    destruct (for_each_resolve_returns _ _ _ R S Hf) as (Ha & Hlen & Hp & Hrest).
    split; [reflexivity|]. split; [exact Hlen|]. split; [|exact Hrest].
    intros sourceLine pc label Hin.
    destruct (Hp _ _ _ Hin) as (dest & Hl & Hfw & Hn & Hhi & Hlo).
    exists dest. repeat split; try assumption.
    rewrite Hrest.
    + rewrite Forall_forall in B. exact (B _ Hin).
    + intros r Hr.
      rewrite Forall_forall in R. destruct (R _ Hr) as [Hr0 _].
      destruct (R _ Hin) as [Hp0 _]. cbn [fst snd] in Hp0.
      destruct (spaced_apart _ _ _ S Hin Hr) as [<-|[Hsp|Hsp]];
        unfold spaced in *; cbn [fst snd] in *; lia.
Qed.

(** X8. On a session whose references fit its output (as every line pass
    leaves it), a [resolveLabels] that returns gives the instruction stream
    with exactly the offset bytes filled in: the length is unchanged; for
    every reference the label is defined at or after the end of the branch
    and the bytes at [pc + 1] and [pc + 2] are the high and the low byte of
    [labelOffset - (pc + 3)], the opcode [0x40] at [pc] being kept; every
    byte that is no offset byte of a reference is as the line pass wrote
    it. *)
Theorem resolveLabels_returns (a a' : Assembler) (program : list Z) :
  session_wf a ->
  resolveLabels a = Returns program a' ->
  program = out a'
  /\ length program = length (out a)
  /\ (forall sourceLine pc label,
        (sourceLine, pc, label) ∈ labelReferences a ->
        exists dest,
          labels a !! label = Some dest
          /\ pc + 3 <= dest /\ dest - (pc + 3) <= 0x7fff
          /\ program !! Z.to_nat pc = Some 0x40
          /\ program !! Z.to_nat (pc + 1) = Some (Z.shiftr (dest - (pc + 3)) 8)
          /\ program !! Z.to_nat (pc + 2) = Some (Z.land (dest - (pc + 3)) 0x0ff))
  /\ (forall i,
        (forall r, r ∈ labelReferences a ->
                   i <> Z.to_nat (snd (fst r) + 1) /\ i <> Z.to_nat (snd (fst r) + 2)) ->
        program !! i = out a !! i).
Proof.
  intros W H. apply (resolveLabels_patches a a' program W H).
Qed.

(** The session of [bnz a], [bnz b], [a:], [pop], [b:]. *)
Lemma resolveLabels_returns_witness :
  let a := mkAssembler [0x40; 0; 0; 0x40; 0; 0; 0x48] [] false [] false "" 5
             (<["b" := 7]> (<["a" := 6]> ∅)) [(1, 0, "a"); (2, 3, "b")] ∅ 1 in
  let program := [0x40; 0; 3; 0x40; 0; 1; 0x48] in
  length program = length (out a)
  /\ program !! Z.to_nat (3 + 2) = Some 1.
Proof.
  intros a program.
  assert (W : session_wf a).
  { split.
    - unfold labels_in_range, a. cbn [labels out].
      apply map_Forall_insert_2; [cbn; lia|].
      apply map_Forall_insert_2; [cbn; lia|]. apply map_Forall_empty.
    - repeat constructor; cbn; lia.
    - repeat constructor. unfold spaced. cbn. lia.
    - repeat constructor. }
  destruct (resolveLabels_returns a (set_out program a) program W eq_refl)
    as (_ & Hlen & Hp & _).
  split; [exact Hlen|].
  destruct (Hp 2 3 "b" ltac:(right; left)) as (dest & Hl & _ & _ & _ & _ & Hlo).
  assert (dest = 7) by (vm_compute in Hl; congruence). subst dest. exact Hlo.
Defined.

Lemma resolvable_set_out o a ref : resolvable (set_out o a) ref <-> resolvable a ref.
Proof. reflexivity. Qed.

Lemma for_each_resolve_total refs a :
  Forall (reference_in_range a) refs ->
  Forall (resolvable a) refs ->
  exists a', for_each resolve_reference refs a = Returns tt a'.
Proof.
  revert a. induction refs as [|[[sourceLine pc] label] refs IH]; intros a Hr Hg.
  - eexists. reflexivity.
  - apply Forall_cons in Hr as [[H0 H3] Hr]. cbn [fst snd] in H0, H3.
    apply Forall_cons in Hg as [(dest & Hl & Hf & Hn) Hg]. cbn [fst snd] in *.
    cbn [for_each]. unfold bind.
    rewrite (resolve_reference_patches a sourceLine pc label dest) by assumption.
    apply IH; [apply patched_in_range; exact Hr | exact Hg].
Qed.

(** When [resolveLabels] returns and what it raises. *)
Lemma resolveLabels_cases (a : Assembler) :
  session_wf a ->
  (Forall (resolvable a) (labelReferences a) ->
   exists program a', resolveLabels a = Returns program a')
  /\ (forall e a',
        resolveLabels a = Raises e a' ->
        exists before ref after,
          labelReferences a = before ++ ref :: after
          /\ Forall (resolvable a) before
          /\ resolve_error a ref e)
  /\ resolveLabels a <> Hangs.
Proof.
  intros [L R S B]. split; [|split; [|apply resolveLabels_ends]].
  - intros Hg. unfold resolveLabels, bind, get.
    destruct (labelReferences a) as [|ref refs] eqn:Hrefs.
    + eexists _, _. reflexivity.
    + change (resolve_reference ref ;; for_each resolve_reference refs)
        with (for_each resolve_reference (ref :: refs)).
      unfold references_in_range in R. rewrite Hrefs in R.
      destruct (for_each_resolve_total _ a R Hg) as [a' ->].
      eexists _, _. reflexivity.
  - intros e a' H. unfold resolveLabels, bind, get in H.
    destruct (labelReferences a) as [|ref0 refs] eqn:Hrefs; [discriminate|].
    change (resolve_reference ref0 ;; for_each resolve_reference refs)
      with (for_each resolve_reference (ref0 :: refs)) in H.
    destruct (for_each resolve_reference (ref0 :: refs) a) as [[] a1|e1 a1|] eqn:Hf;
      [discriminate| |discriminate].
    injection H as <- <-.
    apply for_each_raises in Hf as (before & ref & after & a2 & Hsplit & Hpre & Hx).
    unfold references_in_range in R. rewrite Hrefs, Hsplit in R.
    rewrite Hsplit in S.
    apply Forall_app in R as [Rpre Rx]. apply Forall_cons in Rx as [Rx _].
    apply StronglySorted_app in S as (_ & Spre & _).
    destruct (for_each_resolve_returns _ _ _ Rpre Spre Hpre) as (Ha2 & Hlen & Hp & _).
    exists before, ref, after. split; [exact Hsplit|]. split.
    + apply Forall_forall. intros [[sl p] lb] Hin.
      destruct (Hp _ _ _ Hin) as (dest & Hl & Hfw & Hn & _).
      exists dest. auto.
    + assert (Rx2 : reference_in_range a2 ref).
      { destruct Rx as [? ?]. split; [assumption|]. rewrite Hlen. assumption. }
      destruct (resolve_reference_raises _ _ _ _ Rx2 Hx) as [_ He].
      rewrite Ha2 in He. destruct ref as [[sl p] lb]. exact He.
Qed.

(** X9. On a session whose references fit its output, [resolveLabels]
    returns when every reference is resolvable (label defined, not before
    the end of the branch, at most [0x7fff] after it); when it raises, the
    references before some reference were resolvable and the error is the
    one of that reference: undefined label, label before the reference, or
    label too far, with the line number of the branch. No other error
    arises, and the call always ends. *)
Theorem resolveLabels_outcome (a : Assembler) :
  session_wf a ->
  (Forall (resolvable a) (labelReferences a) ->
   exists program a', resolveLabels a = Returns program a')
  /\ (forall e a',
        resolveLabels a = Raises e a' ->
        exists before ref after,
          labelReferences a = before ++ ref :: after
          /\ Forall (resolvable a) before
          /\ resolve_error a ref e)
  /\ resolveLabels a <> Hangs.
Proof.
  intros W. apply (resolveLabels_cases a W).
Qed.

(** A forward branch, then a branch back to a label declared before it. *)
Lemma resolveLabels_outcome_witness :
  let a := mkAssembler [0x40; 0; 0; 0x40; 0; 0] [] false [] false "" 3
             (<["a" := 3]> ∅) [(1, 0, "a"); (3, 3, "a")] ∅ 1 in
  exists before ref after,
    labelReferences a = before ++ ref :: after
    /\ Forall (resolvable a) before
    /\ resolve_error a ref (Exception (label_is_before_reference 3 "a")).
Proof.
  intros a.
  assert (W : session_wf a).
  { split.
    - unfold labels_in_range, a. cbn [labels out].
      apply map_Forall_insert_2; [cbn; lia|]. apply map_Forall_empty.
    - repeat constructor; cbn; lia.
    - repeat constructor. unfold spaced. cbn. lia.
    - repeat constructor. }
  destruct (resolveLabels_outcome a W) as (_ & H & _).
  apply (H _ (set_out [0x40; 0; 0; 0x40; 0; 0] a)).
  vm_compute. reflexivity.
Defined.

(** ** [getBytes] a second time *)

Lemma untouched_dec (refs : list (Z * Z * string)) (i : nat) :
  (forall r, r ∈ refs ->
             i <> Z.to_nat (snd (fst r) + 1) /\ i <> Z.to_nat (snd (fst r) + 2))
  \/ (exists r, r ∈ refs
                /\ (i = Z.to_nat (snd (fst r) + 1) \/ i = Z.to_nat (snd (fst r) + 2))).
Proof.
  induction refs as [|r refs IH].
  - left. intros r Hr. inversion Hr.
  - destruct IH as [IH|(r' & Hr' & Hi)].
    + destruct (decide (i = Z.to_nat (snd (fst r) + 1))) as [E1|N1];
        [right; exists r; split; [left|auto]|].
      destruct (decide (i = Z.to_nat (snd (fst r) + 2))) as [E2|N2];
        [right; exists r; split; [left|auto]|].
      left. intros r0 Hr0. apply elem_of_cons in Hr0 as [->|Hr0]; auto.
    + right. exists r'. split; [right; exact Hr'|exact Hi].
Qed.

Lemma resolveLabels_only_out (a a' : Assembler) (program : list Z) :
  session_wf a ->
  resolveLabels a = Returns program a' ->
  a' = set_out program a.
Proof.
  intros [L R S B]. unfold resolveLabels, bind, get.
  destruct (labelReferences a) as [|ref refs] eqn:Hrefs.
  - unfold ret. intros [= <- <-]. destruct a; reflexivity.
  - change (resolve_reference ref ;; for_each resolve_reference refs)
      with (for_each resolve_reference (ref :: refs)).
    destruct (for_each resolve_reference (ref :: refs) a) as [[] a1|e a1|] eqn:Hf;
      [|discriminate..].
    unfold ret. intros [= <- <-].
    unfold references_in_range in R. rewrite Hrefs in R.
    apply (for_each_resolve_returns _ _ _ R S Hf).
Qed.

(** Resolving the labels of a resolved session changes nothing. *)
Lemma resolveLabels_again (a a' : Assembler) (program : list Z) :
  session_wf a ->
  resolveLabels a = Returns program a' ->
  session_wf a' /\ resolveLabels a' = Returns program a'.
Proof.
  intros W H. pose proof W as [L R S B].
  pose proof (resolveLabels_only_out a a' program W H) as Ha'.
  destruct (resolveLabels_patches a a' program W H) as (Hprog & Hlen & Hp & Hrest).
  assert (W' : session_wf a').
  { rewrite Ha'. split.
    - unfold labels_in_range in *. cbn [labels out set_out]. rewrite Hlen. exact L.
    - unfold references_in_range, reference_in_range in *.
      cbn [labelReferences out set_out]. rewrite Hlen. exact R.
    - exact S.
    - cbn [labelReferences out set_out]. apply Forall_forall.
      intros [[sl p] lb] Hin. destruct (Hp _ _ _ Hin) as (d & _ & _ & _ & H40 & _).
      exact H40. }
  split; [exact W'|].
  assert (Hrefs' : labelReferences a' = labelReferences a)
    by (rewrite Ha'; reflexivity).
  assert (Hlab' : labels a' = labels a) by (rewrite Ha'; reflexivity).
  assert (Hres : Forall (resolvable a') (labelReferences a')).
  { rewrite Hrefs'. apply Forall_forall.
    intros [[sl p] lb] Hin. destruct (Hp _ _ _ Hin) as (d & Hl & Hf & Hn & _).
    exists d. rewrite Hlab'. auto. }
  destruct (proj1 (resolveLabels_cases a' W') Hres) as (program2 & a2 & H2).
  pose proof (resolveLabels_only_out a' a2 program2 W' H2) as Ha2.
  destruct (resolveLabels_patches a' a2 program2 W' H2) as (_ & Hlen2 & Hp2 & Hrest2).
  assert (Hsame : program2 = program).
  { apply list_eq. intros i.
    destruct (untouched_dec (labelReferences a) i) as [Hun|([[sl p] lb] & Hin & Hi)].
    - rewrite Hrest2 by (rewrite Hrefs'; exact Hun). rewrite <- Hprog. reflexivity.
    - destruct (Hp _ _ _ Hin) as (d & Hl & _ & _ & _ & Hhi & Hlo).
      rewrite <- Hrefs' in Hin.
      destruct (Hp2 _ _ _ Hin) as (d2 & Hl2 & _ & _ & _ & Hhi2 & Hlo2).
      rewrite Hlab' in Hl2. assert (d2 = d) by congruence. subst d2.
      cbn [fst snd] in Hi. destruct Hi as [-> | ->]; congruence. }
  rewrite H2, Ha2, Hsame. f_equal.
  rewrite Hprog. destruct a'; reflexivity.
Qed.

(** X10. [getBytes] is not repeatable. After a [getBytes] that returned
    (on a session whose references fit its output), neither block is due:
    a second [getBytes] on the session returns the version and the same
    resolved instruction stream, without the constant blocks the first
    binary had. *)
Theorem getBytes_twice (a a' : Assembler) (binary : list Z) :
  session_wf a ->
  getBytes a = Returns binary a' ->
  exists v ib bb program,
    to_varuint (version a) = Some v
    /\ block_if (int_block_due a) (write_intcblock [] (intc a)) = Some ib
    /\ block_if (byte_block_due a) (write_bytecblock [] (bytec a)) = Some bb
    /\ binary = v ++ ib ++ bb ++ program
    /\ int_block_due a' = false
    /\ byte_block_due a' = false
    /\ getBytes a' = Returns (v ++ program) a'.
Proof.
  intros W H. rewrite getBytes_unfold in H.
  destruct (to_varuint (version a)) as [v|] eqn:Hv; [|discriminate].
  destruct (block_if (int_block_due a) _) as [ib|] eqn:Hib; [|discriminate].
  destruct (block_if (byte_block_due a) _) as [bb|] eqn:Hbb; [|discriminate].
  destruct (resolveLabels a) as [program a1|e a1|] eqn:Hr; [|discriminate..].
  injection H as <- <-.
  exists v, ib, bb, program.
  split; [reflexivity|]. split; [reflexivity|]. split; [reflexivity|].
  split; [reflexivity|].
  pose proof (resolveLabels_only_out a a1 program W Hr) as Ha1.
  destruct (resolveLabels_again a a1 program W Hr) as [W1 Hr1].
  set (ci := int_block_due a) in *. set (cb := byte_block_due a) in *.
  assert (Hi : int_block_due (mark_written ci cb a1) = false).
  { rewrite Ha1. unfold int_block_due, mark_written.
    destruct ci eqn:Eci, cb; fields; rewrite ?andb_false_r; try reflexivity;
      exact Eci. }
  assert (Hb : byte_block_due (mark_written ci cb a1) = false).
  { rewrite Ha1. unfold byte_block_due, mark_written.
    destruct ci, cb eqn:Ecb; fields; rewrite ?andb_false_r; try reflexivity;
      exact Ecb. }
  split; [exact Hi|]. split; [exact Hb|].
  rewrite getBytes_unfold, Hi, Hb.
  assert (Hver : version (mark_written ci cb a1) = version a).
  { rewrite Ha1. destruct ci, cb; reflexivity. }
  rewrite Hver, Hv. cbn [block_if].
  rewrite resolveLabels_mark_written, Hr1. cbn [map_state mark_written app].
  reflexivity.
Qed.

(** The session of [int 5], [bnz end], [end:]. *)
Lemma getBytes_twice_witness :
  let a := mkAssembler [0x22; 0x40; 0; 0] [5] false [] false "" 3
             (<["end" := 4]> ∅) [(2, 1, "end")] ∅ 1 in
  exists a' v ib bb program,
    getBytes a = Returns (v ++ ib ++ bb ++ program) a'
    /\ getBytes a' = Returns (v ++ program) a'
    /\ ib = [0x20; 1; 5].
Proof.
  intros a.
  assert (W : session_wf a).
  { split.
    - unfold labels_in_range, a. cbn [labels out].
      apply map_Forall_insert_2; [cbn; lia|]. apply map_Forall_empty.
    - repeat constructor; cbn; lia.
    - repeat constructor.
    - repeat constructor. }
  destruct (getBytes_twice a
              (mkAssembler [0x22; 0x40; 0; 0] [5] true [] false "" 3
                           (<["end" := 4]> ∅) [(2, 1, "end")] ∅ 1)
              [1; 0x20; 1; 5; 0x22; 0x40; 0; 0] W)
    as (v & ib & bb & program & Hv & Hib & Hbb & Hbin & _ & _ & H2).
  { vm_compute. reflexivity. }
  eexists _, v, ib, bb, program. rewrite <- Hbin.
  split; [vm_compute; reflexivity|]. split; [exact H2|].
  vm_compute in Hib. congruence.
Defined.

(** ** Label declarations *)

Lemma chars_append (s1 s2 : string) :
  Py.chars (s1 +:+ s2) = Py.chars s1 ++ Py.chars s2.
Proof.
  unfold Py.chars. induction s1 as [|c s1 IH]; [reflexivity|].
  change (String c s1 +:+ s2) with (String c (s1 +:+ s2)).
  cbn [list_ascii_of_string app]. f_equal. exact IH.
Qed.

Lemma str_chars (s : string) : Py.str (Py.chars s) = s.
Proof. apply string_of_list_ascii_of_string. Qed.

Lemma chars_length (s : string) : length (Py.chars s) = String.length s.
Proof.
  unfold Py.chars. induction s as [|c s IH]; [reflexivity|].
  cbn [list_ascii_of_string length String.length]. f_equal. exact IH.
Qed.

Lemma endswith_colon (name : string) : Py.endswith (name +:+ ":") ":" = true.
Proof.
  unfold Py.endswith. rewrite chars_append, rev_app_distr.
  change (Py.str (rev (Py.chars ":") ++ rev (Py.chars name)))
    with (String ":" (Py.str (rev (Py.chars name)))).
  change (Py.str (rev (Py.chars ":"))) with ":".
  cbn [String.prefix]. destruct (ascii_dec ":" ":") as [_|N].
  - destruct (Py.str (rev (Py.chars name))); reflexivity.
  - exfalso. apply N. reflexivity.
Qed.

Lemma slice_to_colon (name : string) :
  Py.slice_to (String.length (name +:+ ":") - 1) (name +:+ ":") = name.
Proof.
  unfold Py.slice_to.
  assert (E : (String.length (name +:+ ":") - 1)%nat = length (Py.chars name)).
  { rewrite <- (chars_length (name +:+ ":")), chars_append, length_app.
    change (length (Py.chars ":")) with 1%nat. lia. }
  rewrite E, chars_append, take_app_length. apply str_chars.
Qed.

Section Labels.

Variable decode_address : string -> result (list Z).

(** No handler is named by a token that ends in a colon. *)
Lemma handler_not_label p0 fn :
  handler decode_address p0 = Some fn -> Py.endswith p0 ":" = false.
Proof.
  unfold handler. intros H.
  repeat (case_match;
          [match goal with
           | E : String.eqb _ _ = true |- _ =>
               apply String.eqb_eq in E; subst; reflexivity
           end|]).
  discriminate.
Qed.

(** X11. A line whose first token is [name:], when no opcode of the table
    has that very spelling, declares the label [name] at the current end of
    the output and changes nothing else; a second declaration of [name]
    raises [duplicate label] and leaves the session as it was. Tokens after
    the label on the same line are dropped without a word. *)
Theorem label_declaration (name : string) (rest : list string) (a : Assembler) :
  opByName a !! (name +:+ ":") = None ->
  assembleParts decode_address ((name +:+ ":") :: rest) a
  = match labels a !! name with
    | Some _ => Raises (Exception (duplicate_label name)) a
    | None =>
        Returns tt
          (set_labels (<[name := Z.of_nat (length (out a))]> (labels a)) a)
    end.
Proof.
  intros Hop. unfold assembleParts. unfold bind at 1, get. rewrite Hop.
  destruct (handler decode_address (name +:+ ":")) as [fn|] eqn:Hfn.
  { apply handler_not_label in Hfn. rewrite endswith_colon in Hfn. discriminate. }
  rewrite endswith_colon, slice_to_colon.
  unfold setLabel. unfold_monad. cbv beta.
  destruct (labels a !! name); reflexivity.
Qed.

End Labels.

(** The line [done: pop] on a fresh session, and on the session it leaves. *)
Lemma label_declaration_witness :
  let a := Assembler_init sample_ops "" 1 in
  let a1 := set_labels (<["done" := 0]> ∅) a in
  assembleParts no_address ["done:"; "pop"] a = Returns tt a1
  /\ assembleParts no_address ["done:"; "pop"] a1
     = Raises (Exception (duplicate_label "done")) a1.
Proof.
  intros a a1. split.
  - apply (label_declaration no_address "done" ["pop"] a). reflexivity.
  - apply (label_declaration no_address "done" ["pop"] a1). reflexivity.
Defined.

(** ** [bytecblock] *)

Lemma parseByteConstant_rest args val rest :
  parseByteConstant args = Ok (val, rest) ->
  (length rest < length args <= length rest + 2)%nat.
Proof.
  unfold parseByteConstant. destruct args as [|a0 args']; [discriminate|].
  assert (H1 : (length (drop 1 (a0 :: args')) < length (a0 :: args')
                <= length (drop 1 (a0 :: args')) + 2)%nat)
    by (rewrite length_drop; cbn; lia).
  unfold rbind.
  repeat (destruct_inner; simplify_eq; cbn beta iota);
    intros; simplify_eq; try exact H1.
  all: match goal with
       | H : (_ :: _) !! 1%nat = Some _ |- _ =>
           destruct args'; [discriminate|]; rewrite length_drop; cbn; lia
       end.
Qed.

Lemma parse_byte_constants_count fuel args bytec vals :
  parse_byte_constants fuel args bytec = Some (Ok vals) ->
  exists k, length vals = (length bytec + k)%nat
            /\ (k <= length args <= 2 * k)%nat.
Proof.
  revert args bytec. induction fuel as [|fuel IH]; intros args bytec H.
  - destruct args; [|discriminate]. injection H as <-. exists 0%nat. cbn. lia.
  - destruct args as [|a0 args'].
    + injection H as <-. exists 0%nat. cbn. lia.
    + cbn [parse_byte_constants] in H.
      destruct (parseByteConstant (a0 :: args')) as [[val rest]|e] eqn:Hp;
        [|discriminate].
      apply parseByteConstant_rest in Hp.
      apply IH in H as (k & Hlen & Hk). rewrite length_app in Hlen. cbn in Hlen.
      exists (S k). cbn [length] in *. lia.
Qed.

(** X12. [bytecblock] either installs and emits or changes nothing. The
    call always ends. When it returns, the constants parsed from the
    arguments are the byte pool (whatever it held), each taking one or two
    tokens; the block of these constants has been appended to the output
    and the written flag is set. When it raises, in the parsing of some
    argument, the session is as it was: no partial block is emitted. *)
Theorem assemble_bytecblock_cases (op : option OpSpec) (args : list string)
        (a : Assembler) :
  assemble_bytecblock op args a <> Hangs
  /\ (forall a',
        assemble_bytecblock op args a = Returns tt a' ->
        exists block,
          parse_byte_constants (length args) args [] = Some (Ok (bytec a'))
          /\ (length (bytec a') <= length args <= 2 * length (bytec a'))%nat
          /\ write_bytecblock [] (bytec a') = Some block
          /\ out a' = out a ++ block
          /\ bytecWritten a' = true
          /\ a' = set_bytec (bytec a') (set_bytecWritten true (set_out (out a') a)))
  /\ (forall e a', assemble_bytecblock op args a = Raises e a' -> a' = a).
Proof.
  unfold assemble_bytecblock. unfold_monad. cbv beta.
  destruct (parse_byte_constants (length args) args []) as [r|] eqn:Hp;
    [|exfalso; exact (parse_byte_constants_ends _ _ _ (Nat.le_refl _) Hp)].
  cbn beta iota. destruct r as [vals|e0]; cbn beta iota.
  - destruct (write_bytecblock_returns (out a) vals) as [o Ho]. rewrite Ho.
    cbn beta iota. split; [discriminate|]. split; [|discriminate].
    intros a' [= <-]. fields.
    rewrite write_bytecblock_prefix in Ho.
    destruct (write_bytecblock [] vals) as [block|] eqn:Hb; [|discriminate].
    injection Ho as <-. exists block.
    apply parse_byte_constants_count in Hp as (k & Hlen & Hk). cbn in Hlen.
    split; [reflexivity|]. split; [lia|]. repeat split; reflexivity.
  - split; [discriminate|]. split; [discriminate|]. intros e a' [= _ <-]. reflexivity.
Qed.

(** A block of three constants in five tokens, and one with a bad digit. *)
Lemma assemble_bytecblock_cases_witness :
  let a := Assembler_init sample_ops "" 1 in
  (exists a' block,
      assemble_bytecblock None ["0x61"; "b64"; "YWI="; "base32"; "ME======"] a
      = Returns tt a'
      /\ bytec a' = [[0x61]; [0x61; 0x62]; [0x61]]
      /\ out a' = out a ++ block)
  /\ (forall e a', assemble_bytecblock None ["0x61"; "0xzz"] a = Raises e a' -> a' = a).
Proof.
  intros a. split.
  - destruct (assemble_bytecblock_cases None
                ["0x61"; "b64"; "YWI="; "base32"; "ME======"] a) as (_ & H & _).
    destruct (H (set_bytec [[0x61]; [0x61; 0x62]; [0x61]]
                   (set_bytecWritten true
                      (set_out [0x26; 3; 1; 0x61; 2; 0x61; 0x62; 1; 0x61] a))))
      as (block & _ & _ & _ & Ho & _).
    { vm_compute. reflexivity. }
    eexists _, block. split; [vm_compute; reflexivity|].
    split; [reflexivity|exact Ho].
  - apply (assemble_bytecblock_cases None ["0x61"; "0xzz"] a).
Defined.

(** ** [arg], [load] and [store] *)

Lemma bytes_of_pair_bad (x y : Z) :
  ~ (0 <= x < 256 /\ 0 <= y < 256) ->
  bytes_of [x; y] = Err (ValueError byte_must_be_in_range_256).
Proof.
  intros H. unfold bytes_of. cbn [forallb].
  destruct (Z.leb_spec 0 x), (Z.ltb_spec x 256), (Z.leb_spec 0 y),
    (Z.ltb_spec y 256); cbn; try reflexivity.
  exfalso. apply H. lia.
Qed.

(** X13. [arg n], for a base-10 integer token: index 0 to 3 emits the one
    fast opcode [0x2d + n]; index 4 to 255 emits [0x2c] and the index byte;
    an index above 255 or negative raises the two messages of the handler
    and emits nothing. A token that is no integer raises the [ValueError]
    of [int] (the hexadecimal forms of [int] and [intc] are not accepted
    here). *)
Theorem assemble_arg_cases (op : option OpSpec) (s : string) (a : Assembler) :
  (forall n, Py.int s 10 = Ok n ->
     (0 <= n <= 3 ->
        assemble_arg op [s] a = Returns tt (set_out (out a ++ [0x2d + n]) a))
     /\ (4 <= n <= 255 ->
        assemble_arg op [s] a = Returns tt (set_out (out a ++ [0x2c; n]) a))
     /\ (255 < n ->
        assemble_arg op [s] a = Raises (Exception cannot_have_more_than_256_args) a)
     /\ (n < 0 ->
        assemble_arg op [s] a = Raises (Exception invalid_negative_arg_index) a))
  /\ (forall e, Py.int s 10 = Err e -> assemble_arg op [s] a = Raises e a).
Proof.
  split.
  - intros n Hs. unfold assemble_arg. rewrite Hs. unfold_monad. cbv beta iota.
    split; [|split; [|split]]; intros Hn.
    + assert (n = 0 \/ n = 1 \/ n = 2 \/ n = 3) as [->|[->|[->| ->]]] by lia;
        reflexivity.
    + rewrite (fast_ops_none _arg_ops _ _ _ _ n eq_refl) by lia. cbn [truthy].
      replace (255 <? n) with false by (symmetry; apply Z.ltb_ge; lia).
      replace (n <? 0) with false by (symmetry; apply Z.ltb_ge; lia).
      rewrite bytes_of_pair by lia. reflexivity.
    + rewrite (fast_ops_none _arg_ops _ _ _ _ n eq_refl) by lia. cbn [truthy].
      replace (255 <? n) with true by (symmetry; apply Z.ltb_lt; lia).
      reflexivity.
    + rewrite (fast_ops_none _arg_ops _ _ _ _ n eq_refl) by lia. cbn [truthy].
      replace (255 <? n) with false by (symmetry; apply Z.ltb_ge; lia).
      replace (n <? 0) with true by (symmetry; apply Z.ltb_lt; lia).
      reflexivity.
  - intros e Hs. unfold assemble_arg. rewrite Hs. reflexivity.
Qed.

Lemma assemble_arg_cases_witness :
  let a := Assembler_init sample_ops "" 1 in
  assemble_arg None ["2"] a = Returns tt (set_out [0x2f] a)
  /\ assemble_arg None ["200"] a = Returns tt (set_out [0x2c; 200] a)
  /\ assemble_arg None ["256"] a = Raises (Exception cannot_have_more_than_256_args) a
  /\ assemble_arg None ["-1"] a = Raises (Exception invalid_negative_arg_index) a
  /\ assemble_arg None ["0x10"] a
     = Raises (ValueError (invalid_literal_for_int 10 "0x10")) a.
Proof.
  intros a.
  split; [apply (proj1 (assemble_arg_cases None "2" a) 2 eq_refl); lia|].
  split; [apply (proj1 (assemble_arg_cases None "200" a) 200 eq_refl); lia|].
  split; [apply (proj1 (assemble_arg_cases None "256" a) 256 eq_refl); lia|].
  split; [apply (proj1 (assemble_arg_cases None "-1" a) (-1) eq_refl); lia|].
  apply (proj2 (assemble_arg_cases None "0x10" a)). reflexivity.
Defined.

(** X14. [load] and [store], for a base-10 integer token and an opcode of
    the table: the slot is accepted exactly when it fits one byte, and then
    the opcode byte and the slot byte are emitted; any other slot fails in
    [bytes(...)] with Python's [ValueError], the session untouched. The two
    handlers make no check of their own on the slot. *)
Theorem load_store_slot (o : OpSpec) (s : string) (n : Z) (a : Assembler) :
  Py.int s 10 = Ok n ->
  0 <= Opcode o < 256 ->
  (0 <= n < 256 ->
     assemble_load (Some o) [s] a = Returns tt (set_out (out a ++ [Opcode o; n]) a)
     /\ assemble_store (Some o) [s] a
        = Returns tt (set_out (out a ++ [Opcode o; n]) a))
  /\ (~ 0 <= n < 256 ->
     assemble_load (Some o) [s] a = Raises (ValueError byte_must_be_in_range_256) a
     /\ assemble_store (Some o) [s] a
        = Raises (ValueError byte_must_be_in_range_256) a).
Proof.
  intros Hs Ho. unfold assemble_load, assemble_store, _load_store.
  rewrite Hs. unfold_monad. unfold op_Opcode, ret. cbv beta iota.
  split; intros Hn.
  - rewrite bytes_of_pair by lia. split; reflexivity.
  - rewrite bytes_of_pair_bad by lia. split; reflexivity.
Qed.

Lemma load_store_slot_witness :
  let a := Assembler_init sample_ops "" 1 in
  (assemble_load (Some (mkOp "load" 0x34 None)) ["255"] a
   = Returns tt (set_out [0x34; 255] a)
   /\ assemble_store (Some (mkOp "load" 0x34 None)) ["255"] a
      = Returns tt (set_out [0x34; 255] a))
  /\ (assemble_load (Some (mkOp "load" 0x34 None)) ["256"] a
      = Raises (ValueError byte_must_be_in_range_256) a
      /\ assemble_store (Some (mkOp "load" 0x34 None)) ["256"] a
         = Raises (ValueError byte_must_be_in_range_256) a).
Proof.
  intros a. split.
  - apply (load_store_slot (mkOp "load" 0x34 None) "255" 255 a eq_refl); cbn; lia.
  - apply (load_store_slot (mkOp "load" 0x34 None) "256" 256 a eq_refl); cbn; lia.
Defined.

(** ** The handlers with an argument name *)

Lemma bytes_of_triple (x y z : Z) :
  0 <= x < 256 -> 0 <= y < 256 -> 0 <= z < 256 ->
  bytes_of [x; y; z] = Ok [x; y; z].
Proof.
  intros Hx Hy Hz. unfold bytes_of. cbn [forallb].
  replace (0 <=? x) with true by (symmetry; apply Z.leb_le; lia).
  replace (x <? 256) with true by (symmetry; apply Z.ltb_lt; lia).
  replace (0 <=? y) with true by (symmetry; apply Z.leb_le; lia).
  replace (y <? 256) with true by (symmetry; apply Z.ltb_lt; lia).
  replace (0 <=? z) with true by (symmetry; apply Z.leb_le; lia).
  replace (z <? 256) with true by (symmetry; apply Z.ltb_lt; lia).
  reflexivity.
Qed.

Lemma list_find_first (enum : list string) (arg : string) (i : nat) :
  enum !! i = Some arg ->
  (forall j, (j < i)%nat -> enum !! j <> Some arg) ->
  list_find (fun name => name = arg) enum = Some (i, arg).
Proof.
  intros Hi Hfirst. apply list_find_Some. split; [exact Hi|]. split; [reflexivity|].
  intros j y Hj Hlt ->. exact (Hfirst j Hlt Hj).
Qed.

Lemma list_find_absent (enum : list string) (arg : string) :
  arg ∉ enum -> list_find (fun name => name = arg) enum = None.
Proof.
  intros H. apply list_find_None. apply Forall_forall. intros x Hx ->. exact (H Hx).
Qed.

(** X15. [txn], [global] and [gtxn] look their argument name up in the
    [ArgEnum] list of the opcode: the byte emitted after the opcode (and,
    for [gtxn], after the transaction index) is the position of the first
    entry equal to the name; a name that is not in the list raises
    [unknown arg] with the session untouched. *)
Theorem enum_argument (o : OpSpec) (enum : list string) (arg : string)
        (a : Assembler) :
  ArgEnum o = Some enum ->
  0 <= Opcode o < 256 ->
  (length enum <= 256)%nat ->
  (forall i : nat,
     enum !! i = Some arg ->
     (forall j, (j < i)%nat -> enum !! j <> Some arg) ->
     assemble_txn (Some o) [arg] a
     = Returns tt (set_out (out a ++ [Opcode o; Z.of_nat i]) a)
     /\ assemble_global (Some o) [arg] a
        = Returns tt (set_out (out a ++ [Opcode o; Z.of_nat i]) a)
     /\ forall s gtid,
          Py.int s 10 = Ok gtid -> 0 <= gtid < 256 ->
          assemble_gtxn (Some o) [s; arg] a
          = Returns tt (set_out (out a ++ [Opcode o; gtid; Z.of_nat i]) a))
  /\ (arg ∉ enum ->
      assemble_txn (Some o) [arg] a
      = Raises (Exception (unknown_arg (Name o) arg)) a
      /\ assemble_global (Some o) [arg] a
         = Raises (Exception (unknown_arg (Name o) arg)) a
      /\ forall s gtid,
           Py.int s 10 = Ok gtid ->
           assemble_gtxn (Some o) [s; arg] a
           = Raises (Exception (unknown_arg (Name o) arg)) a).
Proof.
  intros He Ho Hlen. split.
  - intros i Hi Hfirst.
    assert (Hlt : (i < length enum)%nat) by (eapply lookup_lt_Some; exact Hi).
    pose proof (list_find_first enum arg i Hi Hfirst) as Hf.
    split; [|split].
    + unfold assemble_txn, enum_arg, op_ArgEnum, op_Opcode. rewrite He.
      unfold_monad. cbv beta iota. rewrite Hf. cbn beta iota.
      rewrite bytes_of_pair by lia. reflexivity.
    + unfold assemble_global, enum_arg, op_ArgEnum, op_Opcode. rewrite He.
      unfold_monad. cbv beta iota. rewrite Hf. cbn beta iota.
      rewrite bytes_of_pair by lia. reflexivity.
    + intros s gtid Hs Hg.
      unfold assemble_gtxn, op_ArgEnum, op_Opcode. rewrite Hs, He.
      unfold_monad. cbv beta iota. rewrite Hf. cbn beta iota.
      rewrite bytes_of_triple by lia. reflexivity.
  - intros Habs. pose proof (list_find_absent enum arg Habs) as Hf.
    split; [|split].
    + unfold assemble_txn, enum_arg, op_ArgEnum, op_Name. rewrite He.
      unfold_monad. cbv beta iota. rewrite Hf. reflexivity.
    + unfold assemble_global, enum_arg, op_ArgEnum, op_Name. rewrite He.
      unfold_monad. cbv beta iota. rewrite Hf. reflexivity.
    + intros s gtid Hs.
      unfold assemble_gtxn, op_ArgEnum, op_Name. rewrite Hs, He.
      unfold_monad. cbv beta iota. rewrite Hf. reflexivity.
Qed.

(** An accessor whose list names [Fee] twice. *)
Lemma enum_argument_witness :
  let o := mkOp "txn" 0x31 (Some ["Sender"; "Fee"; "Note"; "Fee"]) in
  let a := Assembler_init sample_ops "" 1 in
  assemble_txn (Some o) ["Fee"] a = Returns tt (set_out [0x31; 1] a)
  /\ assemble_txn (Some o) ["Amount"] a
     = Raises (Exception (unknown_arg "txn" "Amount")) a.
Proof.
  intros o a. split.
  - refine (proj1 (proj1 (enum_argument o _ "Fee" a eq_refl _ _) 1%nat eq_refl _)).
    + cbn. lia.
    + cbn. lia.
    + intros j Hj. assert (j = 0%nat) by lia. subst j. discriminate.
  - refine (proj1 (proj2 (enum_argument o _ "Amount" a eq_refl _ _) _)).
    + cbn. lia.
    + cbn. lia.
    + intros H. repeat (apply elem_of_cons in H as [H|H]; [discriminate|]).
      inversion H.
Defined.

(** ** The opcode table *)

Lemma ops_by_name_snoc (ops : list OpSpec) (x : OpSpec) :
  ops_by_name (ops ++ [x]) = <[Name x := x]> (ops_by_name ops).
Proof. unfold ops_by_name. rewrite foldl_app. reflexivity. Qed.

(** X16. [ops_by_name] maps a name to the last record of the list with
    that name, and to nothing when no record has it. *)
Theorem ops_by_name_lookup (ops : list OpSpec) (name : string) :
  ops_by_name ops !! name = last (filter (fun o => Name o = name) ops).
Proof.
  induction ops as [|x ops IH] using rev_ind.
  - reflexivity.
  - rewrite ops_by_name_snoc, filter_app.
    destruct (decide (Name x = name)) as [E|N].
    + rewrite E, lookup_insert_eq.
      rewrite filter_cons_True by exact E. rewrite filter_nil.
      rewrite last_snoc. reflexivity.
    + rewrite lookup_insert_ne by exact N.
      rewrite filter_cons_False by exact N. rewrite filter_nil, app_nil_r.
      exact IH.
Qed.

(** ** Comments *)

Lemma list_find_comment (pre : list string) (c : string) (post : list string) :
  Forall (fun p => Py.startswith p "//" = false) pre ->
  Py.startswith c "//" = true ->
  list_find (fun p => Py.startswith p "//" = true) (pre ++ c :: post)
  = Some (length pre, c).
Proof.
  intros Hpre Hc. apply list_find_Some. split; [apply list_lookup_middle; reflexivity|].
  split; [exact Hc|].
  intros j y Hj Hlt Hy. rewrite lookup_app_l in Hj by exact Hlt.
  rewrite Forall_forall in Hpre.
  assert (Hin : y ∈ pre) by (eapply list_elem_of_lookup_2; exact Hj).
  rewrite (Hpre y Hin) in Hy. discriminate.
Qed.

(** X17. The comment cut of [assembleLine]: the tokens from the first one
    that starts with [//] on are dropped, the tokens before it are kept as
    they are; a line without such a token is kept whole. A comment token in
    first place cuts nothing, the tokens cut to an empty list being
    ignored. *)
Theorem cut_comment_cases (pre : list string) (c : string) (post : list string) :
  Forall (fun p => Py.startswith p "//" = false) pre ->
  cut_comment pre = pre
  /\ (Py.startswith c "//" = true ->
      (pre <> [] -> cut_comment (pre ++ c :: post) = pre)
      /\ cut_comment (c :: post) = c :: post).
Proof.
  intros Hpre. split.
  - unfold cut_comment.
    assert (E : list_find (fun p => Py.startswith p "//" = true) pre = None).
    { apply list_find_None. eapply Forall_impl; [exact Hpre|].
      cbn beta. intros p Hp. rewrite Hp. discriminate. }
    rewrite E. reflexivity.
  - intros Hc. split.
    + intros Hne. unfold cut_comment.
      rewrite (list_find_comment pre c post Hpre Hc).
      rewrite take_app_length. destruct pre; [contradiction|reflexivity].
    + unfold cut_comment.
      rewrite (list_find_comment [] c post (Forall_nil_2 _) Hc
               : list_find _ (c :: post) = _). reflexivity.
Qed.

Lemma cut_comment_cases_witness :
  cut_comment ["int"; "5"] = ["int"; "5"]
  /\ cut_comment (["int"; "5"] ++ "//five" :: ["and"; "more"]) = ["int"; "5"]
  /\ cut_comment ("//five" :: ["int"; "5"]) = "//five" :: ["int"; "5"].
Proof.
  assert (H : Forall (fun p => Py.startswith p "//" = false) ["int"; "5"])
    by (repeat constructor).
  destruct (cut_comment_cases ["int"; "5"] "//five" ["and"; "more"] H) as [H1 H2].
  destruct (cut_comment_cases ["int"; "5"] "//five" ["int"; "5"] H) as [_ H3].
  split; [exact H1|]. split.
  - apply H2; [reflexivity|discriminate].
  - apply H3. reflexivity.
Defined.

(** ** Hexadecimal byte constants *)

Lemma nibble_all (P : Z -> bool) (n : Z) :
  forallb P (seqZ 0 16) = true -> 0 <= n < 16 -> P n = true.
Proof.
  intros Hall Hn. rewrite forallb_forall in Hall.
  apply Hall. apply list_elem_of_In, elem_of_seqZ. lia.
Qed.

Lemma nibble_div (b : Z) : 0 <= b < 256 -> 0 <= b / 16 < 16 /\ 0 <= b mod 16 < 16.
Proof.
  intros Hb. split.
  - split; [apply Z.div_pos; lia | apply Z.div_lt_upper_bound; lia].
  - apply Z.mod_pos_bound. lia.
Qed.

Lemma upper_hex_digit (u : bool) (n : Z) :
  0 <= n < 16 -> Py.upper_char (hex_digit u n) = [hex_digit true n].
Proof.
  intros Hn.
  assert (Hall : forallb
                   (fun n => bool_decide
                               (Py.upper_char (hex_digit u n) = [hex_digit true n]))
                   (seqZ 0 16) = true)
    by (destruct u; vm_compute; reflexivity).
  pose proof (nibble_all _ n Hall Hn) as H.
  cbn beta in H. apply bool_decide_eq_true in H. exact H.
Qed.

Lemma hex_digit_ascii (n : Z) :
  0 <= n < 16 -> (Py.ord (hex_digit true n) <? 128) = true.
Proof.
  intros Hn.
  apply (nibble_all (fun n => Py.ord (hex_digit true n) <? 128));
    [vm_compute; reflexivity | exact Hn].
Qed.

Lemma hex_value_digit (n : Z) :
  0 <= n < 16 -> Base64.hex_value (hex_digit true n) = Some n.
Proof.
  intros Hn.
  assert (Hall : forallb
                   (fun n => bool_decide
                               (Base64.hex_value (hex_digit true n) = Some n))
                   (seqZ 0 16) = true)
    by (vm_compute; reflexivity).
  pose proof (nibble_all _ n Hall Hn) as H.
  cbn beta in H. apply bool_decide_eq_true in H. exact H.
Qed.

Lemma upper_hex_chars (u : bool) (bs : list Z) :
  Forall (fun b => 0 <= b < 256) bs ->
  concat (map Py.upper_char (hex_chars u bs)) = hex_chars true bs.
Proof.
  induction 1 as [|b bs Hb _ IH]; [reflexivity|].
  destruct (nibble_div b Hb) as [Hh Hl].
  unfold hex_chars in *. cbn [map concat app].
  rewrite !upper_hex_digit by assumption. cbn [app]. rewrite IH. reflexivity.
Qed.

Lemma chars_str (l : list ascii) : Py.chars (Py.str l) = l.
Proof. apply list_ascii_of_string_of_list_ascii. Qed.

Lemma unhexlify_hex_chars (bs : list Z) :
  Forall (fun b => 0 <= b < 256) bs ->
  forallb (fun c => Py.ord c <? 128) (hex_chars true bs) = true
  /\ forallb (fun c => bool_decide (is_Some (Base64.hex_value c)))
             (hex_chars true bs) = true
  /\ Base64.unhexlify (hex_chars true bs) = Ok bs.
Proof.
  induction 1 as [|b bs Hb _ (IH1 & IH2 & IH3)]; [repeat split; reflexivity|].
  destruct (nibble_div b Hb) as [Hh Hl].
  unfold hex_chars in *. cbn [map concat app].
  split; [|split].
  - cbn [forallb]. rewrite !hex_digit_ascii by assumption. exact IH1.
  - cbn [forallb]. rewrite !hex_value_digit by assumption.
    rewrite !bool_decide_eq_true_2 by (eexists; reflexivity). exact IH2.
  - cbn [Base64.unhexlify]. rewrite !hex_value_digit by assumption.
    rewrite IH3. cbn [rbind]. f_equal. f_equal.
    pose proof (Z.div_mod b 16 ltac:(lia)). lia.
Qed.

(** X18. A byte string written as a hexadecimal literal, [0x] and two
    digits a byte, in upper or in lower case, parses to these very bytes
    and takes one token: the tokens after it are handed back. *)
Theorem hex_literal (upper : bool) (bs : list Z) (rest : list string) :
  Forall (fun b => 0 <= b < 256) bs ->
  parseByteConstant (("0x" +:+ hex_text upper bs) :: rest) = Ok (bs, rest).
Proof.
  intros Hbs. unfold parseByteConstant.
  change ("0x" +:+ hex_text upper bs)
    with (String "0" (String "x" (hex_text upper bs))).
  cbn [String.eqb Ascii.eqb Bool.eqb orb andb].
  assert (Hsw : Py.startswith (String "0" (String "x" (hex_text upper bs))) "0x"
                = true).
  { unfold Py.startswith. cbn [String.prefix].
    destruct (ascii_dec "0" "0") as [_|N]; [|exfalso; apply N; reflexivity].
    destruct (ascii_dec "x" "x") as [_|N]; [|exfalso; apply N; reflexivity].
    destruct (hex_text upper bs); reflexivity. }
  rewrite Hsw.
  assert (Hsl : Py.slice_from 2 (String "0" (String "x" (hex_text upper bs)))
                = hex_text upper bs).
  { unfold Py.slice_from. cbn [Py.chars list_ascii_of_string drop].
    apply string_of_list_ascii_of_string. }
  rewrite Hsl.
  assert (Hup : Py.upper (hex_text upper bs) = hex_text true bs).
  { unfold Py.upper, hex_text. rewrite chars_str, upper_hex_chars by exact Hbs.
    reflexivity. }
  rewrite Hup.
  destruct (unhexlify_hex_chars bs Hbs) as (H1 & H2 & H3).
  unfold Base64.b16decode, Base64.bytes_from_decode_data, hex_text.
  rewrite chars_str, H1. cbn [rbind]. rewrite H2, H3. reflexivity.
Qed.

Lemma hex_literal_witness :
  parseByteConstant ["0x00ff6a"; "0x01"] = Ok ([0; 255; 106], ["0x01"])
  /\ parseByteConstant ["0x00FF6A"] = Ok ([0; 255; 106], []).
Proof.
  split.
  - apply (hex_literal false [0; 255; 106] ["0x01"]). repeat constructor; lia.
  - apply (hex_literal true [0; 255; 106] []). repeat constructor; lia.
Defined.

(** ** The lines behind the references *)

Ltac references_done :=
  first
    [ left; reflexivity
    | right;
      match goal with
      | E : String.eqb _ "bnz" = true |- _ =>
          apply String.eqb_eq in E; subst
      end;
      split; [reflexivity|]; eexists _, _; split; reflexivity ].

Section ReferenceLines.

Variable decode_address : string -> result (list Z).

(** A handler leaves the references alone, unless it is that of [bnz],
    which adds one with the current line number. *)
Lemma handler_references name fn op args a :
  handler decode_address name = Some fn ->
  post (fun a' =>
          labelReferences a' = labelReferences a
          \/ (name = "bnz"
              /\ exists label rest,
                   args = label :: rest
                   /\ labelReferences a'
                      = labelReferences a
                        ++ [(sourceLine a, Z.of_nat (length (out a)), label)]))
       (fn op args a).
Proof.
  unfold handler. intros H.
  repeat case_match; simplify_eq; unfold post; run_method; try exact I;
    references_done.
Qed.

Lemma assembleParts_references parts a :
  post (fun a' =>
          labelReferences a' = labelReferences a
          \/ exists label rest,
               parts = "bnz" :: label :: rest
               /\ labelReferences a'
                  = labelReferences a
                    ++ [(sourceLine a, Z.of_nat (length (out a)), label)])
       (assembleParts decode_address parts a).
Proof.
  unfold assembleParts. destruct parts as [|p0 args]; [left; reflexivity|].
  unfold bind at 1, get.
  destruct (handler decode_address p0) as [fn|] eqn:Hfn.
  - pose proof (handler_references p0 fn (opByName a !! p0) args a Hfn) as H.
    destruct (fn (opByName a !! p0) args a) as [[] a1|e a1|]; cbn in H |- *;
      try exact I;
      (destruct H as [H|(-> & label & rest & -> & H)];
       [left; exact H | right; exists label, rest; auto]).
  - unfold post. run_method; try exact I; left; reflexivity.
Qed.

Lemma assembleLine_references rawline a :
  post (fun a' =>
          labelReferences a' = labelReferences a
          \/ exists label rest,
               line_parts rawline = "bnz" :: label :: rest
               /\ labelReferences a'
                  = labelReferences a
                    ++ [(sourceLine a, Z.of_nat (length (out a)), label)])
       (assembleLine decode_address rawline a).
Proof.
  unfold line_parts, assembleLine.
  destruct (String.eqb rawline ""); [left; reflexivity|].
  destruct (String.eqb (Py.strip rawline) ""); [left; reflexivity|].
  destruct (Py.startswith (Py.strip rawline) "//"); [left; reflexivity|].
  destruct (Py.split (Py.strip rawline)) as [|p ps] eqn:Es; [left; reflexivity|].
  apply assembleParts_references.
Qed.

(** The pass over the lines [todo], the lines [pre] having been taken. *)
Lemma for_each_reference_lines todo pre a :
  sourceLine a = Z.of_nat (length pre) ->
  Forall (reference_from_line (pre ++ todo)) (labelReferences a) ->
  post (fun a' => Forall (reference_from_line (pre ++ todo)) (labelReferences a'))
       (for_each (next_line decode_address) todo a).
Proof.
  revert pre a. induction todo as [|line todo IH]; intros pre a Hn Hrefs.
  - exact Hrefs.
  - cbn [for_each]. unfold bind at 1. unfold next_line at 1. unfold bind, modify.
    set (b := set_sourceLine (sourceLine a + 1) a).
    pose proof (assembleLine_references line b) as Hr.
    pose proof (assembleLine_frame decode_address line b) as Hf.
    assert (Hnew : forall a1,
               frame b a1 ->
               (labelReferences a1 = labelReferences b
                \/ exists label rest,
                     line_parts line = "bnz" :: label :: rest
                     /\ labelReferences a1
                        = labelReferences b
                          ++ [(sourceLine b, Z.of_nat (length (out b)), label)]) ->
               sourceLine a1 = Z.of_nat (length (pre ++ [line]))
               /\ Forall (reference_from_line ((pre ++ [line]) ++ todo))
                         (labelReferences a1)).
    { intros a1 [_ Hsl _ _] Hcase. split.
      - rewrite Hsl. unfold b. cbn [sourceLine set_sourceLine].
        rewrite length_app. cbn [length]. lia.
      - rewrite <- app_assoc. cbn [app].
        destruct Hcase as [->|(label & rest & Hparts & ->)]; [exact Hrefs|].
        apply Forall_app. split; [exact Hrefs|].
        constructor; [|constructor].
        unfold reference_from_line, b. cbn [fst snd sourceLine set_sourceLine].
        split; [lia|]. exists line, rest. split; [|exact Hparts].
        replace (Z.to_nat (sourceLine a + 1 - 1)) with (length pre) by lia.
        apply list_lookup_middle. reflexivity. }
    destruct (assembleLine decode_address line b) as [[] a1|e a1|];
      cbn [post] in Hr, Hf |- *; [| |exact I].
    + destruct (Hnew a1 Hf Hr) as [Hn1 Hrefs1].
      specialize (IH (pre ++ [line]) a1 Hn1 Hrefs1).
      rewrite <- app_assoc in IH. exact IH.
    + destruct (Hnew a1 Hf Hr) as [_ Hrefs1].
      rewrite <- app_assoc in Hrefs1. exact Hrefs1.
Qed.

(** X19. The line number recorded with a reference, which is the number
    the label errors of [resolveLabels] report, is the 1-based number of a
    line of the source, and that line is the [bnz] instruction naming the
    label of the reference. This holds after any lines assembled on a fresh
    session, returned or raised; blank and comment lines count. *)
Theorem reference_line_numbers (ops : list OpSpec) (name : string) (version0 : Z)
        (lines : list string) (a' : Assembler) :
  assembleLineSource decode_address lines (Assembler_init ops name version0)
  = Returns tt a'
  \/ (exists e, assembleLineSource decode_address lines
                  (Assembler_init ops name version0) = Raises e a') ->
  forall n pc label,
    (n, pc, label) ∈ labelReferences a' ->
    1 <= n <= Z.of_nat (length lines)
    /\ exists line rest,
         lines !! Z.to_nat (n - 1) = Some line
         /\ line_parts line = "bnz" :: label :: rest.
Proof.
  intros H n pc label Hin.
  pose proof (for_each_reference_lines lines [] (Assembler_init ops name version0)
                eq_refl (Forall_nil_2 _)) as Hp.
  cbn [app] in Hp. fold (assembleLineSource decode_address lines) in Hp.
  assert (Hall : Forall (reference_from_line lines) (labelReferences a'))
    by (destruct H as [H|[e H]]; rewrite H in Hp; exact Hp).
  rewrite Forall_forall in Hall.
  destruct (Hall _ Hin) as (H1 & line & rest & Hl & Hparts). cbn [fst snd] in *.
  split; [|exists line, rest; auto].
  split; [exact H1|]. apply lookup_lt_Some in Hl. lia.
Qed.

End ReferenceLines.

(** A comment, a blank line, and a branch on line 3. *)
Lemma reference_line_numbers_witness :
  1 <= 3 <= Z.of_nat (length ["// start"; ""; "  bnz out // leave"; "pop"])
  /\ exists line rest,
       ["// start"; ""; "  bnz out // leave"; "pop"] !! Z.to_nat (3 - 1) = Some line
       /\ line_parts line = "bnz" :: "out" :: rest.
Proof.
  apply (reference_line_numbers no_address sample_ops "" 1
           ["// start"; ""; "  bnz out // leave"; "pop"]
           (mkAssembler [0x40; 0; 0; 0x48] [] false [] false "" 4 ∅
                        [(3, 0, "out")] (ops_by_name sample_ops) 1)
           ltac:(left; vm_compute; reflexivity) 3 0 "out").
  left.
Defined.

(** ** The parenthesized byte constants *)

Lemma prefix_append (p s : string) : String.prefix p (p +:+ s) = true.
Proof.
  induction p as [|c p IH].
  - destruct s; reflexivity.
  - change (String c p +:+ s) with (String c (p +:+ s)). cbn [String.prefix].
    destruct (ascii_dec c c) as [_|N]; [exact IH | exfalso; apply N; reflexivity].
Qed.

Lemma drop_chars_append (p s : string) :
  drop (String.length p) (Py.chars (p +:+ s)) = Py.chars s.
Proof.
  rewrite chars_append, <- chars_length. apply drop_app_length.
Qed.

Lemma lazy_group_closed (l : list ascii) (tail : list ascii) (grp : list ascii) :
  Forall (fun c => Py.ord c <> 41 /\ Py.ord c <> 10) l ->
  lazy_group (l ++ ")"%char :: tail) grp = Some (Py.str (rev grp ++ l)).
Proof.
  intros H. revert grp. induction H as [|c l [H41 H10] _ IH]; intros grp.
  - cbn. rewrite app_nil_r. reflexivity.
  - cbn [app lazy_group].
    destruct (Z.eqb_spec (Py.ord c) 41) as [E|_]; [contradiction|].
    destruct (Z.eqb_spec (Py.ord c) 10) as [E|_]; [contradiction|].
    rewrite IH. cbn [rev]. rewrite <- app_assoc. reflexivity.
Qed.

Lemma re_match_closed (name x tail : string) :
  Forall (fun c => Py.ord c <> 41 /\ Py.ord c <> 10) (Py.chars x) ->
  re_match name ((name +:+ "(") +:+ x +:+ ")" +:+ tail) = Some x.
Proof.
  intros H. unfold re_match, Py.startswith.
  rewrite prefix_append.
  replace (S (String.length name)) with (String.length (name +:+ "(")).
  - rewrite drop_chars_append, chars_append.
    change (Py.chars (")" +:+ tail)) with (")"%char :: Py.chars tail).
    rewrite lazy_group_closed by exact H. cbn [rev app]. f_equal. apply str_chars.
  - rewrite <- !chars_length, chars_append, length_app. cbn. lia.
Qed.

(** X20. The parenthesized forms of a byte constant stand for the
    two-token forms: for a payload without [)] and without a line feed,
    [b32(payload)], [base32(payload)], [b64(payload)] and
    [base64(payload)] parse like [b32 payload], [base32 payload],
    [b64 payload] and [base64 payload], to the same bytes or the same
    error, and hand back the same tokens. Whatever follows the closing
    parenthesis in the token is ignored. *)
Theorem parenthesized_constant (x tail : string) (rest : list string) :
  Forall (fun c => Py.ord c <> 41 /\ Py.ord c <> 10) (Py.chars x) ->
  parseByteConstant (("b32(" +:+ x +:+ ")" +:+ tail) :: rest)
  = parseByteConstant ("b32" :: x :: rest)
  /\ parseByteConstant (("base32(" +:+ x +:+ ")" +:+ tail) :: rest)
     = parseByteConstant ("base32" :: x :: rest)
  /\ parseByteConstant (("b64(" +:+ x +:+ ")" +:+ tail) :: rest)
     = parseByteConstant ("b64" :: x :: rest)
  /\ parseByteConstant (("base64(" +:+ x +:+ ")" +:+ tail) :: rest)
     = parseByteConstant ("base64" :: x :: rest).
Proof.
  intros H.
  pose proof (re_match_closed "b32" x tail H) as M32.
  pose proof (re_match_closed "base32" x tail H) as Mb32.
  pose proof (re_match_closed "b64" x tail H) as M64.
  pose proof (re_match_closed "base64" x tail H) as Mb64.
  change (("b32" +:+ "(") +:+ x +:+ ")" +:+ tail)
    with ("b32(" +:+ x +:+ ")" +:+ tail) in M32.
  change (("base32" +:+ "(") +:+ x +:+ ")" +:+ tail)
    with ("base32(" +:+ x +:+ ")" +:+ tail) in Mb32.
  change (("b64" +:+ "(") +:+ x +:+ ")" +:+ tail)
    with ("b64(" +:+ x +:+ ")" +:+ tail) in M64.
  change (("base64" +:+ "(") +:+ x +:+ ")" +:+ tail)
    with ("base64(" +:+ x +:+ ")" +:+ tail) in Mb64.
  split; [|split; [|split]].
  - unfold parseByteConstant at 1.
    replace (String.eqb ("b32(" +:+ x +:+ ")" +:+ tail) "b32") with false
      by (vm_compute; reflexivity).
    replace (String.eqb ("b32(" +:+ x +:+ ")" +:+ tail) "base32") with false
      by (vm_compute; reflexivity).
    replace (String.eqb ("b32(" +:+ x +:+ ")" +:+ tail) "b64") with false
      by (vm_compute; reflexivity).
    replace (String.eqb ("b32(" +:+ x +:+ ")" +:+ tail) "base64") with false
      by (vm_compute; reflexivity).
    replace (Py.startswith ("b32(" +:+ x +:+ ")" +:+ tail) "0x") with false
      by (vm_compute; reflexivity).
    cbn [orb]. unfold b32re. rewrite M32. reflexivity.
  - unfold parseByteConstant at 1.
    replace (String.eqb ("base32(" +:+ x +:+ ")" +:+ tail) "b32") with false
      by (vm_compute; reflexivity).
    replace (String.eqb ("base32(" +:+ x +:+ ")" +:+ tail) "base32") with false
      by (vm_compute; reflexivity).
    replace (String.eqb ("base32(" +:+ x +:+ ")" +:+ tail) "b64") with false
      by (vm_compute; reflexivity).
    replace (String.eqb ("base32(" +:+ x +:+ ")" +:+ tail) "base64") with false
      by (vm_compute; reflexivity).
    replace (Py.startswith ("base32(" +:+ x +:+ ")" +:+ tail) "0x") with false
      by (vm_compute; reflexivity).
    cbn [orb]. unfold b32re, base32re.
    replace (re_match "b32" ("base32(" +:+ x +:+ ")" +:+ tail)) with (@None string)
      by (vm_compute; reflexivity).
    rewrite Mb32. reflexivity.
  - unfold parseByteConstant at 1.
    replace (String.eqb ("b64(" +:+ x +:+ ")" +:+ tail) "b32") with false
      by (vm_compute; reflexivity).
    replace (String.eqb ("b64(" +:+ x +:+ ")" +:+ tail) "base32") with false
      by (vm_compute; reflexivity).
    replace (String.eqb ("b64(" +:+ x +:+ ")" +:+ tail) "b64") with false
      by (vm_compute; reflexivity).
    replace (String.eqb ("b64(" +:+ x +:+ ")" +:+ tail) "base64") with false
      by (vm_compute; reflexivity).
    replace (Py.startswith ("b64(" +:+ x +:+ ")" +:+ tail) "0x") with false
      by (vm_compute; reflexivity).
    cbn [orb]. unfold b32re, base32re, b64re.
    replace (re_match "b32" ("b64(" +:+ x +:+ ")" +:+ tail)) with (@None string)
      by (vm_compute; reflexivity).
    replace (re_match "base32" ("b64(" +:+ x +:+ ")" +:+ tail)) with (@None string)
      by (vm_compute; reflexivity).
    rewrite M64. reflexivity.
  - unfold parseByteConstant at 1.
    replace (String.eqb ("base64(" +:+ x +:+ ")" +:+ tail) "b32") with false
      by (vm_compute; reflexivity).
    replace (String.eqb ("base64(" +:+ x +:+ ")" +:+ tail) "base32") with false
      by (vm_compute; reflexivity).
    replace (String.eqb ("base64(" +:+ x +:+ ")" +:+ tail) "b64") with false
      by (vm_compute; reflexivity).
    replace (String.eqb ("base64(" +:+ x +:+ ")" +:+ tail) "base64") with false
      by (vm_compute; reflexivity).
    replace (Py.startswith ("base64(" +:+ x +:+ ")" +:+ tail) "0x") with false
      by (vm_compute; reflexivity).
    cbn [orb]. unfold b32re, base32re, b64re, base64re.
    replace (re_match "b32" ("base64(" +:+ x +:+ ")" +:+ tail)) with (@None string)
      by (vm_compute; reflexivity).
    replace (re_match "base32" ("base64(" +:+ x +:+ ")" +:+ tail)) with (@None string)
      by (vm_compute; reflexivity).
    replace (re_match "b64" ("base64(" +:+ x +:+ ")" +:+ tail)) with (@None string)
      by (vm_compute; reflexivity).
    rewrite Mb64. reflexivity.
Qed.

(** The payload of the test data, with text after the parenthesis. *)
Lemma parenthesized_constant_witness :
  parseByteConstant ["b64(YWJjZGVm)xyz"; "0x01"]
  = parseByteConstant ["b64"; "YWJjZGVm"; "0x01"].
Proof.
  refine (proj1 (proj2 (proj2
            (parenthesized_constant "YWJjZGVm" "xyz" ["0x01"] _)))).
  repeat constructor; discriminate.
Defined.

(** * Label resolution over the references of a line pass *)

Lemma resolve_error_not_resolvable a ref e :
  resolve_error a ref e -> ~ resolvable a ref.
Proof.
  destruct ref as [[sourceLine pc] label]. unfold resolve_error, resolvable.
  cbn [fst snd]. intros He (dest & Hl & Hf & Hn). rewrite Hl in He.
  destruct He as [[Hb _]|(_ & Hfar & _)]; lia.
Qed.

(** The first element of a list that fails a test is where it is. *)
Lemma first_failure_unique {A} (P : A -> Prop) (b1 b2 : list A) (r1 r2 : A)
      (t1 t2 : list A) :
  b1 ++ r1 :: t1 = b2 ++ r2 :: t2 ->
  Forall P b1 -> ~ P r1 -> Forall P b2 -> ~ P r2 ->
  b1 = b2 /\ r1 = r2.
Proof.
  revert b2. induction b1 as [|x b1 IH]; intros [|y b2] H F1 N1 F2 N2;
    cbn in H.
  - injection H as -> _. auto.
  - injection H as -> _. apply Forall_cons in F2 as [F2 _]. contradiction.
  - injection H as -> _. apply Forall_cons in F1 as [F1 _]. contradiction.
  - injection H as -> H.
    apply Forall_cons in F1 as [_ F1]. apply Forall_cons in F2 as [_ F2].
    destruct (IH b2 H F1 N1 F2 N2) as [-> ->]. auto.
Qed.

(** [resolveLabels] raises the error of the first reference that cannot be
    resolved. *)
Lemma resolveLabels_first_failure a before ref after :
  session_wf a ->
  labelReferences a = before ++ ref :: after ->
  Forall (resolvable a) before ->
  ~ resolvable a ref ->
  exists e a', resolveLabels a = Raises e a' /\ resolve_error a ref e.
Proof.
  intros W Hsplit Hbefore Hbad.
  destruct (resolveLabels_cases a W) as (_ & Hraise & Hends).
  destruct (resolveLabels a) as [program a'|e a'|] eqn:Hres.
  - exfalso. apply Hbad.
    destruct (resolveLabels_patches a a' program W Hres) as (_ & _ & Hp & _).
    destruct ref as [[sourceLine pc] label].
    destruct (Hp sourceLine pc label) as (dest & Hl & Hf & Hn & _).
    { rewrite Hsplit. apply elem_of_app. right. left. }
    exists dest. auto.
  - destruct (Hraise e a' eq_refl) as (before' & ref' & after' & Hsplit' & Hb' & He).
    rewrite Hsplit in Hsplit'.
    destruct (first_failure_unique _ _ _ _ _ _ _ Hsplit' Hbefore Hbad Hb'
                (resolve_error_not_resolvable _ _ _ He)) as [_ <-].
    exists e, a'. auto.
  - exfalso. apply Hends. reflexivity.
Qed.

Lemma fresh_session_wf ops name version0 :
  session_wf (Assembler_init ops name version0).
Proof. split; [apply map_Forall_empty| | |]; constructor. Qed.

(** C4. [resolveLabels], on the session a line pass leaves, goes through
    the recorded references in their order. At the first reference
    [(sourceLine, pc, label)] that cannot be resolved (the ones before it
    can) it raises: an undefined label gives the error of kind
    [UndefinedLabel]; with [nextPc = pc + 3], a label offset below [nextPc]
    gives [BackwardJumpNotAllowed]; a jump [labelOffset - nextPc] above
    [0x7fff] gives [JumpTooFar]. When every reference can be resolved it
    returns the instruction stream, of the same length, in which the bytes
    at [pc + 1] and [pc + 2] of every reference are the high and the low
    byte of [labelOffset - nextPc], after the opcode [0x40] at [pc]; a
    label at [pc + 10] gives the bytes 0 and 7. No other byte is
    changed. *)
Theorem resolveLabels_each_reference
        (decode_address : string -> result (list Z)) (ops : list OpSpec)
        (name : string) (version0 : Z) (lines : list string) (a : Assembler) :
  assembleLineSource decode_address lines (Assembler_init ops name version0)
  = Returns tt a ->
  (forall before sourceLine pc label after,
     labelReferences a = before ++ (sourceLine, pc, label) :: after ->
     Forall (resolvable a) before ->
     let nextPc := pc + 3 in
     (labels a !! label = None ->
        exists e a',
          resolveLabels a = Raises e a'
          /\ e = Exception (reference_to_undefined_label sourceLine label)
          /\ kind_of e = Some UndefinedLabel)
     /\ (forall labelOffset,
           labels a !! label = Some labelOffset ->
           (labelOffset < nextPc ->
              exists e a',
                resolveLabels a = Raises e a'
                /\ e = Exception (label_is_before_reference sourceLine label)
                /\ kind_of e = Some BackwardJumpNotAllowed)
           /\ (nextPc <= labelOffset -> 0x7fff < labelOffset - nextPc ->
              exists e a',
                resolveLabels a = Raises e a'
                /\ e = Exception (label_is_too_far_away sourceLine label)
                /\ kind_of e = Some JumpTooFar)))
  /\ (Forall (resolvable a) (labelReferences a) ->
      exists program a',
        resolveLabels a = Returns program a'
        /\ length program = length (out a)
        /\ (forall sourceLine pc label labelOffset,
              (sourceLine, pc, label) ∈ labelReferences a ->
              labels a !! label = Some labelOffset ->
              let nextPc := pc + 3 in
              exists hi lo,
                0 <= hi < 256 /\ 0 <= lo < 256
                /\ 256 * hi + lo = labelOffset - nextPc
                /\ program !! Z.to_nat pc = Some 0x40
                /\ program !! Z.to_nat (pc + 1) = Some hi
                /\ program !! Z.to_nat (pc + 2) = Some lo
                /\ (labelOffset = pc + 10 -> hi = 0 /\ lo = 7))
        /\ (forall i,
              (forall r, r ∈ labelReferences a ->
                         i <> Z.to_nat (snd (fst r) + 1)
                         /\ i <> Z.to_nat (snd (fst r) + 2)) ->
              program !! i = out a !! i)).
Proof.
  intros Hpass.
  assert (W : session_wf a).
  { pose proof (assembleLineSource_wf decode_address lines _
                  (fresh_session_wf ops name version0)) as Hw.
    rewrite Hpass in Hw. exact Hw. }
  split.
  - intros before sourceLine pc label after Hsplit Hbefore nextPc. subst nextPc.
    assert (Hfail : ~ resolvable a (sourceLine, pc, label) ->
                    exists e a', resolveLabels a = Raises e a'
                                 /\ resolve_error a (sourceLine, pc, label) e).
    { apply resolveLabels_first_failure with (before := before) (after := after);
        assumption. }
    split; [|intros labelOffset Hl; split].
    + intros Hl. destruct Hfail as (e & a' & Hres & He).
      { intros (dest & Hd & _). cbn [fst snd] in Hd. congruence. }
      unfold resolve_error in He. rewrite Hl in He. subst e.
      eexists _, a'. split; [exact Hres|]. split; reflexivity.
    + intros Hback. destruct Hfail as (e & a' & Hres & He).
      { intros (dest & Hd & Hf & _). cbn [fst snd] in Hd, Hf.
        rewrite Hl in Hd. simplify_eq. lia. }
      unfold resolve_error in He. rewrite Hl in He.
      destruct He as [[_ ->]|(Hf & _)]; [|lia].
      eexists _, a'. split; [exact Hres|]. split; reflexivity.
    + intros Hfw Hfar. destruct Hfail as (e & a' & Hres & He).
      { intros (dest & Hd & _ & Hn). cbn [fst snd] in Hd, Hn.
        rewrite Hl in Hd. simplify_eq. lia. }
      unfold resolve_error in He. rewrite Hl in He.
      destruct He as [[Hb _]|(_ & _ & ->)]; [lia|].
      eexists _, a'. split; [exact Hres|]. split; reflexivity.
  - intros Hall.
    destruct (resolveLabels_cases a W) as (Hret & _ & _).
    destruct (Hret Hall) as (program & a' & Hres).
    destruct (resolveLabels_patches a a' program W Hres) as (_ & Hlen & Hp & Hrest).
    exists program, a'. split; [exact Hres|]. split; [exact Hlen|].
    split; [|exact Hrest].
    intros sourceLine pc label labelOffset Hin Hl nextPc. subst nextPc.
    destruct (Hp _ _ _ Hin) as (dest & Hd & Hf & Hn & Hop & Hhi & Hlo).
    rewrite Hl in Hd. simplify_eq.
    destruct (jump_bytes (dest - (pc + 3)) ltac:(lia)) as (Bhi & Blo & Hsum).
    exists (Z.shiftr (dest - (pc + 3)) 8), (Z.land (dest - (pc + 3)) 0x0ff).
    split; [lia|]. split; [lia|]. split; [exact Hsum|].
    split; [exact Hop|]. split; [exact Hhi|]. split; [exact Hlo|].
    intros ->. replace (pc + 10 - (pc + 3)) with 7 by lia. split; reflexivity.
Qed.

(** The job [bnz done], seven [pop]s and [done:]: the branch is at offset
    0 and the label at offset 10. *)
Lemma resolveLabels_each_reference_witness :
  let a := mkAssembler (0x40 :: 0 :: 0 :: replicate 7 0x48) [] false [] false ""
                       9 (<["done" := 10]> ∅) [(1, 0, "done")]
                       (ops_by_name sample_ops) 1 in
  exists program a',
    resolveLabels a = Returns program a'
    /\ program !! 1%nat = Some 0
    /\ program !! 2%nat = Some 7.
Proof.
  intros a.
  destruct (resolveLabels_each_reference no_address sample_ops "" 1
              ("bnz done" :: replicate 7 "pop" ++ ["done:"]) a) as [_ H].
  { vm_compute. reflexivity. }
  destruct H as (program & a' & Hres & _ & Hp & _).
  { constructor; [|constructor]. exists 10. cbn. split; [reflexivity|lia]. }
  destruct (Hp 1 0 "done" 10) as (hi & lo & _ & _ & _ & _ & Hhi & Hlo & H10).
  { left. }
  { reflexivity. }
  destruct (H10 eq_refl) as [-> ->].
  exists program, a'. split; [exact Hres|]. split; [exact Hhi | exact Hlo].
Defined.

(** A branch to a label declared before it, after a branch that resolves;
    and a branch to a label that is declared nowhere. *)
Example ex_resolve_backward_second :
  AssembleString no_address sample_ops
    ("a:" +:+ LF +:+ "bnz b" +:+ LF +:+ "bnz a" +:+ LF +:+ "b:")
  = Throws (Exception (label_is_before_reference 3 "a")).
Proof. vm_compute. reflexivity. Qed.

(** * The pools between two explicit blocks *)

Lemma int_pool_kept_refl a : int_pool_kept a a.
Proof. split; [reflexivity|]. exists []. symmetry. apply app_nil_r. Qed.

Lemma int_pool_kept_trans a b c :
  int_pool_kept a b -> int_pool_kept b c -> int_pool_kept a c.
Proof.
  intros [W1 [m1 P1]] [W2 [m2 P2]]. split; [congruence|].
  exists (m1 ++ m2). rewrite P2, P1. symmetry. apply app_assoc.
Qed.

Lemma byte_pool_kept_refl a : byte_pool_kept a a.
Proof. split; [reflexivity|]. exists []. symmetry. apply app_nil_r. Qed.

Lemma byte_pool_kept_trans a b c :
  byte_pool_kept a b -> byte_pool_kept b c -> byte_pool_kept a c.
Proof.
  intros [W1 [m1 P1]] [W2 [m2 P2]]. split; [congruence|].
  exists (m1 ++ m2). rewrite P2, P1. symmetry. apply app_assoc.
Qed.

Ltac kept_done :=
  first
    [ apply int_pool_kept_refl
    | apply byte_pool_kept_refl
    | split; fields;
      [ reflexivity
      | first [ eexists; reflexivity | exists []; symmetry; apply app_nil_r ] ] ].

Section PoolKept.

Variable decode_address : string -> result (list Z).

Lemma handler_int_kept name fn op args a :
  handler decode_address name = Some fn ->
  String.eqb name "intcblock" = false ->
  post (int_pool_kept a) (fn op args a).
Proof.
  unfold handler. intros H Hi.
  repeat case_match; simplify_eq; unfold post; run_method; try exact I;
    kept_done.
Qed.

Lemma handler_byte_kept name fn op args a :
  handler decode_address name = Some fn ->
  String.eqb name "bytecblock" = false ->
  post (byte_pool_kept a) (fn op args a).
Proof.
  unfold handler. intros H Hi.
  repeat case_match; simplify_eq; unfold post; run_method; try exact I;
    kept_done.
Qed.

Lemma assembleParts_int_kept p0 args a :
  String.eqb p0 "intcblock" = false ->
  post (int_pool_kept a) (assembleParts decode_address (p0 :: args) a).
Proof.
  intros Hi. unfold assembleParts. unfold bind at 1, get.
  destruct (handler decode_address p0) as [fn|] eqn:Hfn.
  - eapply handler_int_kept; eassumption.
  - unfold post. run_method; try exact I; kept_done.
Qed.

Lemma assembleParts_byte_kept p0 args a :
  String.eqb p0 "bytecblock" = false ->
  post (byte_pool_kept a) (assembleParts decode_address (p0 :: args) a).
Proof.
  intros Hi. unfold assembleParts. unfold bind at 1, get.
  destruct (handler decode_address p0) as [fn|] eqn:Hfn.
  - eapply handler_byte_kept; eassumption.
  - unfold post. run_method; try exact I; kept_done.
Qed.

(** [assembleLine] dispatches on the tokens [line_parts] gives. *)
Lemma assembleLine_parts rawline p0 args a :
  line_parts rawline = p0 :: args ->
  assembleLine decode_address rawline a
  = assembleParts decode_address (p0 :: args) a.
Proof.
  unfold line_parts, assembleLine.
  destruct (String.eqb rawline ""); [discriminate|].
  destruct (String.eqb (Py.strip rawline) ""); [discriminate|].
  destruct (Py.startswith (Py.strip rawline) "//"); [discriminate|].
  destruct (Py.split (Py.strip rawline)) as [|p ps]; [discriminate|].
  intros ->. reflexivity.
Qed.

(** A line without tokens leaves the session as it is, returned or
    raised. *)
Lemma assembleLine_no_parts rawline a :
  line_parts rawline = [] ->
  post (fun a' => a' = a) (assembleLine decode_address rawline a).
Proof.
  unfold line_parts, assembleLine.
  destruct (String.eqb rawline ""); [reflexivity|].
  destruct (String.eqb (Py.strip rawline) ""); [reflexivity|].
  destruct (Py.startswith (Py.strip rawline) "//"); [reflexivity|].
  destruct (Py.split (Py.strip rawline)) as [|p ps]; [reflexivity|].
  intros ->. reflexivity.
Qed.

Lemma assembleLine_int_kept rawline a :
  is_block_line "intcblock" rawline = false ->
  post (int_pool_kept a) (assembleLine decode_address rawline a).
Proof.
  unfold is_block_line. destruct (line_parts rawline) as [|p0 args] eqn:Hp.
  - intros _. pose proof (assembleLine_no_parts rawline a Hp) as H.
    destruct (assembleLine _ _ _) as [[] a1|e a1|]; cbn in *; subst;
      [apply int_pool_kept_refl..|exact I].
  - intros Hi. rewrite (assembleLine_parts _ _ _ _ Hp).
    apply assembleParts_int_kept. exact Hi.
Qed.

Lemma assembleLine_byte_kept rawline a :
  is_block_line "bytecblock" rawline = false ->
  post (byte_pool_kept a) (assembleLine decode_address rawline a).
Proof.
  unfold is_block_line. destruct (line_parts rawline) as [|p0 args] eqn:Hp.
  - intros _. pose proof (assembleLine_no_parts rawline a Hp) as H.
    destruct (assembleLine _ _ _) as [[] a1|e a1|]; cbn in *; subst;
      [apply byte_pool_kept_refl..|exact I].
  - intros Hi. rewrite (assembleLine_parts _ _ _ _ Hp).
    apply assembleParts_byte_kept. exact Hi.
Qed.

Lemma next_line_int_kept line a :
  is_block_line "intcblock" line = false ->
  post (int_pool_kept a) (next_line decode_address line a).
Proof.
  intros Hi. unfold next_line, bind, modify.
  pose proof (assembleLine_int_kept line (set_sourceLine (sourceLine a + 1) a) Hi)
    as H.
  destruct (assembleLine _ _ _) as [[] a1|e a1|]; cbn in *; [| |exact I];
    destruct H as [W P]; split; assumption.
Qed.

Lemma next_line_byte_kept line a :
  is_block_line "bytecblock" line = false ->
  post (byte_pool_kept a) (next_line decode_address line a).
Proof.
  intros Hi. unfold next_line, bind, modify.
  pose proof (assembleLine_byte_kept line (set_sourceLine (sourceLine a + 1) a) Hi)
    as H.
  destruct (assembleLine _ _ _) as [[] a1|e a1|]; cbn in *; [| |exact I];
    destruct H as [W P]; split; assumption.
Qed.

(** Between two [intcblock] lines the integer pool only gets entries
    appended, and its flag stays. *)
Lemma assembleLineSource_int_kept lines a :
  no_block_line "intcblock" lines ->
  post (int_pool_kept a) (assembleLineSource decode_address lines a).
Proof.
  unfold assembleLineSource, no_block_line. revert a.
  induction lines as [|line lines IH]; intros a Hn; [apply int_pool_kept_refl|].
  apply Forall_cons in Hn as [Hl Hn].
  cbn [for_each]. unfold bind.
  pose proof (next_line_int_kept line a Hl) as H1.
  destruct (next_line decode_address line a) as [[] a1|e a1|]; cbn in H1 |- *;
    [|exact H1|exact I].
  specialize (IH a1 Hn).
  destruct (for_each _ lines a1) as [[] a2|e a2|]; cbn in IH |- *;
    [| |exact I]; eapply int_pool_kept_trans; eassumption.
Qed.

Lemma assembleLineSource_byte_kept lines a :
  no_block_line "bytecblock" lines ->
  post (byte_pool_kept a) (assembleLineSource decode_address lines a).
Proof.
  unfold assembleLineSource, no_block_line. revert a.
  induction lines as [|line lines IH]; intros a Hn; [apply byte_pool_kept_refl|].
  apply Forall_cons in Hn as [Hl Hn].
  cbn [for_each]. unfold bind.
  pose proof (next_line_byte_kept line a Hl) as H1.
  destruct (next_line decode_address line a) as [[] a1|e a1|]; cbn in H1 |- *;
    [|exact H1|exact I].
  specialize (IH a1 Hn).
  destruct (for_each _ lines a1) as [[] a2|e a2|]; cbn in IH |- *;
    [| |exact I]; eapply byte_pool_kept_trans; eassumption.
Qed.

End PoolKept.

(** ** Interning a value again *)

Lemma write_bytec_ref (a : Assembler) (index : Z) :
  0 <= index <= 255 ->
  write_bytec index a = Returns tt (set_out (out a ++ bytec_ref index) a).
Proof.
  intros H. unfold bytec_ref. destruct (Z.leb_spec index 3).
  - apply write_bytec_fast. lia.
  - apply write_bytec_generic. lia.
Qed.

Lemma write_intc_returns_ref index a a1 :
  write_intc index a = Returns tt a1 ->
  0 <= index <= 255 /\ a1 = set_out (out a ++ intc_ref index) a.
Proof.
  destruct (Z.lt_ge_cases index 0) as [Hneg|Hpos].
  { rewrite write_intc_negative by exact Hneg. discriminate. }
  destruct (Z.lt_ge_cases 255 index) as [Hbig|Hsmall].
  { rewrite write_intc_overflow by exact Hbig. discriminate. }
  rewrite write_intc_ref by lia. intros [= <-]. split; [lia|reflexivity].
Qed.

Lemma write_bytec_returns_ref index a a1 :
  write_bytec index a = Returns tt a1 ->
  0 <= index <= 255 /\ a1 = set_out (out a ++ bytec_ref index) a.
Proof.
  destruct (Z.lt_ge_cases index 0) as [Hneg|Hpos].
  { rewrite write_bytec_negative by exact Hneg. discriminate. }
  destruct (Z.lt_ge_cases 255 index) as [Hbig|Hsmall].
  { rewrite write_bytec_overflow by exact Hbig. discriminate. }
  rewrite write_bytec_ref by lia. intros [= <-]. split; [lia|reflexivity].
Qed.

(** The first index of a value is the same in a pool with entries
    appended. *)
Lemma first_index_app {A} `{EqDecision A} (val : A) (pool more : list A) (i : Z) :
  first_index val pool = Some i -> first_index val (pool ++ more) = Some i.
Proof.
  unfold first_index.
  destruct (list_find (fun v => v = val) pool) as [[j x]|] eqn:E; [|discriminate].
  intros H.
  rewrite (proj2 (list_find_app_Some (fun v => v = val) pool more j x) (or_introl E)).
  exact H.
Qed.

(** An [int] that returns has emitted the reference to the first index of
    its value, and every later [int] of that value, on a pool that has kept
    its entries, emits that reference again and changes nothing else. *)
Lemma assemble_int_again op s val a a1 :
  Py.int s 0 = Ok val ->
  assemble_int op [s] a = Returns tt a1 ->
  exists i,
    0 <= i <= 255
    /\ intc a1 !! Z.to_nat i = Some val
    /\ out a1 = out a ++ intc_ref i
    /\ forall op' a2 more,
         intc a2 = intc a1 ++ more ->
         assemble_int op' [s] a2 = Returns tt (set_out (out a2 ++ intc_ref i) a2).
Proof.
  intros Hs H.
  assert (Hi : exists i, 0 <= i <= 255
                         /\ first_index val (intc a1) = Some i
                         /\ out a1 = out a ++ intc_ref i).
  { revert H. unfold assemble_int. rewrite Hs. unfold_monad. cbv beta iota.
    destruct (first_index val (intc a)) as [i|] eqn:Ef; cbn beta iota.
    - intros H. apply write_intc_returns_ref in H as [Hi ->]. fields.
      exists i. auto.
    - intros H. apply write_intc_returns_ref in H as [Hi ->]. fields.
      exists (Z.of_nat (length (intc a))). split; [exact Hi|].
      split; [apply first_index_fresh; exact Ef | reflexivity]. }
  destruct Hi as (i & Hi & Hf & Ho). exists i.
  split; [exact Hi|]. split; [apply first_index_Some; exact Hf|].
  split; [exact Ho|].
  intros op' a2 more Hp. unfold assemble_int. rewrite Hs. unfold_monad.
  cbv beta iota. rewrite Hp, (first_index_app _ _ more _ Hf). cbn beta iota.
  apply write_intc_ref. exact Hi.
Qed.

(** The same for a byte string ([byte] and [addr] go through
    [bytestring]). *)
Lemma bytestring_again val a a1 :
  bytestring val a = Returns tt a1 ->
  exists i,
    0 <= i <= 255
    /\ bytec a1 !! Z.to_nat i = Some val
    /\ out a1 = out a ++ bytec_ref i
    /\ forall a2 more,
         bytec a2 = bytec a1 ++ more ->
         bytestring val a2 = Returns tt (set_out (out a2 ++ bytec_ref i) a2).
Proof.
  intros H.
  assert (Hi : exists i, 0 <= i <= 255
                         /\ first_index val (bytec a1) = Some i
                         /\ out a1 = out a ++ bytec_ref i).
  { revert H. unfold bytestring. unfold_monad. cbv beta iota.
    destruct (first_index val (bytec a)) as [i|] eqn:Ef; cbn beta iota.
    - intros H. apply write_bytec_returns_ref in H as [Hi ->]. fields.
      exists i. auto.
    - intros H. apply write_bytec_returns_ref in H as [Hi ->]. fields.
      exists (Z.of_nat (length (bytec a))). split; [exact Hi|].
      split; [apply first_index_fresh; exact Ef | reflexivity]. }
  destruct Hi as (i & Hi & Hf & Ho). exists i.
  split; [exact Hi|]. split; [apply first_index_Some; exact Hf|].
  split; [exact Ho|].
  intros a2 more Hp. unfold bytestring. unfold_monad.
  cbv beta iota. rewrite Hp, (first_index_app _ _ more _ Hf). cbn beta iota.
  apply write_bytec_ref. exact Hi.
Qed.

(** ** The entries of a block *)

Lemma int_entry_inj x y entry : int_entry x entry -> int_entry y entry -> x = y.
Proof.
  unfold int_entry. intros Hx Hy.
  destruct (to_varuint_shape_value x entry Hx) as [_ <-].
  destruct (to_varuint_shape_value y entry Hy) as [_ <-]. reflexivity.
Qed.

(** No varuint is the beginning of another: the continuation bits tell
    where it ends. *)
Lemma varuint_tail_prefix_free (e1 e2 r1 r2 : list Z) :
  varuint_tail e1 -> varuint_tail e2 -> e1 ++ r1 = e2 ++ r2 -> e1 = e2.
Proof.
  revert e2. induction e1 as [|b1 t1 IH]; intros e2 H1 H2 E; [destruct H1|].
  destruct e2 as [|b2 t2]; [destruct H2|].
  cbn [app] in E. injection E as -> E.
  destruct t1 as [|c1 t1']; destruct t2 as [|c2 t2'].
  - reflexivity.
  - exfalso. cbn [varuint_tail] in H1. destruct H2 as [H2 _]. lia.
  - exfalso. cbn [varuint_tail] in H2. destruct H1 as [H1 _]. lia.
  - destruct H1 as [_ H1]. destruct H2 as [_ H2]. f_equal.
    apply IH; assumption.
Qed.

Lemma varuint_shape_prefix_free (e1 e2 r1 r2 : list Z) :
  varuint_shape e1 -> varuint_shape e2 -> e1 ++ r1 = e2 ++ r2 -> e1 = e2.
Proof.
  intros H1 H2 E.
  destruct e1 as [|b1 t1]; [destruct H1|].
  destruct e2 as [|b2 t2]; [destruct H2|].
  cbn [app] in E. injection E as -> E.
  destruct t1 as [|c1 t1']; destruct t2 as [|c2 t2'].
  - reflexivity.
  - exfalso. cbn [varuint_shape] in H1. destruct H2 as [H2 _]. lia.
  - exfalso. cbn [varuint_shape] in H2. destruct H1 as [H1 _]. lia.
  - destruct H1 as [_ H1]. destruct H2 as [_ H2]. f_equal.
    eapply varuint_tail_prefix_free; eassumption.
Qed.

Lemma byte_entry_inj x y entry : byte_entry x entry -> byte_entry y entry -> x = y.
Proof.
  intros (n & Hn & ->) (m & Hm & E).
  destruct (to_varuint_shape_value _ n Hn) as [Sn _].
  destruct (to_varuint_shape_value _ m Hm) as [Sm _].
  pose proof (varuint_shape_prefix_free _ _ _ _ Sn Sm E) as ->.
  apply app_inv_head in E. exact E.
Qed.

(** Entries of pairwise distinct values are pairwise distinct. *)
Lemma entries_NoDup {A} (entry : A -> list Z -> Prop) (pool : list A)
      (entries : list (list Z)) :
  (forall x y e, entry x e -> entry y e -> x = y) ->
  Forall2 entry pool entries -> NoDup pool -> NoDup entries.
Proof.
  intros Hinj F. induction F as [|x e pool entries Hx F IH]; intros Hn.
  - constructor.
  - apply NoDup_cons in Hn as [Hnot Hn]. apply NoDup_cons. split; [|auto].
    intros Hin. apply Hnot.
    apply list_elem_of_lookup in Hin as [i Hi].
    destruct (Forall2_lookup_r _ _ _ _ _ F Hi) as (x' & Hx' & He).
    rewrite (Hinj x x' e Hx He). apply list_elem_of_lookup. exists i. exact Hx'.
Qed.

Lemma write_varuints_entries (xs : list Z) (block : list Z) :
  write_varuints [] xs = Some block ->
  exists entries, Forall2 int_entry xs entries /\ block = concat entries.
Proof.
  revert block. induction xs as [|x xs IH]; intros block; cbn [write_varuints].
  - intros [= <-]. exists []. split; [constructor|reflexivity].
  - destruct (to_varuint x) as [b|] eqn:Hx; [|discriminate].
    rewrite write_varuints_prefix.
    destruct (write_varuints [] xs) as [r|]; [|discriminate].
    cbn. intros [= <-]. destruct (IH r eq_refl) as (entries & F & ->).
    exists (b :: entries). split; [constructor; assumption|reflexivity].
Qed.

Lemma write_byte_consts_entries (xs : list (list Z)) (block : list Z) :
  write_byte_consts [] xs = Some block ->
  exists entries, Forall2 byte_entry xs entries /\ block = concat entries.
Proof.
  revert block. induction xs as [|x xs IH]; intros block; cbn [write_byte_consts].
  - intros [= <-]. exists []. split; [constructor|reflexivity].
  - destruct (to_varuint (Z.of_nat (length x))) as [n|] eqn:Hx; [|discriminate].
    rewrite write_byte_consts_prefix.
    destruct (write_byte_consts [] xs) as [r|]; [|discriminate].
    cbn. intros [= <-]. destruct (IH r eq_refl) as (entries & F & ->).
    exists ((n ++ x) :: entries). split; [|reflexivity].
    constructor; [|assumption]. exists n. auto.
Qed.

(** The block of a pool without equal entries lists each value once. *)
Lemma write_intcblock_lists_once (pool : list Z) (block : list Z) :
  NoDup pool ->
  write_intcblock [] pool = Some block ->
  lists_once 0x20 int_entry pool block.
Proof.
  intros Hn. unfold write_intcblock.
  destruct (to_varuint (Z.of_nat (length pool))) as [count|] eqn:Hc; [|discriminate].
  rewrite write_varuints_prefix.
  destruct (write_varuints [] pool) as [r|] eqn:Hr; [|discriminate].
  cbn. intros [= <-]. destruct (write_varuints_entries _ _ Hr) as (entries & F & ->).
  exists count, entries. split; [exact Hc|]. split; [exact F|].
  split; [|reflexivity].
  exact (entries_NoDup int_entry pool entries int_entry_inj F Hn).
Qed.

Lemma write_bytecblock_lists_once (pool : list (list Z)) (block : list Z) :
  NoDup pool ->
  write_bytecblock [] pool = Some block ->
  lists_once 0x26 byte_entry pool block.
Proof.
  intros Hn. unfold write_bytecblock.
  destruct (to_varuint (Z.of_nat (length pool))) as [count|] eqn:Hc; [|discriminate].
  rewrite write_byte_consts_prefix.
  destruct (write_byte_consts [] pool) as [r|] eqn:Hr; [|discriminate].
  cbn. intros [= <-]. destruct (write_byte_consts_entries _ _ Hr) as (entries & F & ->).
  exists count, entries. split; [exact Hc|]. split; [exact F|].
  split; [|reflexivity].
  exact (entries_NoDup byte_entry pool entries byte_entry_inj F Hn).
Qed.

Lemma assemble_bytecblock_returns op args a a1 :
  assemble_bytecblock op args a = Returns tt a1 ->
  bytecWritten a1 = true
  /\ write_bytecblock (out a) (bytec a1) = Some (out a1).
Proof.
  unfold assemble_bytecblock. unfold_monad. cbv beta.
  destruct (parse_byte_constants (length args) args []) as [[vals|e]|];
    cbn beta iota; [|discriminate..].
  destruct (write_bytecblock (out a) vals) as [out'|] eqn:Hw; cbn beta iota;
    [|discriminate].
  intros [= <-]. fields. auto.
Qed.

(** The block an [intcblock] or [bytecblock] line writes, after the output
    there was. *)
Lemma explicit_block_appended {A} (write : list Z -> list A -> option (list Z))
      (out0 out1 : list Z) (pool : list A) :
  (forall prefix xs, write prefix xs = (fun b => prefix ++ b) <$> write [] xs) ->
  write out0 pool = Some out1 ->
  exists block, write [] pool = Some block /\ out1 = out0 ++ block.
Proof.
  intros Hprefix H. rewrite Hprefix in H.
  destruct (write [] pool) as [block|]; [|discriminate].
  cbn in H. injection H as <-. exists block. auto.
Qed.

(** ** The pools and the blocks of a job *)

Section PoolsDistinct.

Variable decode_address : string -> result (list Z).
Variable ops : list OpSpec.

(** C5, as the code has it. The pools of a fresh session have no two equal
    entries, and every line keeps it so, whether it returns or raises,
    provided each [intcblock] and [bytecblock] line lists pairwise distinct
    values: such a line makes its list the pool as it stands. An [int]
    that returns has emitted the reference to an index [i] of its value;
    after any lines with no [intcblock] among them, the value is still at
    index [i] and an [int] of it emits the reference to [i] again, with
    nothing else changed. The same holds for a byte string ([byte] and
    [addr], through [bytestring]) and lines with no [bytecblock] among
    them. A block is emitted by [getBytes] and by the two block
    instructions: it is the tag, the number of values and one entry for
    each value of the pool, and the entries are pairwise distinct when the
    values are, as they are in a block of [getBytes] on a session whose
    pools have no equal entries. *)
Theorem pools_stay_distinct :
  (forall name version0, pools_distinct (Assembler_init ops name version0))
  /\ (forall lines a a',
        pools_distinct a ->
        forallb block_values_distinct lines = true ->
        assembleLineSource decode_address lines a = Returns tt a'
        \/ (exists e, assembleLineSource decode_address lines a = Raises e a') ->
        pools_distinct a')
  /\ (forall op s val a a1 mid a2,
        Py.int s 0 = Ok val ->
        assemble_int op [s] a = Returns tt a1 ->
        no_block_line "intcblock" mid ->
        assembleLineSource decode_address mid a1 = Returns tt a2 ->
        exists i,
          0 <= i <= 255
          /\ intc a1 !! Z.to_nat i = Some val
          /\ out a1 = out a ++ intc_ref i
          /\ intc a2 !! Z.to_nat i = Some val
          /\ forall op',
               assemble_int op' [s] a2
               = Returns tt (set_out (out a2 ++ intc_ref i) a2))
  /\ (forall val a a1 mid a2,
        bytestring val a = Returns tt a1 ->
        no_block_line "bytecblock" mid ->
        assembleLineSource decode_address mid a1 = Returns tt a2 ->
        exists i,
          0 <= i <= 255
          /\ bytec a1 !! Z.to_nat i = Some val
          /\ out a1 = out a ++ bytec_ref i
          /\ bytec a2 !! Z.to_nat i = Some val
          /\ bytestring val a2
             = Returns tt (set_out (out a2 ++ bytec_ref i) a2))
  /\ (forall a binary a',
        pools_distinct a ->
        getBytes a = Returns binary a' ->
        exists v ib bb program a1,
          to_varuint (version a) = Some v
          /\ resolveLabels a = Returns program a1
          /\ binary = v ++ ib ++ bb ++ program
          /\ (if int_block_due a
              then lists_once 0x20 int_entry (intc a) ib else ib = [])
          /\ (if byte_block_due a
              then lists_once 0x26 byte_entry (bytec a) bb else bb = []))
  /\ (forall op args a a1,
        assemble_intcblock op args a = Returns tt a1 ->
        NoDup (intc a1) ->
        exists block,
          out a1 = out a ++ block
          /\ lists_once 0x20 int_entry (intc a1) block)
  /\ (forall op args a a1,
        assemble_bytecblock op args a = Returns tt a1 ->
        NoDup (bytec a1) ->
        exists block,
          out a1 = out a ++ block
          /\ lists_once 0x26 byte_entry (bytec a1) block).
Proof.
  split; [intros; split; constructor|].
  split.
  { intros lines a a' Ha Hd H.
    pose proof (assembleLineSource_pools decode_address lines a Ha Hd) as Hp.
    destruct H as [H|[e H]]; rewrite H in Hp; exact Hp. }
  split.
  { intros op s val a a1 mid a2 Hs H Hmid Hpass.
    destruct (assemble_int_again op s val a a1 Hs H) as (i & Hi & Hl & Ho & Hagain).
    pose proof (assembleLineSource_int_kept decode_address mid a1 Hmid) as K.
    rewrite Hpass in K. destruct K as [_ [more Hm]].
    exists i. split; [exact Hi|]. split; [exact Hl|]. split; [exact Ho|].
    split; [rewrite Hm; apply lookup_app_l_Some; exact Hl|].
    intros op'. exact (Hagain op' a2 more Hm). }
  split.
  { intros val a a1 mid a2 H Hmid Hpass.
    destruct (bytestring_again val a a1 H) as (i & Hi & Hl & Ho & Hagain).
    pose proof (assembleLineSource_byte_kept decode_address mid a1 Hmid) as K.
    rewrite Hpass in K. destruct K as [_ [more Hm]].
    exists i. split; [exact Hi|]. split; [exact Hl|]. split; [exact Ho|].
    split; [rewrite Hm; apply lookup_app_l_Some; exact Hl|].
    exact (Hagain a2 more Hm). }
  split.
  { intros a binary a' [Hi Hb]. rewrite getBytes_unfold.
    destruct (to_varuint (version a)) as [v|] eqn:Hv; [|discriminate].
    destruct (block_if (int_block_due a) (write_intcblock [] (intc a)))
      as [ib|] eqn:Hib; [|discriminate].
    destruct (block_if (byte_block_due a) (write_bytecblock [] (bytec a)))
      as [bb|] eqn:Hbb; [|discriminate].
    destruct (resolveLabels a) as [program a1|e a1|]; [|discriminate..].
    intros [= <- _]. exists v, ib, bb, program, a1.
    split; [reflexivity|]. split; [reflexivity|]. split; [reflexivity|].
    unfold block_if in Hib, Hbb. split.
    - destruct (int_block_due a).
      + apply write_intcblock_lists_once; assumption.
      + injection Hib as <-. reflexivity.
    - destruct (byte_block_due a).
      + apply write_bytecblock_lists_once; assumption.
      + injection Hbb as <-. reflexivity. }
  split.
  { intros op args a a1 H Hn.
    apply assemble_intcblock_returns in H as (_ & _ & Hw).
    destruct (explicit_block_appended write_intcblock _ _ _
                write_intcblock_prefix Hw) as (block & Hb & Ho).
    exists block. split; [exact Ho|].
    apply write_intcblock_lists_once; assumption. }
  intros op args a a1 H Hn.
  apply assemble_bytecblock_returns in H as (_ & Hw).
  destruct (explicit_block_appended write_bytecblock _ _ _
              write_bytecblock_prefix Hw) as (block & Hb & Ho).
  exists block. split; [exact Ho|].
  apply write_bytecblock_lists_once; assumption.
Qed.

End PoolsDistinct.

(** [int 5], then an integer, an opcode, a byte string and a label, then
    [int 5] again: the reference is to index 0 both times. *)
Lemma pools_stay_distinct_witness :
  let a := Assembler_init sample_ops "" 1 in
  let a1 := mkAssembler [0x22] [5] false [] false "" 0 ∅ []
                        (ops_by_name sample_ops) 1 in
  let a2 := mkAssembler [0x22; 0x23; 0x48; 0x28] [5; 7] false [[0x61]] false ""
                        4 (<["here" := 4]> ∅) [] (ops_by_name sample_ops) 1 in
  out a1 = [0x22]
  /\ assemble_int None ["5"] a2 = Returns tt (set_out (out a2 ++ [0x22]) a2).
Proof.
  intros a a1 a2.
  destruct (proj1 (proj2 (proj2 (pools_stay_distinct no_address sample_ops)))
              None "5" 5 a a1 ["int 7"; "pop"; "byte 0x61"; "here:"] a2)
    as (i & Hi & Hl & Ho & _ & Hagain).
  - reflexivity.
  - vm_compute. reflexivity.
  - repeat (constructor; [vm_compute; reflexivity|]). constructor.
  - vm_compute. reflexivity.
  - assert (i = 0) as ->.
    { cbn [intc a1] in Hl. destruct (Z.to_nat i) as [|n] eqn:En; [lia|].
      destruct n; discriminate. }
    split; [exact Ho|]. exact (Hagain None).
Defined.

(** Why the lines in between must hold no [intcblock]: the block makes its
    list the pool, and the value is found at its place in that list. Here
    [int 5] refers to index 0, and after [intcblock 7 5] to index 1. *)
Example ex_intcblock_moves_index :
  AssembleString no_address sample_ops
    ("int 5" +:+ LF +:+ "intcblock 7 5" +:+ LF +:+ "int 5")
  = Value [1; 0x22; 0x20; 2; 7; 5; 0x23].
Proof. vm_compute. reflexivity. Qed.

(** * An integer after the explicit block *)




Section ReferencesAfter.

Variable decode_address : string -> result (list Z).






End ReferencesAfter.






Section AfterBlock.

Variable decode_address : string -> result (list Z).
Variable ops : list OpSpec.




End AfterBlock.


(** The same with a branch over the lines after the [int]: the binary
    holds the one block, of two values, and the reference [0x24] to
    index 2. *)
Example ex_int_after_block :
  AssembleString no_address sample_ops
    ("intcblock 1 2" +:+ LF +:+ "int 3" +:+ LF +:+ "bnz end" +:+ LF
     +:+ "pop" +:+ LF +:+ "end:")
  = Value [1; 0x20; 2; 1; 2; 0x24; 0x40; 0; 1; 0x48].
Proof. vm_compute. reflexivity. Qed.
